(** * Eukairo: the decision / inference core, embedded in Rocq

    The development follows the TypeScript sources of the repository:

    - [src/state/thompson-sampling.ts]  Beta-Bernoulli primitives
    - [src/state/drift-detection.ts]    drift window, cooldown gate, soft reset
    - [src/state/contextual-bandits.ts] hourly sub-models
    - [src/state/confidence-based-exploration.ts] EVPI
    - [src/state/ensemble-methods.ts]   the four voters and their combination
    - [src/state/storage.ts]            persisted state and feedback update
    - [src/state/bandit.ts]             the selection orchestrator

    Conventions of the embedding.

    - A JavaScript [number] that carries a measurement (alpha, beta, means,
      variances, averages, confidences) is an exact rational [Q]; counts,
      feedback deltas, durations in seconds, hours and millisecond
      timestamps are integers [Z].  Rounding of binary64 arithmetic is not
      modelled, except where a branch of the orchestrator hangs on it: the
      close-competition test computes the ranking means and their gap as
      the source does, rounded to binary64 after each operation
      ([binary64]).
    - An optional field of a record is an [option]; [a || d] on numbers is
      [orQ] / [orZ] (the default is taken when the field is absent or 0).
    - [Date.now()], [new Date().getHours()] and [Math.random()] are ambient
      inputs of the source; here they are explicit arguments ([Clock],
      [Rand]).
    - [Math.sqrt], [Math.exp], [Math.log] and the Beta sampler are
      parameters of the sections that use them. *)

From Stdlib Require Import ZArith QArith Qround Qminmax Qabs Lia Lqa List Bool.
From Stdlib Require Import Sorted Permutation.
From stdpp Require Import gmap strings list fin_maps.

Local Open Scope Q_scope.

(** ** JavaScript helpers *)

(** [o || d] for an optional number: [undefined] and [0] are falsy. *)
Definition orQ (o : option Q) (d : Q) : Q :=
  match o with
  | Some x => if Qeq_bool x 0 then d else x
  | None => d
  end.

Definition orZ (o : option Z) (d : Z) : Z :=
  match o with
  | Some x => if (x =? 0)%Z then d else x
  | None => d
  end.

(** [a < b] on numbers, as a boolean. *)
Definition Qltb (a b : Q) : bool := negb (Qle_bool b a).

(** Rounding to binary64, the format of a JavaScript [number]: to the
    nearest representable value, ties to the even significand, with
    gradual underflow.  Magnitudes beyond the largest finite binary64
    number, which the source rounds to [Infinity], are not covered. *)
Definition roundHalfEven (x : Q) : Z :=
  let f := Qfloor x in
  let rest := x - inject_Z f in
  if Qltb rest (1 # 2) then f
  else if Qltb (1 # 2) rest then (f + 1)%Z
  else if Z.even f then f else (f + 1)%Z.

(** [floor (log2 |x|)] for [x <> 0]. *)
Definition binade (x : Q) : Z :=
  let e := (Z.log2 (Z.abs (Qnum x)) - Z.log2 (Zpos (Qden x)))%Z in
  if Qltb (Qabs x) (Qpower 2 e) then (e - 1)%Z else e.

Definition binary64 (x : Q) : Q :=
  if Qeq_bool x 0 then 0
  else
    let e := Z.max (binade x - 52) (-1074) in
    inject_Z (roundHalfEven (x / Qpower 2 e)) * Qpower 2 e.

(** [l.slice(-n)]: the last [n] elements. *)
Definition slice_last {A} (n : nat) (l : list A) : list A :=
  skipn (length l - n) l.

(** ** thompson-sampling.ts *)

Record BetaParams := mkBeta { alpha : Q; beta : Q }.

Definition deltaToReward (delta : Z) : Q :=
  if (delta =? 1)%Z then 1
  else if (delta =? 0)%Z then 1 # 2
  else 0.

Definition updateBetaParams (currentAlpha currentBeta reward : Q) : BetaParams :=
  {| alpha := currentAlpha + reward;
     beta := currentBeta + (1 - reward) |}.

Definition betaMean (a b : Q) : Q := a / (a + b).

(** [betaMean] as the source evaluates it on binary64 arguments: the sum
    and the quotient are each rounded. *)
Definition betaMean64 (a b : Q) : Q := binary64 (a / binary64 (a + b)).

Definition betaVariance (a b : Q) : Q :=
  let sum := a + b in
  (a * b) / (sum * sum * (sum + 1)).

(** ** drift-detection.ts *)

Definition DRIFT_WINDOW_SIZE : nat := 5.
Definition DRIFT_VARIANCE_THRESHOLD : Q := 3 # 10.
Definition DRIFT_COOLDOWN_MS : Z := 3600000.

Definition Qsum (l : list Q) : Q := fold_left Qplus l 0.

Definition calculateRecentVariance (recentScores : list Z) : Q :=
  if (length recentScores <? 3)%nat then 0
  else
    let n := inject_Z (Z.of_nat (length recentScores)) in
    let vals := map inject_Z recentScores in
    let mean := Qsum vals / n in
    let squaredDiffs := map (fun v => (v - mean) * (v - mean)) vals in
    Qsum squaredDiffs / n.

Definition updateScoreWindow (currentWindow : list Z) (newScore : Z) : list Z :=
  let updated := currentWindow ++ [newScore] in
  if (DRIFT_WINDOW_SIZE <? length updated)%nat
  then slice_last DRIFT_WINDOW_SIZE updated
  else updated.

(** [now] is the value [Date.now()] returns inside the call.  The guard
    [if (lastResetTimestamp)] is false for an absent timestamp and for 0. *)
Definition shouldResetDueToDrift (now : Z) (recentVariance : Q)
    (lastResetTimestamp : option Z) : bool :=
  if Qltb recentVariance DRIFT_VARIANCE_THRESHOLD then false
  else
    match lastResetTimestamp with
    | Some t =>
        if (t =? 0)%Z then true
        else
          let timeSinceReset := (now - t)%Z in
          if (timeSinceReset <? DRIFT_COOLDOWN_MS)%Z then false else true
    | None => true
    end.

Definition softResetBetaParams (currentAlpha currentBeta : Q) : BetaParams :=
  let totalTrials := currentAlpha + currentBeta - 2 in
  let keepRatio := 1 # 4 in
  let mean := currentAlpha / (currentAlpha + currentBeta) in
  let keptTrials := inject_Z (Qfloor (totalTrials * keepRatio)) in
  {| alpha := 1 + mean * keptTrials;
     beta := 1 + (1 - mean) * keptTrials |}.

(** ** types.ts *)

Inductive Goal := calm | focus | pre_sleep.

Definition Goal_eqb (a b : Goal) : bool :=
  match a, b with
  | calm, calm | focus, focus | pre_sleep, pre_sleep => true
  | _, _ => false
  end.

(** The display texts of a protocol ([cues]) are not part of the model. *)
Record Protocol := mkProtocol {
  id : string;
  name : string;
  supports : list Goal;
  baseSeconds : Z
}.

Record HourlyModel := mkHourly {
  h_trials : Z;
  h_alpha : Q;
  h_beta : Q;
  h_avg : Q
}.

Record HourlyPerformance := mkPerf { perf_sum : Z; perf_count : Z }.

(** [lastUsedISO] holds the clock reading instead of its ISO rendering. *)
Record ProtocolModel := mkModel {
  trials : Z;
  avg : Q;
  lastUsedISO : option Z;
  lastDelta : option Z;
  medDuration : option Z;
  hourlyPerformance : option (gmap Z HourlyPerformance);
  emaAvg : option Q;
  alphaParam : option Q;
  betaParam : option Q;
  hourlyModels : option (gmap Z HourlyModel);
  recentVariance : option Q;
  lastResetTimestamp : option Z;
  windowScores : option (list Z)
}.

(** [dateISO] holds the clock reading instead of its ISO rendering. *)
Record SessionRecord := mkSession {
  dateISO : Z;
  goal : Goal;
  protocolId : string;
  seconds : Z;
  delta : Z
}.

Record AppData := mkData {
  models : gmap string ProtocolModel;
  history : list SessionRecord;
  streak : Z
}.

(** The two clock readings a call makes: [Date.now()] and
    [new Date().getHours()]. *)
Record Clock := mkClock { now : Z; hour : Z }.

(** ** data/protocols.ts *)

Definition protocols : list Protocol :=
  [ mkProtocol "physiological-sigh" "Physiological Sigh" [calm; pre_sleep] 90;
    mkProtocol "box-breathing" "Box Breathing 4-4-4-4" [calm; focus; pre_sleep] 120;
    mkProtocol "eye-break" "20-20-20 Eye Break" [focus; calm] 60;
    mkProtocol "4-7-8-breathing" "4-7-8 Breathing" [pre_sleep; calm] 120;
    mkProtocol "alternate-nostril" "Alternate Nostril" [calm; focus] 90 ].

Definition getProtocolsByGoal (g : Goal) : list Protocol :=
  List.filter (fun p => existsb (Goal_eqb g) (supports p)) protocols.

Definition getProtocolById (i : string) : option Protocol :=
  List.find (fun p => String.eqb (id p) i) protocols.

(** ** storage.ts: the persisted state *)

(** The content of the storage key: [None] when nothing was saved yet. *)
Definition Storage := option AppData.

Definition defaultData : AppData :=
  {| models := ∅; history := []; streak := 0 |}.

Definition loadData (st : Storage) : AppData :=
  match st with
  | Some d => d
  | None => defaultData
  end.

Definition saveData (d : AppData) : Storage := Some d.

Definition addSession (record : SessionRecord) (st : Storage) : Storage :=
  let data := loadData st in
  saveData {| models := models data;
              history := history data ++ [record];
              streak := streak data |}.

(** ** contextual-bandits.ts *)

Definition initializeHourlyModel : HourlyModel :=
  {| h_trials := 0; h_alpha := 1; h_beta := 1; h_avg := 0 |}.

(** Field updates written [model.f = v] in the source. *)
Definition set_hourlyModels (m : ProtocolModel) (v : gmap Z HourlyModel) : ProtocolModel :=
  {| trials := trials m; avg := avg m; lastUsedISO := lastUsedISO m;
     lastDelta := lastDelta m; medDuration := medDuration m;
     hourlyPerformance := hourlyPerformance m; emaAvg := emaAvg m;
     alphaParam := alphaParam m; betaParam := betaParam m;
     hourlyModels := Some v; recentVariance := recentVariance m;
     lastResetTimestamp := lastResetTimestamp m;
     windowScores := windowScores m |}.

Definition updateHourlyModel (model : ProtocolModel) (hr : Z) (reward : Q)
    : ProtocolModel :=
  let hms := match hourlyModels model with Some m => m | None => ∅ end in
  let hourlyModel :=
    match hms !! hr with Some x => x | None => initializeHourlyModel end in
  let a := h_alpha hourlyModel + reward in
  let b := h_beta hourlyModel + (1 - reward) in
  let t := (h_trials hourlyModel + 1)%Z in
  let v := (h_avg hourlyModel * inject_Z (t - 1) + reward) / inject_Z t in
  set_hourlyModels model
    (<[hr := {| h_trials := t; h_alpha := a; h_beta := b; h_avg := v |}]> hms).

(** ** storage.ts: the feedback update *)

(** The model [updateModel] starts from when the protocol has none. *)
Definition freshModel : ProtocolModel :=
  {| trials := 0; avg := 0; lastUsedISO := None; lastDelta := None;
     medDuration := None; hourlyPerformance := Some ∅; emaAvg := Some 0;
     alphaParam := Some 1; betaParam := Some 1; hourlyModels := Some ∅;
     recentVariance := Some 0; lastResetTimestamp := None;
     windowScores := Some [] |}.

(** [data.history.filter(s => s.protocolId === protocolId).slice(-3)] *)
Definition recentSessionsOf (pid : string) (h : list SessionRecord)
    : list SessionRecord :=
  slice_last 3 (List.filter (fun s => String.eqb (protocolId s) pid) h).

(** The adaptive step of the dose search. *)
Definition medStep (recentSessions : list SessionRecord) : Z :=
  let consecutiveBetter :=
    (2 <=? length recentSessions)%nat
    && forallb (fun s => (delta s =? 1)%Z) (slice_last 2 recentSessions) in
  let hadWorse := existsb (fun s => (delta s =? -1)%Z) recentSessions in
  let step := 15%Z in
  let step := if consecutiveBetter then 10%Z else step in
  let step := if hadWorse then 20%Z else step in
  step.

Definition updateModel (clk : Clock) (pid : string) (dlt : Z)
    (currentDuration : Z) (st : Storage) : Storage :=
  let data := loadData st in
  let model :=
    match models data !! pid with Some m => m | None => freshModel end in
  let hr := hour clk in
  let reward := deltaToReward dlt in
  let avg1 :=
    if (trials model =? 0)%Z then inject_Z dlt
    else (avg model * inject_Z (trials model) + inject_Z dlt)
         / inject_Z (trials model + 1) in
  let emaAvg1 :=
    if (trials model =? 0)%Z then inject_Z dlt
    else
      let a := 1 # 5 in
      orQ (emaAvg model) avg1 * (1 - a) + inject_Z dlt * a in
  let trials1 := (trials model + 1)%Z in
  let betaUpdate :=
    updateBetaParams (orQ (alphaParam model) 1) (orQ (betaParam model) 1) reward in
  let hourlyModels1 := hourlyModels (updateHourlyModel model hr reward) in
  let windowScores1 :=
    updateScoreWindow
      (match windowScores model with Some w => w | None => [] end) dlt in
  let recentVariance1 := calculateRecentVariance windowScores1 in
  let drift :=
    shouldResetDueToDrift (now clk) recentVariance1 (lastResetTimestamp model) in
  let resetParams :=
    softResetBetaParams (alpha betaUpdate) (beta betaUpdate) in
  let alpha2 := if drift then alpha resetParams else alpha betaUpdate in
  let beta2 := if drift then beta resetParams else beta betaUpdate in
  let emaAvg2 := if drift then 0 else emaAvg1 in
  let avg2 := if drift then 0 else avg1 in
  let lastReset2 := if drift then Some (now clk) else lastResetTimestamp model in
  let windowScores2 := if drift then [] else windowScores1 in
  let perf0 :=
    match hourlyPerformance model with Some m => m | None => ∅ end in
  let cell :=
    match perf0 !! hr with Some c => c | None => mkPerf 0 0 end in
  let perf1 :=
    <[hr := mkPerf (perf_sum cell + dlt) (perf_count cell + 1)]> perf0 in
  let step := medStep (recentSessionsOf pid (history data)) in
  let medDuration1 :=
    if (dlt =? 1)%Z then Z.max 45 (currentDuration - step)
    else if (dlt =? -1)%Z then Z.min 180 (currentDuration + step)
    else currentDuration in
  let model' :=
    {| trials := trials1; avg := avg2; lastUsedISO := Some (now clk);
       lastDelta := Some dlt; medDuration := Some medDuration1;
       hourlyPerformance := Some perf1; emaAvg := Some emaAvg2;
       alphaParam := Some alpha2; betaParam := Some beta2;
       hourlyModels := hourlyModels1; recentVariance := Some recentVariance1;
       lastResetTimestamp := lastReset2;
       windowScores := Some windowScores2 |} in
  saveData {| models := <[pid := model']> (models data);
              history := history data;
              streak := streak data |}.

(** ** state/SessionProvider.tsx: recording a rating *)

Record SessionState := mkSessionState {
  ss_goal : option Goal;
  ss_protocol : option Protocol;
  ss_duration : Z
}.

Definition saveRating (clk : Clock) (ss : SessionState) (dlt : Z)
    (st : Storage) : Storage :=
  match ss_goal ss, ss_protocol ss with
  | Some g, Some p =>
      let record :=
        {| dateISO := now clk; goal := g; protocolId := id p;
           seconds := ss_duration ss; delta := dlt |} in
      updateModel clk (id p) dlt (ss_duration ss) (addSession record st)
  | _, _ => st
  end.

(** ** The random source *)

(** [Math.random()] with its generator state explicit: the [n]-th call
    returns [draws n]. *)
Record Rand := mkRand { draws : nat -> Q; pos : nat }.

Definition random (r : Rand) : Q * Rand :=
  (draws r (pos r), {| draws := draws r; pos := S (pos r) |}).

(** [l[i]] for a computed index; [None] is [undefined]. *)
Definition at_index {A} (l : list A) (i : Z) : option A :=
  if (i <? 0)%Z then None else nth_error l (Z.to_nat i).

(** [l[Math.floor(u * l.length)]] *)
Definition pickRandom {A} (l : list A) (u : Q) : option A :=
  at_index l (Qfloor (u * inject_Z (Z.of_nat (length l)))).

(** ** Sorting

    [l.sort((a, b) => key(b) - key(a))]: descending by [key], stable. *)
Fixpoint insertDesc {A} (key : A -> Q) (x : A) (l : list A) : list A :=
  match l with
  | [] => [x]
  | y :: l' =>
      if Qltb (key x) (key y) then y :: insertDesc key x l'
      else x :: y :: l'
  end.

Fixpoint sortDesc {A} (key : A -> Q) (l : list A) : list A :=
  match l with
  | [] => []
  | x :: l' => insertDesc key x (sortDesc key l')
  end.

(** A list in descending order of [key]. *)
Definition descending {A} (key : A -> Q) (l : list A) : Prop :=
  StronglySorted (fun a b => key b <= key a) l.

(** ** ensemble-methods.ts: the data *)

Inductive EnsembleAlgorithm := thompson | ucb | epsilonGreedy | softmax.

(** The [reasoning] text of a vote is not part of the model. *)
Record AlgorithmVote := mkVote {
  algorithm : EnsembleAlgorithm;
  v_protocolId : string;
  confidence : Q;
  score : Q
}.

Record EnsembleWeights := mkWeights {
  w_thompson : Q;
  w_ucb : Q;
  w_epsilonGreedy : Q;
  w_softmax : Q
}.

(** [weights[vote.algorithm]] *)
Definition weightOf (w : EnsembleWeights) (a : EnsembleAlgorithm) : Q :=
  match a with
  | thompson => w_thompson w
  | ucb => w_ucb w
  | epsilonGreedy => w_epsilonGreedy w
  | softmax => w_softmax w
  end.

(** An entry of the [protocols] argument of the voters. *)
Record Candidate := mkCand {
  c_id : string;
  c_name : string;
  c_alpha : Q;
  c_beta : Q;
  c_trials : Z
}.

Definition variance_of (a b : Q) : Q :=
  (a * b) / ((a + b) * (a + b) * (a + b + 1)).

(** The [explanation] text of the result is not part of the model. *)
Record EnsembleResult := mkResult {
  selectedProtocolId : string;
  selectedProtocolName : string;
  votes : list AlgorithmVote;
  consensusScore : Q
}.

(** [voteCounts[k] = (voteCounts[k] || 0) + wc] on an object whose entries
    are listed in insertion order. *)
Fixpoint addVote (voteCounts : list (string * Q)) (k : string) (wc : Q)
    : list (string * Q) :=
  match voteCounts with
  | [] => [(k, 0 + wc)]
  | (k', v) :: rest =>
      if String.eqb k' k then (k', orQ (Some v) 0 + wc) :: rest
      else (k', v) :: addVote rest k wc
  end.

Definition countVotes (weights : EnsembleWeights) (vs : list AlgorithmVote)
    : list (string * Q) :=
  fold_left
    (fun voteCounts vote =>
       let weight := weightOf weights (algorithm vote) in
       let weightedConfidence := weight * confidence vote in
       addVote voteCounts (v_protocolId vote) weightedConfidence)
    vs [].

(** The cumulative scan of [softmaxVote]; [selectedIndex] starts at 0. *)
Fixpoint softmaxScan (probabilities : list Q) (rand cumulativeProb : Q)
    (i : nat) : nat :=
  match probabilities with
  | [] => 0%nat
  | p :: rest =>
      let c := cumulativeProb + p in
      if Qle_bool rand c then i else softmaxScan rest rand c (S i)
  end.

Section Engine.

(** [Math.sqrt], [Math.exp], [Math.log] and [sampleBeta] (a rejection
    sampler over [Math.random]) are taken as given. *)
Variable Math_sqrt : Q -> Q.
Variable Math_exp : Q -> Q.
Variable Math_log : Q -> Q.
Variable sampleBeta : Q -> Q -> Rand -> Q * Rand.

(** ** thompson-sampling.ts: the credible interval *)

Definition betaCredibleInterval (a b : Q) : Q * Q :=
  let mean := betaMean a b in
  let variance := betaVariance a b in
  let stdDev := Math_sqrt variance in
  (Qmax 0 (mean - (196 # 100) * stdDev),
   Qmin 1 (mean + (196 # 100) * stdDev)).

(** ** confidence-based-exploration.ts *)

Definition calculateEVPI (protocolAlpha protocolBeta currentBestMean : Q) : Q :=
  let mean := betaMean protocolAlpha protocolBeta in
  let variance := betaVariance protocolAlpha protocolBeta in
  let '(lowerBound, upperBound) :=
    betaCredibleInterval protocolAlpha protocolBeta in
  if Qltb upperBound (currentBestMean - (5 # 100)) then 0
  else if Qltb (currentBestMean + (5 # 100)) lowerBound
  then (lowerBound - currentBestMean) * 10
  else
    let potentialGain := Qmax 0 (mean - currentBestMean) in
    let uncertaintyValue := Math_sqrt variance * 5 in
    potentialGain + uncertaintyValue.

(** ** ensemble-methods.ts: the four voters

    A voter returns [None] where the source reads a property of
    [undefined] (an empty [protocols] array, an index out of range). *)

Record ThompsonSample := mkTS {
  ts_id : string; ts_sample : Q; ts_mean : Q; ts_variance : Q
}.

Fixpoint drawSamples (ps : list Candidate) (r : Rand)
    : list ThompsonSample * Rand :=
  match ps with
  | [] => ([], r)
  | p :: rest =>
      let '(s, r1) := sampleBeta (c_alpha p) (c_beta p) r in
      let '(ss, r2) := drawSamples rest r1 in
      (mkTS (c_id p) s (betaMean (c_alpha p) (c_beta p))
            (variance_of (c_alpha p) (c_beta p)) :: ss, r2)
  end.

Definition thompsonVote (ps : list Candidate) (r : Rand)
    : option AlgorithmVote * Rand :=
  let '(samples, r') := drawSamples ps r in
  match sortDesc ts_sample samples with
  | [] => (None, r')
  | winner :: rest =>
      let gap :=
        match rest with
        | second :: _ => ts_sample winner - ts_sample second
        | [] => 1 # 2
        end in
      let confidence :=
        Qmin 1 (gap * 2) * (1 - Math_sqrt (ts_variance winner)) in
      (Some (mkVote thompson (ts_id winner) confidence (ts_sample winner)), r')
  end.

Record UcbScore := mkUcb {
  u_id : string; u_score : Q; u_mean : Q; u_exploration : Q
}.

Definition ucbVote (ps : list Candidate) (totalTrials : Z)
    : option AlgorithmVote :=
  let scores :=
    map (fun p =>
           let mean := betaMean (c_alpha p) (c_beta p) in
           let variance := variance_of (c_alpha p) (c_beta p) in
           let exploration :=
             Math_sqrt ((2 * Math_log (inject_Z (totalTrials + 1)))
                        / inject_Z (c_trials p + 1)) in
           let ucbScore := mean + exploration + Math_sqrt variance in
           mkUcb (c_id p) ucbScore mean exploration) ps in
  match sortDesc u_score scores with
  | [] => None
  | winner :: _ =>
      let confidence :=
        Qmin 1 (u_mean winner / (u_mean winner + u_exploration winner)) in
      Some (mkVote ucb (u_id winner) confidence (u_score winner))
  end.

Record MeanEntry := mkMean { m_id : string; m_mean : Q; m_variance : Q }.

Definition epsilonGreedyVote (ps : list Candidate) (totalTrials : Z)
    (r : Rand) : option AlgorithmVote * Rand :=
  let epsilon :=
    Qmax (5 # 100) ((2 # 10) * Math_exp (- inject_Z totalTrials / 30)) in
  let '(u, r1) := random r in
  if Qltb u epsilon then
    let '(u2, r2) := random r1 in
    match pickRandom ps u2 with
    | Some randomProtocol =>
        (Some (mkVote epsilonGreedy (c_id randomProtocol) (3 # 10)
                 (betaMean (c_alpha randomProtocol) (c_beta randomProtocol))),
         r2)
    | None => (None, r2)
    end
  else
    let means :=
      map (fun p => mkMean (c_id p) (betaMean (c_alpha p) (c_beta p))
                      (variance_of (c_alpha p) (c_beta p))) ps in
    match sortDesc m_mean means with
    | [] => (None, r1)
    | winner :: _ =>
        (Some (mkVote epsilonGreedy (m_id winner)
                 (1 - Math_sqrt (m_variance winner)) (m_mean winner)), r1)
    end.

Definition softmaxVote (ps : list Candidate) (totalTrials : Z) (r : Rand)
    : option AlgorithmVote * Rand :=
  let temperature :=
    Qmax (1 # 10) (1 * Math_exp (- inject_Z totalTrials / 40)) in
  let means := map (fun p => betaMean (c_alpha p) (c_beta p)) ps in
  let expScores := map (fun mean => Math_exp (mean / temperature)) means in
  let sumExp := Qsum expScores in
  let probabilities := map (fun e => e / sumExp) expScores in
  let '(rand, r1) := random r in
  let selectedIndex := softmaxScan probabilities rand 0 0 in
  match nth_error ps selectedIndex, nth_error means selectedIndex,
        nth_error probabilities selectedIndex with
  | Some winner, Some winnerMean, Some prob =>
      (Some (mkVote softmax (c_id winner) prob winnerMean), r1)
  | _, _, _ => (None, r1)
  end.

(** ** ensemble-methods.ts: combining the votes *)

Definition ensembleVoting (ps : list Candidate) (totalTrials : Z)
    (weights : EnsembleWeights) (r : Rand) : option EnsembleResult * Rand :=
  let '(v1, r1) := thompsonVote ps r in
  let v2 := ucbVote ps totalTrials in
  let '(v3, r3) := epsilonGreedyVote ps totalTrials r1 in
  let '(v4, r4) := softmaxVote ps totalTrials r3 in
  match v1, v2, v3, v4 with
  | Some a, Some b, Some c, Some d =>
      let votes := [a; b; c; d] in
      let voteCounts := countVotes weights votes in
      match sortDesc snd voteCounts with
      | [] => (None, r4)
      | winner :: _ =>
          let selectedProtocolId := fst winner in
          match List.find (fun p => String.eqb (c_id p) selectedProtocolId) ps with
          | None => (None, r4)
          | Some selectedProtocol =>
              let agreementCount :=
                length (List.filter
                          (fun v => String.eqb (v_protocolId v) selectedProtocolId)
                          votes) in
              let consensusScore :=
                inject_Z (Z.of_nat agreementCount)
                / inject_Z (Z.of_nat (length votes)) in
              (Some (mkResult selectedProtocolId (c_name selectedProtocol)
                       votes consensusScore), r4)
          end
      end
  | _, _, _, _ => (None, r4)
  end.

(** ** bandit.ts: the selection orchestrator *)

Definition MIN_TRIALS_FOR_THOMPSON : Z := 2.
Definition EXPLORATION_BONUS : Q := 5 # 100.
Definition MED_STEP : Z := 15.
Definition MIN_DURATION : Z := 45.
Definition MAX_DURATION : Z := 180.
Definition CLOSE_COMPETITION_THRESHOLD : Q := 5 # 100.
Definition MIN_HOURLY_EXPLORATION : Z := 2.

(** The branch a call returns from, named after the line it logs. *)
Inductive Phase :=
| ExploringUntried      (* "Exploring untried protocol" *)
| BuildingData          (* "Building data for" *)
| HourlyExploration     (* "Hourly exploration" *)
| EnsembleVotingPhase   (* "Close competition detected, using ensemble voting" *)
| StandardSelection.    (* "Standard selection, using Thompson sampling" *)

(** What a call leaves behind: the branch taken, the returned
    [{ protocol, duration }] ([None] when the source would read a property
    of [undefined]), the storage and the random source. *)
Record Outcome := mkOutcome {
  out_phase : Phase;
  out_result : option (Protocol * Z);
  out_storage : Storage;
  out_rand : Rand
}.

Definition isUntried (data : AppData) (p : Protocol) : bool :=
  match models data !! id p with
  | None => true
  | Some model => (trials model =? 0)%Z
  end.

Definition isNegative (model : ProtocolModel) : bool :=
  match emaAvg model with
  | Some e => Qltb e (- (3 # 10))
  | None => false
  end.

Definition isUndertried (data : AppData) (p : Protocol) : bool :=
  match models data !! id p with
  | None => false
  | Some model =>
      if isNegative model then false
      else (trials model <? MIN_TRIALS_FOR_THOMPSON)%Z
  end.

Definition isHourlyUndertried (currentHour : Z) (data : AppData)
    (p : Protocol) : bool :=
  match models data !! id p with
  | None => false
  | Some model =>
      if (trials model =? 0)%Z then false
      else if isNegative model then false
      else
        match hourlyModels model with
        | None => true
        | Some hms =>
            match hms !! currentHour with
            | None => true
            | Some hourlyModel =>
                (h_trials hourlyModel <? MIN_HOURLY_EXPLORATION)%Z
            end
        end
  end.

(** The model the drift sweep installs. *)
Definition resetModel (nowMs : Z) : ProtocolModel :=
  {| trials := 0; avg := 0; lastUsedISO := None; lastDelta := None;
     medDuration := None; hourlyPerformance := None; emaAvg := Some 0;
     alphaParam := Some (15 # 10); betaParam := Some 1; hourlyModels := None;
     recentVariance := Some 0; lastResetTimestamp := Some nowMs;
     windowScores := Some [] |}.

Definition driftSignalled (nowMs : Z) (model : ProtocolModel) : bool :=
  match recentVariance model, lastResetTimestamp model with
  | Some v, Some t => shouldResetDueToDrift nowMs v (Some t)
  | _, _ => false
  end.

(** One iteration of the sweep over the in-memory [data] and the storage. *)
Definition sweepStep (nowMs : Z) (acc : AppData * Storage) (p : Protocol)
    : AppData * Storage :=
  let '(data, st) := acc in
  match models data !! id p with
  | Some model =>
      if driftSignalled nowMs model then
        let data' :=
          {| models := <[id p := resetModel nowMs]> (models data);
             history := history data; streak := streak data |} in
        (data', saveData data')
      else (data, st)
  | None => (data, st)
  end.

Definition driftSweep (nowMs : Z) (candidates : list Protocol)
    (data : AppData) (st : Storage) : AppData * Storage :=
  fold_left (sweepStep nowMs) candidates (data, st).

Record ProtocolStats := mkStats {
  s_protocol : Protocol;
  s_model : ProtocolModel;
  s_mean : Q;
  s_variance : Q;
  s_trials : Z
}.

Definition statsOf (data : AppData) (p : Protocol) : option ProtocolStats :=
  match models data !! id p with
  | None => None
  | Some model =>
      if (trials model =? 0)%Z then None
      else
        let a := orQ (alphaParam model) (15 # 10) in
        let b := orQ (betaParam model) 1 in
        Some (mkStats p model (betaMean64 a b) (variance_of a b) (trials model))
  end.

Definition allProtocolStats (data : AppData) (candidates : list Protocol)
    : list ProtocolStats :=
  sortDesc s_mean (omap (statsOf data) candidates).

(** The gap of the two leading means is a binary64 difference and
    [0.05] a binary64 literal: means that are exactly 0.05 apart as
    fractions can pass the test (0.5 - 0.45 gives 0.04999999999999999). *)
Definition isCloseCompetition (stats : list ProtocolStats) : bool :=
  match stats with
  | s0 :: s1 :: _ =>
      (20 <=? s_trials s0)%Z && (20 <=? s_trials s1)%Z
      && Qltb (binary64 (s_mean s0 - s_mean s1))
              (binary64 CLOSE_COMPETITION_THRESHOLD)
  | _ => false
  end.

Definition candidateOf (data : AppData) (p : Protocol) : Candidate :=
  let model := models data !! id p in
  {| c_id := id p; c_name := name p;
     c_alpha := orQ (model ≫= alphaParam) (15 # 10);
     c_beta := orQ (model ≫= betaParam) 1;
     c_trials := orZ (trials <$> model) 0 |}.

Definition ensembleWeights : EnsembleWeights :=
  {| w_thompson := 35 # 100; w_ucb := 25 # 100;
     w_epsilonGreedy := 25 # 100; w_softmax := 15 # 100 |}.

(** [model?.medDuration || protocol.baseSeconds] *)
Definition learnedDuration (data : AppData) (p : Protocol) : Z :=
  orZ (models data !! id p ≫= medDuration) (baseSeconds p).

(** One iteration of the scoring loop of the standard branch;
    [bestScore = None] is [-Infinity]. *)
Definition scoreStep (data : AppData)
    (acc : option Protocol * option Q * Rand) (p : Protocol)
    : option Protocol * option Q * Rand :=
  let '(bestProtocol, bestScore, r) := acc in
  let beats (s : Q) :=
    match bestScore with None => true | Some b => Qltb b s end in
  let model := models data !! id p in
  let enough :=
    match model with
    | None => false
    | Some m => negb (trials m <? MIN_TRIALS_FOR_THOMPSON)%Z
    end in
  if negb enough then
    let '(u, r1) := random r in
    let randomScore := u + EXPLORATION_BONUS in
    if beats randomScore then (Some p, Some randomScore, r1)
    else (bestProtocol, bestScore, r1)
  else
    let a := orQ (model ≫= alphaParam) 1 in
    let b := orQ (model ≫= betaParam) 1 in
    let '(sampledValue, r1) := sampleBeta a b r in
    let contextBonus := 0 in
    let variance := variance_of a b in
    let uncertaintyBonus := Math_sqrt variance * EXPLORATION_BONUS in
    let finalScore := sampledValue + contextBonus + uncertaintyBonus in
    if beats finalScore then (Some p, Some finalScore, r1)
    else (bestProtocol, bestScore, r1).

(** The exploration recommendation computed at the end of the last two
    branches is only logged; it draws no random number and is left out. *)
Definition selectProtocol (clk : Clock) (g : Goal) (st : Storage) (r : Rand)
    : Outcome :=
  let candidates := getProtocolsByGoal g in
  let data := loadData st in
  let untried := List.filter (isUntried data) candidates in
  if (0 <? length untried)%nat then
    let '(u, r1) := random r in
    mkOutcome ExploringUntried
      ((fun p => (p, baseSeconds p)) <$> pickRandom untried u) st r1
  else
  let undertried := List.filter (isUndertried data) candidates in
  if (0 <? length undertried)%nat then
    let '(u, r1) := random r in
    mkOutcome BuildingData
      ((fun p => (p, baseSeconds p)) <$> pickRandom undertried u) st r1
  else
  let currentHour := hour clk in
  let hourlyUndertried :=
    List.filter (isHourlyUndertried currentHour data) candidates in
  if (0 <? length hourlyUndertried)%nat then
    let '(u, r1) := random r in
    mkOutcome HourlyExploration
      ((fun p => (p, baseSeconds p)) <$> pickRandom hourlyUndertried u) st r1
  else
  let swept := driftSweep (now clk) candidates data st in
  let data := fst swept in
  let st := snd swept in
  let stats := allProtocolStats data candidates in
  if isCloseCompetition stats then
    let protocolsForEnsemble := map (candidateOf data) candidates in
    let totalTrials :=
      fold_left (fun sum p => (sum + c_trials p)%Z) protocolsForEnsemble 0%Z in
    let voted :=
      ensembleVoting protocolsForEnsemble totalTrials ensembleWeights r in
    let selected :=
      fst voted ≫= fun ensembleResult =>
        List.find
          (fun p => String.eqb (id p) (selectedProtocolId ensembleResult))
          candidates in
    mkOutcome EnsembleVotingPhase
      ((fun p => (p, learnedDuration data p)) <$> selected) st (snd voted)
  else
    let scored :=
      fold_left (scoreStep data) candidates (head candidates, None, r) in
    let bestProtocol := fst (fst scored) in
    mkOutcome StandardSelection
      ((fun p => (p, learnedDuration data p)) <$> bestProtocol) st (snd scored).

(** The dose rule exported next to [selectProtocol]. *)
Definition adjustDuration (_protocolId : string) (baseDuration : Z)
    (lastDelta : Z) : Z :=
  if (lastDelta =? 1)%Z then Z.max MIN_DURATION (baseDuration - MED_STEP)
  else if (lastDelta =? -1)%Z then Z.min MAX_DURATION (baseDuration + MED_STEP)
  else baseDuration.

End Engine.

(** * Further functions of the cited modules *)

(** ** drift-detection.ts: the recency analysis *)

(** [l.slice(-a, -b)] *)
Definition slice_between {A} (a b : nat) (l : list A) : list A :=
  let n := length l in
  firstn ((n - b) - (n - a)) (skipn (n - a) l).

Record SessionAnalysis := mkAnalysis {
  hasRecency : bool;
  recentAvg : Q;
  previousAvg : Q;
  significantChange : bool
}.

(** [sessions.reduce((sum, s) => sum + s.delta, 0) / sessions.length] *)
Definition averageDelta (sessions : list SessionRecord) : Q :=
  fold_left (fun sum s => sum + inject_Z (delta s)) sessions 0
  / inject_Z (Z.of_nat (length sessions)).

Definition analyzeSessionHistory (pid : string) (h : list SessionRecord)
    : SessionAnalysis :=
  let protocolSessions :=
    List.filter (fun s => String.eqb (protocolId s) pid) h in
  if (length protocolSessions <? 20)%nat then
    {| hasRecency := false; recentAvg := 0; previousAvg := 0;
       significantChange := false |}
  else
    let recent := slice_last 10 protocolSessions in
    let previous := slice_between 20 10 protocolSessions in
    let recentAvg := averageDelta recent in
    let previousAvg := averageDelta previous in
    {| hasRecency := true; recentAvg := recentAvg; previousAvg := previousAvg;
       significantChange := Qltb (1 # 2) (Qabs (recentAvg - previousAvg)) |}.

(** ** confidence-based-exploration.ts: budget and recommendation *)

Record ExplorationBudget := mkBudget {
  totalBudget : Q;
  spent : Q;
  perProtocolLimit : Q
}.

Record InformationGainMetrics := mkGain {
  expectedValueOfInformation : Q;
  regretBound : Q;
  uncertaintyReduction : Q;
  opportunityCost : Q
}.

(** The reason texts of a decision; the two that print the value carry it. *)
Inductive ExploreReason :=
| BudgetExhausted
| PerProtocolLimitReached
| HighEVOI (evoi : Q)
| HighUncertaintyLowCost
| PossiblyOptimal
| LowValue (evoi : Q)
| NoProtocolsWorthExploring.

Record ExploreDecision := mkDecision {
  d_shouldExplore : bool;
  d_reason : ExploreReason;
  d_cost : Q
}.

Record ExplorationRecommendation := mkRecommendation {
  rec_protocolId : option string;
  rec_protocolName : option string;
  rec_shouldExplore : bool;
  rec_justification : ExploreReason;
  rec_metrics : option InformationGainMetrics
}.

Record ExplorationEpisode := mkEpisode {
  ep_protocolId : string;
  ep_preMean : Q;
  ep_postMean : Q;
  ep_informationGain : Q
}.

Definition updateExplorationBudget (budget : ExplorationBudget) (cost : Q)
    : ExplorationBudget :=
  {| totalBudget := totalBudget budget;
     spent := spent budget + cost;
     perProtocolLimit := perProtocolLimit budget |}.

Definition calculateExplorationEfficiency
    (explorationHistory : list ExplorationEpisode) : Q :=
  if (length explorationHistory =? 0)%nat then 0
  else
    let valuableExplorations :=
      length (List.filter (fun e => Qltb (1 # 10) (ep_informationGain e))
                explorationHistory) in
    inject_Z (Z.of_nat valuableExplorations)
    / inject_Z (Z.of_nat (length explorationHistory)).

(** ** ensemble-methods.ts: metrics *)

Record EnsembleMetrics := mkMetrics {
  diversity : Q;
  averageConfidence : Q;
  mostConfidentAlgorithm : EnsembleAlgorithm
}.

(** [None] where the source reads [sorted[0].algorithm] of an empty list. *)
Definition getEnsembleMetrics (vs : list AlgorithmVote) : option EnsembleMetrics :=
  let uniqueProtocols := length (remove_dups (map v_protocolId vs)) in
  let diversity :=
    inject_Z (Z.of_nat uniqueProtocols) / inject_Z (Z.of_nat (length vs)) in
  let avgConfidence :=
    fold_left (fun sum v => sum + confidence v) vs 0
    / inject_Z (Z.of_nat (length vs)) in
  match sortDesc confidence vs with
  | [] => None
  | mostConfident :: _ =>
      Some {| diversity := diversity; averageConfidence := avgConfidence;
              mostConfidentAlgorithm := algorithm mostConfident |}
  end.

Section Analytics.

Variable Math_sqrt : Q -> Q.
Variable Math_exp : Q -> Q.

Definition initializeExplorationBudget (totalTrials : Z) : ExplorationBudget :=
  let baseBudget := 100 in
  let decayedBudget := baseBudget * Math_exp (- inject_Z totalTrials / 50) in
  {| totalBudget := Qmax 10 decayedBudget;
     spent := 0;
     perProtocolLimit := Qmax 3 (decayedBudget / 5) |}.

Definition calculateInformationGain (protocolAlpha protocolBeta : Q)
    (_protocolTrials : Z) (currentBestMean : Q) : InformationGainMetrics :=
  let mean := betaMean protocolAlpha protocolBeta in
  let variance := betaVariance protocolAlpha protocolBeta in
  let upperBound := snd (betaCredibleInterval Math_sqrt protocolAlpha protocolBeta) in
  let evoi := calculateEVPI Math_sqrt protocolAlpha protocolBeta currentBestMean in
  let regretBound := Qmax 0 (upperBound - currentBestMean) in
  let currentUncertainty := Math_sqrt variance in
  let futureVariance :=
    betaVariance (protocolAlpha + (1 # 2)) (protocolBeta + (1 # 2)) in
  let uncertaintyReduction := currentUncertainty - Math_sqrt futureVariance in
  let opportunityCost := Qmax 0 (currentBestMean - mean) in
  {| expectedValueOfInformation := evoi;
     regretBound := regretBound;
     uncertaintyReduction := uncertaintyReduction;
     opportunityCost := opportunityCost |}.

Definition shouldExploreProtocol (protocolAlpha protocolBeta : Q)
    (protocolTrials : Z) (currentBestMean : Q) (budget : ExplorationBudget)
    : ExploreDecision :=
  let metrics :=
    calculateInformationGain protocolAlpha protocolBeta protocolTrials
      currentBestMean in
  let baseCost := 1 in
  let trialPenalty := Math_sqrt (inject_Z (protocolTrials + 1)) in
  let cost := baseCost * trialPenalty in
  if Qltb (totalBudget budget) (spent budget + cost) then
    mkDecision false BudgetExhausted cost
  else if Qltb (perProtocolLimit budget) (inject_Z protocolTrials) then
    mkDecision false PerProtocolLimitReached cost
  else if Qltb (1 # 2) (expectedValueOfInformation metrics) then
    mkDecision true (HighEVOI (expectedValueOfInformation metrics)) cost
  else if Qltb (1 # 10) (uncertaintyReduction metrics)
          && Qltb (opportunityCost metrics) (2 # 10) then
    mkDecision true HighUncertaintyLowCost cost
  else if Qltb (regretBound metrics) (1 # 10) && (protocolTrials <? 3)%Z then
    mkDecision true PossiblyOptimal cost
  else
    mkDecision false (LowValue (expectedValueOfInformation metrics)) cost.

Record ScoredProtocol := mkScored {
  sp_candidate : Candidate;
  sp_decision : ExploreDecision;
  sp_metrics : InformationGainMetrics;
  sp_explorationScore : Q
}.

Definition getExplorationRecommendation (ps : list Candidate)
    (currentBestMean : Q) (totalTrialsSoFar : Z) : ExplorationRecommendation :=
  let budget := initializeExplorationBudget totalTrialsSoFar in
  let scoredProtocols :=
    List.filter (fun sp => d_shouldExplore (sp_decision sp))
      (map (fun p =>
              let decision :=
                shouldExploreProtocol (c_alpha p) (c_beta p) (c_trials p)
                  currentBestMean budget in
              let metrics :=
                calculateInformationGain (c_alpha p) (c_beta p) (c_trials p)
                  currentBestMean in
              mkScored p decision metrics
                (if d_shouldExplore decision
                 then expectedValueOfInformation metrics else - (1)))
         ps) in
  match sortDesc sp_explorationScore scoredProtocols with
  | [] =>
      {| rec_protocolId := None; rec_protocolName := None;
         rec_shouldExplore := false;
         rec_justification := NoProtocolsWorthExploring;
         rec_metrics := None |}
  | best :: _ =>
      {| rec_protocolId := Some (c_id (sp_candidate best));
         rec_protocolName := Some (c_name (sp_candidate best));
         rec_shouldExplore := true;
         rec_justification := d_reason (sp_decision best);
         rec_metrics := Some (sp_metrics best) |}
  end.

(** ** ensemble-methods.ts: adapting the weights *)

(** [recentPerformance[alg] || []], then the mean, 0.5 when empty. *)
Definition recentAverage (recentPerformance : EnsembleAlgorithm -> option (list Q))
    (alg : EnsembleAlgorithm) : Q :=
  let perf := match recentPerformance alg with Some l => l | None => [] end in
  if (length perf =? 0)%nat then 1 # 2
  else Qsum perf / inject_Z (Z.of_nat (length perf)).

Definition adaptEnsembleWeights (currentWeights : EnsembleWeights)
    (recentPerformance : EnsembleAlgorithm -> option (list Q)) : EnsembleWeights :=
  let temperature := 1 # 2 in
  let e0 := Math_exp (recentAverage recentPerformance thompson / temperature) in
  let e1 := Math_exp (recentAverage recentPerformance ucb / temperature) in
  let e2 := Math_exp (recentAverage recentPerformance epsilonGreedy / temperature) in
  let e3 := Math_exp (recentAverage recentPerformance softmax / temperature) in
  let sumExp := Qsum [e0; e1; e2; e3] in
  let newWeights :=
    {| w_thompson := e0 / sumExp; w_ucb := e1 / sumExp;
       w_epsilonGreedy := e2 / sumExp; w_softmax := e3 / sumExp |} in
  {| w_thompson :=
       w_thompson currentWeights * (8 # 10) + w_thompson newWeights * (2 # 10);
     w_ucb := w_ucb currentWeights * (8 # 10) + w_ucb newWeights * (2 # 10);
     w_epsilonGreedy :=
       w_epsilonGreedy currentWeights * (8 # 10)
       + w_epsilonGreedy newWeights * (2 # 10);
     w_softmax :=
       w_softmax currentWeights * (8 # 10) + w_softmax newWeights * (2 # 10) |}.

End Analytics.

(** ** transfer-learning.ts *)

Record ProtocolFeature := mkFeature {
  f_id : string;
  durationSeconds : Q;
  breathingRate : Q;
  complexity : Q;
  physicalDemand : Q;
  cognitiveLoad : Q;
  goalAffinities : Goal -> Q;
  embedding : list Q
}.

Record MetaParameters := mkMeta {
  learningRate : Q;
  similarityThreshold : Q;
  transferStrength : Q
}.

Record PerformanceRecord := mkPerformance {
  pr_protocolId : string;
  pr_goal : Goal;
  pr_initialPrior : BetaParams;
  pr_finalPerformance : Q;
  pr_trialsToConvergence : Z
}.

(** A row of the similarity matrix lists its entries in insertion order, as
    [Object.entries] does. *)
Record TransferKnowledge := mkKnowledge {
  protocolFeatures : gmap string ProtocolFeature;
  similarityMatrix : gmap string (list (string * Q));
  metaParameters : MetaParameters;
  performanceHistory : list PerformanceRecord
}.

Definition initializeTransferLearning : TransferKnowledge :=
  {| protocolFeatures := ∅;
     similarityMatrix := ∅;
     metaParameters :=
       {| learningRate := 1 # 10; similarityThreshold := 6 # 10;
          transferStrength := 4 # 10 |};
     performanceHistory := [] |}.

Definition optimisticPrior : BetaParams := {| alpha := 15 # 10; beta := 1 |}.

(** The neighbours a prior is transferred from: the three most similar
    other protocols above the threshold that have a posterior. *)
Definition similarProtocolsOf (knowledge : TransferKnowledge) (pid : string)
    (protocolModels : gmap string BetaParams) (similarities : list (string * Q))
    : list (string * Q) :=
  firstn 3
    (sortDesc snd
       (List.filter
          (fun e =>
             negb (String.eqb (fst e) pid)
             && Qle_bool (similarityThreshold (metaParameters knowledge)) (snd e)
             && match protocolModels !! fst e with
                | Some _ => true
                | None => false
                end)
          similarities)).

(** The accumulation of [totalWeight], [weightedAlpha] and [weightedBeta];
    the filter guarantees that every neighbour has a model. *)
Definition transferStep (knowledge : TransferKnowledge)
    (protocolModels : gmap string BetaParams) (acc : Q * Q * Q)
    (e : string * Q) : Q * Q * Q :=
  let '(totalWeight, weightedAlpha, weightedBeta) := acc in
  match protocolModels !! fst e with
  | Some model =>
      let weight := snd e * transferStrength (metaParameters knowledge) in
      (totalWeight + weight,
       weightedAlpha + alpha model * weight,
       weightedBeta + beta model * weight)
  | None => acc
  end.

Definition getTransferPrior (knowledge : TransferKnowledge) (pid : string)
    (_goal : Goal) (protocolModels : gmap string BetaParams) : BetaParams :=
  match similarityMatrix knowledge !! pid with
  | None => optimisticPrior
  | Some similarities =>
      let similarProtocols :=
        similarProtocolsOf knowledge pid protocolModels similarities in
      if (length similarProtocols =? 0)%nat then optimisticPrior
      else
        let '(totalWeight, weightedAlpha, weightedBeta) :=
          fold_left (transferStep knowledge protocolModels) similarProtocols
            (0, 0, 0) in
        if Qeq_bool totalWeight 0 then optimisticPrior
        else
          let transferAlpha := weightedAlpha / totalWeight in
          let transferBeta := weightedBeta / totalWeight in
          let blendFactor := 6 # 10 in
          {| alpha := blendFactor * transferAlpha + (1 - blendFactor) * (15 # 10);
             beta := blendFactor * transferBeta + (1 - blendFactor) * 1 |}
  end.

Definition recordPerformance (knowledge : TransferKnowledge) (pid : string)
    (g : Goal) (initialPrior : BetaParams) (finalAlpha finalBeta : Q)
    (totalTrials : Z) : TransferKnowledge :=
  let finalPerformance := betaMean finalAlpha finalBeta in
  let pushed :=
    performanceHistory knowledge
    ++ [mkPerformance pid g initialPrior finalPerformance totalTrials] in
  {| protocolFeatures := protocolFeatures knowledge;
     similarityMatrix := similarityMatrix knowledge;
     metaParameters := metaParameters knowledge;
     performanceHistory :=
       if (100 <? length pushed)%nat then tail pushed else pushed |}.

(** ** bayesian-hierarchical.ts *)

Record HyperPrior := mkHyper {
  mu : Q;
  kappa : Q;
  alpha0 : Q;
  beta0 : Q;
  effectiveSampleSize : Q
}.

Record ProtocolPosterior := mkPosterior {
  pp_alpha : Q;
  pp_beta : Q;
  pp_trials : Q;
  shrinkageFactor : Q;
  effectivePrior : BetaParams
}.

(** [observations.reduce((sum, val) => sum + (val - mu) ** 2, 0)] *)
Definition squaredDeviations (observations : list Q) (center : Q) : Q :=
  fold_left (fun sum val => sum + (val - center) * (val - center))
    observations 0.

(** Observations without spread have variance 0, and the source divides
    by it.  Where [mu * (1 - mu)] is negative the quotient is [-Infinity]
    and [Math.max] returns the floor 2.  Otherwise the quotient is
    [Infinity] or [NaN] and so is kappa: the result is [None].  ([None]
    also stands for equal observations whose binary64 mean is off by a
    rounding residue; the source then divides by that residue, which
    this embedding does not follow.) *)
Definition initializeHyperPrior (observations : list Q) : option HyperPrior :=
  if (length observations =? 0)%nat then
    Some {| mu := 1 # 2; kappa := 2; alpha0 := 15 # 10; beta0 := 15 # 10;
            effectiveSampleSize := 3 |}
  else
    let n := inject_Z (Z.of_nat (length observations)) in
    let mu := Qsum observations / n in
    let variance := squaredDeviations observations mu / n in
    if Qeq_bool variance 0 then
      if Qltb (mu * (1 - mu)) 0 then
        Some {| mu := mu; kappa := 2; alpha0 := mu * 2;
                beta0 := (1 - mu) * 2; effectiveSampleSize := n |}
      else None
    else
      let kappa := Qmax 2 (mu * (1 - mu) / variance - 1) in
      Some {| mu := mu; kappa := kappa; alpha0 := mu * kappa;
              beta0 := (1 - mu) * kappa; effectiveSampleSize := n |}.

Definition calculateShrinkage (protocolTrials parentEffectiveSampleSize
    pooledVariance : Q) : Q :=
  let trialWeight :=
    protocolTrials / (protocolTrials + parentEffectiveSampleSize) in
  let variancePenalty := Qmin 1 (pooledVariance * 2) in
  (1 - trialWeight) * (1 + variancePenalty).

Definition getHierarchicalPrior (protocolAlpha protocolBeta protocolTrials : Q)
    (parentHyperPrior : HyperPrior) (pooledVariance : Q) : ProtocolPosterior :=
  let shrinkage :=
    calculateShrinkage protocolTrials (effectiveSampleSize parentHyperPrior)
      pooledVariance in
  let effectiveAlpha :=
    shrinkage * alpha0 parentHyperPrior + (1 - shrinkage) * protocolAlpha in
  let effectiveBeta :=
    shrinkage * beta0 parentHyperPrior + (1 - shrinkage) * protocolBeta in
  {| pp_alpha := protocolAlpha; pp_beta := protocolBeta;
     pp_trials := protocolTrials; shrinkageFactor := shrinkage;
     effectivePrior := {| alpha := effectiveAlpha; beta := effectiveBeta |} |}.

(** ** multi-goal-optimization.ts *)

Record GoalPrior := mkGoalPrior {
  gp_alpha : Q;
  gp_beta : Q;
  gp_protocolCount : Z
}.

Record PairModel := mkPair {
  pg_alpha : Q;
  pg_beta : Q;
  pg_trials : Z
}.

Record HierarchicalModel := mkHierarchical {
  globalPrior : BetaParams;
  goalPriors : Goal -> GoalPrior;
  protocolGoalModels : gmap string PairModel
}.

Definition goalName (g : Goal) : string :=
  match g with
  | calm => "calm"
  | focus => "focus"
  | pre_sleep => "pre-sleep"
  end.

(** The key [`${protocolId}:${goal}`]. *)
Definition pairKey (pid : string) (g : Goal) : string :=
  pid +:+ ":" +:+ goalName g.

Definition initializeHierarchicalModel : HierarchicalModel :=
  {| globalPrior := {| alpha := 15 # 10; beta := 1 |};
     goalPriors := fun _ => mkGoalPrior (15 # 10) 1 0;
     protocolGoalModels := ∅ |}.

Definition getEffectivePrior (hierarchicalModel : HierarchicalModel)
    (pid : string) (g : Goal) : BetaParams :=
  let goalPrior := goalPriors hierarchicalModel g in
  let fallback :=
    if (0 <? gp_protocolCount goalPrior)%Z
    then {| alpha := gp_alpha goalPrior; beta := gp_beta goalPrior |}
    else globalPrior hierarchicalModel in
  match protocolGoalModels hierarchicalModel !! pairKey pid g with
  | Some protocolGoalModel =>
      if (3 <=? pg_trials protocolGoalModel)%Z then
        let shrinkage :=
          Qmin (3 # 10) (5 / inject_Z (pg_trials protocolGoalModel)) in
        {| alpha := pg_alpha protocolGoalModel * (1 - shrinkage)
                    + gp_alpha goalPrior * shrinkage;
           beta := pg_beta protocolGoalModel * (1 - shrinkage)
                   + gp_beta goalPrior * shrinkage |}
      else fallback
  | None => fallback
  end.

Definition updateHierarchicalModel (hierarchicalModel : HierarchicalModel)
    (pid : string) (g : Goal) (reward : Q) : HierarchicalModel :=
  let key := pairKey pid g in
  let pgModel :=
    match protocolGoalModels hierarchicalModel !! key with
    | Some m => m
    | None =>
        let prior := getEffectivePrior hierarchicalModel pid g in
        mkPair (alpha prior) (beta prior) 0
    end in
  let updated := updateBetaParams (pg_alpha pgModel) (pg_beta pgModel) reward in
  let goalPrior := goalPriors hierarchicalModel g in
  let goalUpdated :=
    updateBetaParams (gp_alpha goalPrior) (gp_beta goalPrior) reward in
  let goalPrior' :=
    mkGoalPrior
      (gp_alpha goalPrior * (95 # 100) + alpha goalUpdated * (5 # 100))
      (gp_beta goalPrior * (95 # 100) + beta goalUpdated * (5 # 100))
      (gp_protocolCount goalPrior + 1) in
  let globalUpdated :=
    updateBetaParams (alpha (globalPrior hierarchicalModel))
      (beta (globalPrior hierarchicalModel)) reward in
  {| globalPrior :=
       {| alpha := alpha (globalPrior hierarchicalModel) * (98 # 100)
                   + alpha globalUpdated * (2 # 100);
          beta := beta (globalPrior hierarchicalModel) * (98 # 100)
                  + beta globalUpdated * (2 # 100) |};
     goalPriors :=
       fun g' => if Goal_eqb g' g then goalPrior' else goalPriors hierarchicalModel g';
     protocolGoalModels :=
       <[key := mkPair (alpha updated) (beta updated) (pg_trials pgModel + 1)]>
         (protocolGoalModels hierarchicalModel) |}.

(** [similarProtocols.forEach(...)]: the estimates of the similar
    protocols that have at least two trials for the goal, in the order of
    the list. *)
Definition similarEstimates (hierarchicalModel : HierarchicalModel)
    (g : Goal) (similarProtocols : list string) : list BetaParams :=
  omap (fun similarId =>
          match protocolGoalModels hierarchicalModel !! pairKey similarId g with
          | Some model =>
              if (2 <=? pg_trials model)%Z
              then Some {| alpha := pg_alpha model; beta := pg_beta model |}
              else None
          | None => None
          end) similarProtocols.

Definition transferLearningPrior (hierarchicalModel : HierarchicalModel)
    (newProtocolId : string) (g : Goal) (similarProtocols : list string)
    : BetaParams :=
  let estimates := similarEstimates hierarchicalModel g similarProtocols in
  if (0 <? length estimates)%nat then
    let n := inject_Z (Z.of_nat (length estimates)) in
    let pooledAlpha := Qsum (map alpha estimates) / n in
    let pooledBeta := Qsum (map beta estimates) / n in
    let goalPrior := goalPriors hierarchicalModel g in
    {| alpha := pooledAlpha * (7 # 10) + gp_alpha goalPrior * (3 # 10);
       beta := pooledBeta * (7 # 10) + gp_beta goalPrior * (3 # 10) |}
  else getEffectivePrior hierarchicalModel newProtocolId g.

Inductive Confidence := LowConfidence | MediumConfidence | HighConfidence.

Record Prediction := mkPrediction {
  expectedPerformance : Q;
  uncertainty : Q;
  predictionConfidence : Confidence
}.

Section Prediction.

Variable Math_sqrt : Q -> Q.

Definition predictPerformance (hierarchicalModel : HierarchicalModel)
    (pid : string) (g : Goal) : Prediction :=
  let model := protocolGoalModels hierarchicalModel !! pairKey pid g in
  let fromPrior :=
    let prior := getEffectivePrior hierarchicalModel pid g in
    let mean := betaMean (alpha prior) (beta prior) in
    let variance :=
      (alpha prior * beta prior)
      / ((alpha prior + beta prior) * (alpha prior + beta prior)
         * (alpha prior + beta prior + 1)) in
    {| expectedPerformance := mean;
       uncertainty := Math_sqrt variance;
       predictionConfidence :=
         match model with
         | Some m =>
             if (2 <=? pg_trials m)%Z then MediumConfidence else LowConfidence
         | None => LowConfidence
         end |} in
  match model with
  | Some m =>
      if (5 <=? pg_trials m)%Z then
        let mean := betaMean (pg_alpha m) (pg_beta m) in
        let variance :=
          (pg_alpha m * pg_beta m)
          / ((pg_alpha m + pg_beta m) * (pg_alpha m + pg_beta m)
             * (pg_alpha m + pg_beta m + 1)) in
        {| expectedPerformance := mean;
           uncertainty := Math_sqrt variance;
           predictionConfidence := HighConfidence |}
      else fromPrior
  | None => fromPrior
  end.

End Prediction.

(** [updateHyperPrior] of bayesian-hierarchical.ts.  [None] where the
    source divides by 0 and leaves rational arithmetic: a concentration of
    -1 in the prior, a total sample size of 0, or a blended variance of 0. *)
Definition updateHyperPrior (prior : HyperPrior) (newObservations : list Q)
    : option HyperPrior :=
  if (length newObservations =? 0)%nat then Some prior
  else
    let allObservations := inject_Z (Z.of_nat (length newObservations)) in
    let totalSamples := effectiveSampleSize prior + allObservations in
    let newMean := Qsum newObservations / allObservations in
    let mu' :=
      (mu prior * effectiveSampleSize prior + newMean * allObservations)
      / totalSamples in
    let newVariance :=
      squaredDeviations newObservations newMean / allObservations in
    let oldVariance := mu prior * (1 - mu prior) / (kappa prior + 1) in
    let variance :=
      (oldVariance * effectiveSampleSize prior + newVariance * allObservations)
      / totalSamples in
    if Qeq_bool (kappa prior + 1) 0 || Qeq_bool totalSamples 0
       || Qeq_bool variance 0
    then None
    else
      let kappa' := Qmax 2 (mu' * (1 - mu') / variance - 1) in
      Some {| mu := mu'; kappa := kappa'; alpha0 := mu' * kappa';
              beta0 := (1 - mu') * kappa'; effectiveSampleSize := totalSamples |}.

(** * Auxiliary definitions of the statements *)

(** A rational approximation of the square root from below, precise to
    three decimals, used where an example needs a concrete [Math.sqrt]. *)
Definition approxSqrt (q : Q) : Q :=
  Z.sqrt (Qnum q * Z.pos (Qden q) * 1000000) # (Qden q * 1000).

(** The reset condition in the words of the specification: variance at
    least 0.30, and no earlier reset or more than 3,600,000 ms since it. *)
Definition shouldReset_spec (nowMs : Z) (variance : Q) (last : option Z) : Prop :=
  3 # 10 <= variance /\
  match last with
  | None => True
  | Some t => (nowMs - t > 3600000)%Z
  end.

(** The dose stored for a protocol. *)
Definition storedDose (pid : string) (st : Storage) : option Z :=
  models (loadData st) !! pid ≫= medDuration.

(** The sessions of a protocol in the history, oldest first. *)
Definition sessionsOf (pid : string) (h : list SessionRecord)
    : list SessionRecord :=
  List.filter (fun s => String.eqb (protocolId s) pid) h.

(** A session of protocol [p] run for [duration] seconds and rated
    "better". *)
Definition rateBetter (clk : Clock) (g : Goal) (p : Protocol) (duration : Z)
    (st : Storage) : Storage :=
  saveRating clk (mkSessionState (Some g) (Some p) duration) 1 st.

Definition box_breathing : Protocol :=
  mkProtocol "box-breathing" "Box Breathing 4-4-4-4" [calm; focus; pre_sleep] 120.

Definition morning : Clock := mkClock 1700000000000 9.

(** Stored shape parameters are at least 1. *)
Definition posterior_ok (m : ProtocolModel) : Prop :=
  (forall a, alphaParam m = Some a -> 1 <= a)
  /\ (forall b, betaParam m = Some b -> 1 <= b).

Definition storage_ok (st : Storage) : Prop :=
  forall k m, models (loadData st) !! k = Some m -> posterior_ok m.

(** The branches that lie behind the drift sweep. *)
Definition sweepReached (ph : Phase) : bool :=
  match ph with
  | EnsembleVotingPhase | StandardSelection => true
  | _ => false
  end.

Definition isCandidate (cs : list Protocol) (k : string) : bool :=
  existsb (fun p => String.eqb (id p) k) cs.

(** Concrete stand-ins for [Math.exp], [Math.log] and the Beta sampler,
    so that examples can be run: a second-order expansion of the
    exponential, a first-order expansion of the logarithm, and a sampler
    that hands out the next uniform draw. *)
Definition exampleExp (x : Q) : Q := 1 + x + x * x / 2.
Definition exampleLog (x : Q) : Q := 2 * (x - 1) / (x + 1).
Definition exampleSampler (_ _ : Q) (r : Rand) : Q * Rand := random r.

(** A random source that always returns 1/2. *)
Definition halves : Rand := mkRand (fun _ => 1 # 2) 0.

(** A model with the given counts, seen to be harmful or not through its
    moving average, with every optional field filled in. *)
Definition exampleModel (n : Z) (a b ema variance : Q) (lastReset : option Z)
    (hms : gmap Z HourlyModel) : ProtocolModel :=
  {| trials := n; avg := ema; lastUsedISO := None; lastDelta := None;
     medDuration := Some 100%Z; hourlyPerformance := None;
     emaAvg := Some ema; alphaParam := Some a; betaParam := Some b;
     hourlyModels := Some hms; recentVariance := Some variance;
     lastResetTimestamp := lastReset; windowScores := Some [] |}.

(** The hourly sub-model of a protocol used 25 times at 9 o'clock. *)
Definition usedAtNine : gmap Z HourlyModel :=
  {[ 9%Z := mkHourly 25 20 6 (3 # 4) ]}.

(** Two close leaders with 25 trials each and a weak third, all used at
    9 o'clock before. *)
Definition closeRace : AppData :=
  {| models :=
       <["box-breathing" := exampleModel 25 20 6 (1 # 2) 0 None usedAtNine]>
       (<["eye-break" := exampleModel 25 (39 # 2) (13 # 2) (1 # 2) 0 None usedAtNine]>
       (<["alternate-nostril" := exampleModel 10 3 8 (1 # 2) 0 None usedAtNine]> ∅));
     history := []; streak := 0 |}.

(** The same posteriors, but no protocol was used at 9 o'clock yet. *)
Definition closeRaceNewHour : AppData :=
  {| models :=
       <["box-breathing" := exampleModel 25 20 6 (1 # 2) 0 None ∅]>
       (<["eye-break" := exampleModel 25 (39 # 2) (13 # 2) (1 # 2) 0 None ∅]>
       (<["alternate-nostril" := exampleModel 10 3 8 (1 # 2) 0 None ∅]> ∅));
     history := []; streak := 0 |}.



(** The close race again, but the leader's recent ratings scatter and its
    last reset lies long back. *)
Definition driftingRace : AppData :=
  {| models :=
       <["box-breathing" :=
           exampleModel 25 20 6 (1 # 2) (1 # 2) (Some 1%Z) usedAtNine]>
       (<["eye-break" := exampleModel 25 (39 # 2) (13 # 2) (1 # 2) 0 None usedAtNine]>
       (<["alternate-nostril" := exampleModel 10 3 8 (1 # 2) 0 None usedAtNine]> ∅));
     history := []; streak := 0 |}.

(** The entry of an object used as a counter table, 0 when absent. *)
Fixpoint voteCount (voteCounts : list (string * Q)) (k : string) : Q :=
  match voteCounts with
  | [] => 0
  | (k', v) :: rest => if String.eqb k' k then v else voteCount rest k
  end.

(** The summed weighted confidence of the votes cast for protocol [k]. *)
Fixpoint weightedTotal (w : EnsembleWeights) (vs : list AlgorithmVote)
    (k : string) : Q :=
  match vs with
  | [] => 0
  | v :: rest =>
      (if String.eqb (v_protocolId v) k
       then weightOf w (algorithm v) * confidence v else 0)
      + weightedTotal w rest k
  end.

(** Every draw of the source lies in [0, 1), as [Math.random] promises. *)
Definition in_unit (r : Rand) : Prop :=
  forall n, 0 <= draws r n /\ draws r n < 1.

(** * Properties *)

(** ** Comparisons and defaults *)

Lemma Qltb_lt a b : Qltb a b = true <-> a < b.
Proof.
  unfold Qltb. rewrite negb_true_iff.
  destruct (Qle_bool b a) eqn:E.
  - apply Qle_bool_iff in E. split; [discriminate | intros H; exfalso; lra].
  - split; [intros _ | reflexivity].
    destruct (Qlt_le_dec a b) as [H | H]; [exact H |].
    apply Qle_bool_iff in H. congruence.
Qed.

Lemma Qltb_ge a b : Qltb a b = false <-> b <= a.
Proof.
  unfold Qltb. rewrite negb_false_iff. apply Qle_bool_iff.
Qed.

Lemma orQ_zero v : orQ (Some v) 0 == v.
Proof.
  simpl. destruct (Qeq_bool v 0) eqn:E; [| reflexivity].
  apply Qeq_bool_eq in E. symmetry. exact E.
Qed.

Lemma orQ_ge o d c : c <= d -> (forall x, o = Some x -> c <= x) -> c <= orQ o d.
Proof.
  intros Hd Ho. destruct o as [x |]; simpl; [| exact Hd].
  destruct (Qeq_bool x 0); [exact Hd | apply Ho; reflexivity].
Qed.

Lemma approxSqrt_nonneg q : 0 <= approxSqrt q.
Proof.
  unfold approxSqrt, Qle. simpl. rewrite Z.mul_1_r. apply Z.sqrt_nonneg.
Qed.

(** ** The stable descending sort *)

Section Sorting.
Context {A : Type} (key : A -> Q).

Lemma insertDesc_perm x l : Permutation (x :: l) (insertDesc key x l).
Proof.
  induction l as [| y l IH]; simpl; [reflexivity |].
  destruct (Qltb (key x) (key y)); [| reflexivity].
  rewrite perm_swap. now apply perm_skip.
Qed.

Lemma sortDesc_perm l : Permutation l (sortDesc key l).
Proof.
  induction l as [| x l IH]; simpl; [reflexivity |].
  rewrite <- insertDesc_perm. now apply perm_skip.
Qed.

Lemma insertDesc_sorted x l : descending key l -> descending key (insertDesc key x l).
Proof.
  unfold descending. induction 1 as [| y l Hs IH Hall]; simpl.
  - repeat constructor.
  - destruct (Qltb (key x) (key y)) eqn:E.
    + constructor; [exact IH |].
      apply Qltb_lt in E.
      rewrite List.Forall_forall. intros z Hz.
      apply (Permutation_in _ (Permutation_sym (insertDesc_perm x l))) in Hz.
      destruct Hz as [<- | Hz]; [lra |].
      rewrite List.Forall_forall in Hall. now apply Hall.
    + apply Qltb_ge in E. constructor; [now constructor |].
      constructor; [exact E |].
      rewrite List.Forall_forall in Hall |- *. intros z Hz.
      specialize (Hall z Hz). lra.
Qed.

Lemma sortDesc_sorted l : descending key (sortDesc key l).
Proof.
  induction l as [| x l IH]; simpl; [constructor |].
  now apply insertDesc_sorted.
Qed.

Lemma sortDesc_head_max l x rest :
  sortDesc key l = x :: rest -> forall y, In y l -> key y <= key x.
Proof.
  intros E y Hy.
  apply (Permutation_in _ (sortDesc_perm l)) in Hy. rewrite E in Hy.
  pose proof (sortDesc_sorted l) as Hs. rewrite E in Hs.
  inversion Hs as [| ? ? _ Hall]; subst.
  destruct Hy as [<- | Hy]; [lra |].
  rewrite List.Forall_forall in Hall. now apply Hall.
Qed.

Lemma sortDesc_head_in l x rest : sortDesc key l = x :: rest -> In x l.
Proof.
  intros E. apply (Permutation_in _ (Permutation_sym (sortDesc_perm l))).
  rewrite E. now left.
Qed.

Lemma sortDesc_nil l : sortDesc key l = [] -> l = [].
Proof.
  intros E. apply Permutation_nil. rewrite <- E. symmetry. apply sortDesc_perm.
Qed.

End Sorting.

(** ** Posterior update *)

Lemma deltaToReward_range d : 0 <= deltaToReward d <= 1.
Proof.
  unfold deltaToReward.
  destruct (d =? 1)%Z; [lra |]. destruct (d =? 0)%Z; lra.
Qed.

(** C7: [updateBetaParams] returns (alpha + reward, beta + (1 - reward));
    [deltaToReward] maps -1 to 0, 0 to 0.5 and 1 to 1; so a reward of 1
    strictly increases alpha and leaves beta unchanged, a reward of 0
    strictly increases beta and leaves alpha unchanged, and a reward of 0.5
    increases both by exactly 0.5.  It holds for all arguments, in
    particular for alpha, beta > 0 and a reward in [0,1]. *)
Theorem updateBetaParams_conjugate (a b reward : Q) :
  updateBetaParams a b reward = mkBeta (a + reward) (b + (1 - reward))
  /\ (deltaToReward (-1) = 0 /\ deltaToReward 0 = 1 # 2 /\ deltaToReward 1 = 1)
  /\ (a < alpha (updateBetaParams a b 1) /\ beta (updateBetaParams a b 1) == b)
  /\ (b < beta (updateBetaParams a b 0) /\ alpha (updateBetaParams a b 0) == a)
  /\ (alpha (updateBetaParams a b (1 # 2)) == a + (1 # 2)
      /\ beta (updateBetaParams a b (1 # 2)) == b + (1 # 2)).
Proof.
  unfold updateBetaParams; simpl.
  repeat split; try reflexivity; lra.
Qed.

(** ** The drift gate *)

(** C5, as stated, fails when exactly 3,600,000 ms have passed: the gate
    opens although not more than the cooldown has elapsed. *)
Lemma shouldReset_at_cooldown_boundary :
  shouldResetDueToDrift 3600001 (3 # 10) (Some 1%Z) = true
  /\ ~ shouldReset_spec 3600001 (3 # 10) (Some 1%Z).
Proof.
  split; [reflexivity |]. unfold shouldReset_spec. intros [_ H]. lia.
Qed.

(** C5, amended: the gate returns true exactly when the variance is at
    least 0.30 and the last reset is absent, is the falsy timestamp 0, or
    lies at least 3,600,000 ms back; below 0.30 it returns false whatever
    the timestamp. *)
Theorem shouldResetDueToDrift_iff (nowMs : Z) (variance : Q) (last : option Z) :
  (shouldResetDueToDrift nowMs variance last = true <->
   3 # 10 <= variance /\
   (last = None \/ last = Some 0%Z \/
    exists t, last = Some t /\ (3600000 <= nowMs - t)%Z))
  /\ (variance < 3 # 10 -> shouldResetDueToDrift nowMs variance last = false).
Proof.
  unfold shouldResetDueToDrift, DRIFT_VARIANCE_THRESHOLD, DRIFT_COOLDOWN_MS.
  destruct (Qltb variance (3 # 10)) eqn:Ev.
  - apply Qltb_lt in Ev. split; [| reflexivity].
    split; [discriminate | intros [H _]; lra].
  - apply Qltb_ge in Ev. split; [| intros H; lra].
    destruct last as [t |].
    + destruct (Z.eqb_spec t 0) as [-> | Hne].
      * split; [intros _; split; [exact Ev | right; left; reflexivity] | reflexivity].
      * destruct (Z.ltb_spec (nowMs - t) 3600000) as [Hlt | Hge].
        -- split; [discriminate |].
           intros [_ [H | [H | [t' [H Ht']]]]]; try discriminate;
             injection H as H; subst; [congruence | lia].
        -- split; [| reflexivity]. intros _. split; [exact Ev |].
           right; right. exists t. split; [reflexivity | lia].
    + split; [intros _; split; [exact Ev | left; reflexivity] | reflexivity].
Qed.

Lemma shouldResetDueToDrift_iff_witness :
  shouldResetDueToDrift 5 (1 # 10) None = false.
Proof.
  apply (proj2 (shouldResetDueToDrift_iff 5 (1 # 10) None)). reflexivity.
Defined.

(** ** The soft reset *)

Lemma softReset_kept_bounds (a b : Q) :
  1 <= a -> 1 <= b ->
  let kept := inject_Z (Qfloor ((a + b - 2) * (1 # 4))) in
  0 <= kept /\ kept <= (a + b - 2) * (1 # 4).
Proof.
  intros Ha Hb kept. split.
  - unfold kept. change 0 with (inject_Z 0). rewrite <- Zle_Qle.
    change 0%Z with (Qfloor 0). apply Qfloor_resp_le. lra.
  - apply Qfloor_le.
Qed.

Lemma softReset_mean_identity (m k : Q) :
  0 <= k ->
  betaMean (1 + m * k) (1 + (1 - m) * k) - (1 # 2)
  == (m - (1 # 2)) * (k / (k + 2)).
Proof.
  intros Hk. unfold betaMean. field. lra.
Qed.

(** C6, as stated, fails twice: at alpha = beta = 1 the sum of the
    parameters does not shrink, and at alpha = 9, beta = 1 the mean moves
    from 0.9 to 0.7. *)
Lemma softReset_neither_strict_nor_mean_preserving :
  ~ (alpha (softResetBetaParams 1 1) + beta (softResetBetaParams 1 1) < 1 + 1)
  /\ betaMean 9 1 == 9 # 10
  /\ betaMean (alpha (softResetBetaParams 9 1)) (beta (softResetBetaParams 9 1))
     == 7 # 10.
Proof.
  split; [| split]; vm_compute; congruence.
Qed.

(** C6, amended: for alpha, beta >= 1 the soft reset returns
    alpha' = 1 + mean * kept and beta' = 1 + (1 - mean) * kept with
    mean = alpha / (alpha + beta) and kept = floor((alpha + beta - 2) * 0.25);
    alpha' + beta' = 2 + kept never exceeds alpha + beta and is strictly
    smaller as soon as alpha + beta > 2; the mean is pulled toward 1/2 by
    the factor kept / (kept + 2), so it is never farther from 1/2 than
    before. *)
Theorem softResetBetaParams_shrinks (a b : Q) :
  1 <= a -> 1 <= b ->
  let mean := a / (a + b) in
  let kept := inject_Z (Qfloor ((a + b - 2) * (1 # 4))) in
  let r := softResetBetaParams a b in
  (alpha r = 1 + mean * kept /\ beta r = 1 + (1 - mean) * kept)
  /\ alpha r + beta r == 2 + kept
  /\ alpha r + beta r <= a + b
  /\ (2 < a + b -> alpha r + beta r < a + b)
  /\ betaMean (alpha r) (beta r) - (1 # 2)
     == (mean - (1 # 2)) * (kept / (kept + 2))
  /\ Qabs (betaMean (alpha r) (beta r) - (1 # 2)) <= Qabs (mean - (1 # 2)).
Proof.
  intros Ha Hb mean kept r.
  destruct (softReset_kept_bounds a b Ha Hb) as [Hk0 Hk1].
  fold kept in Hk0, Hk1.
  assert (Er : r = mkBeta (1 + mean * kept) (1 + (1 - mean) * kept))
    by reflexivity.
  rewrite Er. cbn [alpha beta].
  assert (Hsum : 1 + mean * kept + (1 + (1 - mean) * kept) == 2 + kept) by ring.
  pose proof (softReset_mean_identity mean kept Hk0) as Hid.
  split; [split; reflexivity |].
  split; [exact Hsum |].
  split; [rewrite Hsum; lra |].
  split; [intros H; rewrite Hsum; lra |].
  split; [exact Hid |].
  rewrite Hid, Qabs_Qmult.
  assert (Hf : 0 <= kept / (kept + 2) <= 1).
  { split.
    - apply Qle_shift_div_l; lra.
    - apply Qle_shift_div_r; lra. }
  rewrite (Qabs_pos (kept / (kept + 2))) by apply Hf.
  pose proof (Qabs_nonneg (mean - (1 # 2))) as Hn.
  nra.
Qed.

Lemma softResetBetaParams_shrinks_witness :
  alpha (softResetBetaParams 9 1) + beta (softResetBetaParams 9 1) < 9 + 1.
Proof.
  apply (softResetBetaParams_shrinks 9 1); reflexivity || discriminate.
Defined.

(** ** Expected value of perfect information *)

Section EVPI.
Variable Math_sqrt : Q -> Q.
Hypothesis Math_sqrt_nonneg : forall x, 0 <= Math_sqrt x.

Lemma betaMean_unit (a b : Q) : 0 < a -> 0 < b -> 0 < betaMean a b < 1.
Proof.
  intros Ha Hb. unfold betaMean. split.
  - apply Qlt_shift_div_l; lra.
  - apply Qlt_shift_div_r; lra.
Qed.

Lemma betaCredibleInterval_ordered (a b : Q) :
  0 < a -> 0 < b ->
  fst (betaCredibleInterval Math_sqrt a b)
  <= snd (betaCredibleInterval Math_sqrt a b).
Proof.
  intros Ha Hb. unfold betaCredibleInterval. cbn [fst snd].
  pose proof (betaMean_unit a b Ha Hb) as Hm.
  pose proof (Math_sqrt_nonneg (betaVariance a b)) as Hs.
  apply Q.max_lub; apply Q.min_glb; lra.
Qed.


End EVPI.


(** ** The dose search *)

Lemma slice_last_short {A} (n : nat) (l : list A) :
  (length l <= n)%nat -> slice_last n l = l.
Proof.
  intros H. unfold slice_last.
  replace (length l - n)%nat with 0%nat by lia. reflexivity.
Qed.

Lemma sessionsOf_snoc pid h r :
  protocolId r = pid -> sessionsOf pid (h ++ [r]) = sessionsOf pid h ++ [r].
Proof.
  intros E. unfold sessionsOf. rewrite List.filter_app. simpl.
  rewrite E, String.eqb_refl. reflexivity.
Qed.

Lemma recentSessionsOf_eq pid h :
  recentSessionsOf pid h = slice_last 3 (sessionsOf pid h).
Proof. reflexivity. Qed.

(** The dose an update of protocol [pid] stores. *)
Lemma updateModel_dose clk pid dlt d st :
  storedDose pid (updateModel clk pid dlt d st)
  = Some (let step := medStep (recentSessionsOf pid (history (loadData st))) in
          if (dlt =? 1)%Z then Z.max 45 (d - step)
          else if (dlt =? -1)%Z then Z.min 180 (d + step)
          else d).
Proof.
  unfold storedDose, updateModel, saveData, loadData at 1. cbn [models].
  rewrite lookup_insert_eq. reflexivity.
Qed.

Lemma updateModel_history clk pid dlt d st :
  history (loadData (updateModel clk pid dlt d st)) = history (loadData st).
Proof. reflexivity. Qed.

Lemma rateBetter_dose clk g p d st :
  storedDose (id p) (rateBetter clk g p d st)
  = Some (Z.max 45
            (d - medStep
                   (slice_last 3
                      (sessionsOf (id p) (history (loadData st))
                       ++ [mkSession (now clk) g (id p) d 1])))).
Proof.
  unfold rateBetter, saveRating. cbn [ss_goal ss_protocol ss_duration].
  rewrite updateModel_dose. cbn [Z.eqb Pos.eqb].
  rewrite recentSessionsOf_eq.
  unfold addSession, saveData, loadData at 1. cbn [history].
  rewrite sessionsOf_snoc by reflexivity. reflexivity.
Qed.

Lemma rateBetter_sessions clk g p d st :
  sessionsOf (id p) (history (loadData (rateBetter clk g p d st)))
  = sessionsOf (id p) (history (loadData st))
    ++ [mkSession (now clk) g (id p) d 1].
Proof.
  unfold rateBetter, saveRating. cbn [ss_goal ss_protocol ss_duration].
  rewrite updateModel_history.
  unfold addSession, saveData, loadData at 1. cbn [history].
  apply sessionsOf_snoc. reflexivity.
Qed.

(** C1, as stated, fails on a fresh storage: the first "better" rating of
    a 120-second session stores 105, not 110, and the next two store 95
    and 85. *)
Lemma three_better_from_fresh_storage :
  let st1 := rateBetter morning focus box_breathing 120 None in
  let st2 := rateBetter morning focus box_breathing 105 st1 in
  let st3 := rateBetter morning focus box_breathing 95 st2 in
  storedDose "box-breathing" st1 = Some 105%Z
  /\ storedDose "box-breathing" st1 <> Some 110%Z
  /\ storedDose "box-breathing" st2 = Some 95%Z
  /\ storedDose "box-breathing" st3 = Some 85%Z.
Proof.
  vm_compute. repeat split; congruence.
Qed.

Lemma medStep_ten recent :
  (2 <= length recent)%nat ->
  (forall s, In s (slice_last 2 recent) -> delta s = 1%Z) ->
  (forall s, In s recent -> delta s <> (-1)%Z) ->
  medStep recent = 10%Z.
Proof.
  intros Hlen Hbetter Hworse. unfold medStep.
  replace (existsb _ recent) with false.
  - replace (forallb _ (slice_last 2 recent)) with true.
    + apply Nat.leb_le in Hlen. rewrite Hlen. reflexivity.
    + symmetry. apply List.forallb_forall. intros s Hs.
      apply Z.eqb_eq. now apply Hbetter.
  - symmetry. apply not_true_is_false. intros H.
    apply List.existsb_exists in H. destruct H as [s [Hs Hd]].
    apply Z.eqb_eq in Hd. now apply (Hworse s).
Qed.

(** C1, amended: a "better" rating stores as dose the duration of the
    rated session minus 10 seconds, not below the 45-second floor,
    whenever the two most recent recorded sessions of the protocol (the
    rated one included) are both "better" and none of its last three is
    "worse"; the dose stored before plays no part.  On a protocol without
    earlier sessions, three "better" sessions in a row of which the first
    runs for d0 seconds and each later one for the dose stored by the
    update before it store d0 - 15, then 10 less, then 10 less again, each
    not below 45: for d0 = 120 the doses 105, 95 and 85. *)
Theorem dose_three_better (clk1 clk2 clk3 : Clock) (g : Goal) (p : Protocol)
    (d0 : Z) (st : Storage) :
  sessionsOf (id p) (history (loadData st)) = [] ->
  let d1 := Z.max 45 (d0 - 15) in
  let d2 := Z.max 45 (d1 - 10) in
  let d3 := Z.max 45 (d2 - 10) in
  let st1 := rateBetter clk1 g p d0 st in
  let st2 := rateBetter clk2 g p d1 st1 in
  let st3 := rateBetter clk3 g p d2 st2 in
  (storedDose (id p) st1 = Some d1
   /\ storedDose (id p) st2 = Some d2
   /\ storedDose (id p) st3 = Some d3)
  /\ (d0 = 120 -> d1 = 105 /\ d2 = 95 /\ d3 = 85)%Z
  /\ (45 <= d1 /\ 45 <= d2 /\ 45 <= d3)%Z
  /\ (forall clk d st',
        let recent :=
          slice_last 3 (sessionsOf (id p) (history (loadData st'))
                        ++ [mkSession (now clk) g (id p) d 1]) in
        (2 <= length recent)%nat ->
        (forall s, In s (slice_last 2 recent) -> delta s = 1%Z) ->
        (forall s, In s recent -> delta s <> (-1)%Z) ->
        storedDose (id p) (rateBetter clk g p d st')
        = Some (Z.max 45 (d - 10))).
Proof.
  intros Hfresh d1 d2 d3 st1 st2 st3.
  assert (H1 : sessionsOf (id p) (history (loadData st1))
               = [mkSession (now clk1) g (id p) d0 1]).
  { unfold st1. rewrite rateBetter_sessions, Hfresh. reflexivity. }
  assert (H2 : sessionsOf (id p) (history (loadData st2))
               = [mkSession (now clk1) g (id p) d0 1;
                  mkSession (now clk2) g (id p) d1 1]).
  { unfold st2. rewrite rateBetter_sessions, H1. reflexivity. }
  split; [split; [| split] |].
  - unfold st1. rewrite rateBetter_dose, Hfresh. reflexivity.
  - unfold st2. rewrite rateBetter_dose, H1. reflexivity.
  - unfold st3. rewrite rateBetter_dose, H2. reflexivity.
  - split; [subst d1 d2 d3; lia |].
    split; [subst d1 d2 d3; lia |].
    intros clk d st' recent Hlen Hbetter Hworse.
    rewrite rateBetter_dose. fold recent.
    rewrite (medStep_ten recent Hlen Hbetter Hworse). reflexivity.
Qed.

Lemma dose_three_better_witness :
  storedDose "box-breathing"
    (rateBetter morning focus box_breathing 95
       (rateBetter morning focus box_breathing 105
          (rateBetter morning focus box_breathing 120 None)))
  = Some 85%Z.
Proof.
  exact (proj2 (proj2 (proj1
    (dose_three_better morning morning morning focus box_breathing 120 None
       eq_refl)))).
Defined.

(** ** The drift sweep *)

Lemma driftSignalled_resetModel nowMs : driftSignalled nowMs (resetModel nowMs) = false.
Proof. reflexivity. Qed.

Lemma sweepStep_frame nowMs acc p :
  history (fst (sweepStep nowMs acc p)) = history (fst acc)
  /\ streak (fst (sweepStep nowMs acc p)) = streak (fst acc).
Proof.
  destruct acc as [data st]. unfold sweepStep.
  destruct (models data !! id p) as [m |]; [| split; reflexivity].
  destruct (driftSignalled nowMs m); split; reflexivity.
Qed.

Lemma driftSweep_frame nowMs cs data st :
  history (fst (driftSweep nowMs cs data st)) = history data
  /\ streak (fst (driftSweep nowMs cs data st)) = streak data.
Proof.
  unfold driftSweep. change data with (fst (data, st)) at 2 4.
  generalize (data, st). induction cs as [| p cs IH]; intros acc; simpl.
  - split; reflexivity.
  - destruct (IH (sweepStep nowMs acc p)) as [H1 H2].
    destruct (sweepStep_frame nowMs acc p) as [H3 H4].
    split; congruence.
Qed.

(** What the sweep leaves under each key. *)
Lemma driftSweep_models nowMs cs data st k :
  models (fst (driftSweep nowMs cs data st)) !! k
  = match models data !! k with
    | Some m =>
        if isCandidate cs k && driftSignalled nowMs m
        then Some (resetModel nowMs) else Some m
    | None => None
    end.
Proof.
  unfold driftSweep. revert data st.
  induction cs as [| p cs IH]; intros data st.
  - cbn. destruct (models data !! k); reflexivity.
  - cbn [fold_left isCandidate existsb].
    destruct (sweepStep nowMs (data, st) p) as [d1 s1] eqn:Es.
    rewrite IH. unfold sweepStep in Es. fold (isCandidate cs k).
    destruct (String.eqb_spec (id p) k) as [<- | Hne].
    + destruct (models data !! id p) as [m |] eqn:Ep.
      * destruct (driftSignalled nowMs m) eqn:Ed; injection Es as <- <-.
        -- cbn [models]. rewrite lookup_insert_eq, driftSignalled_resetModel.
           rewrite andb_false_r. reflexivity.
        -- rewrite Ep, Ed, andb_false_r. reflexivity.
      * injection Es as <- <-. rewrite Ep. reflexivity.
    + cbn [orb].
      destruct (models data !! id p) as [m |] eqn:Ep.
      * destruct (driftSignalled nowMs m) eqn:Ed; injection Es as <- <-.
        -- cbn [models]. rewrite lookup_insert_ne by exact Hne. reflexivity.
        -- reflexivity.
      * injection Es as <- <-. reflexivity.
Qed.

(** Either nothing was reset, or the swept data is what was saved last. *)
Lemma driftSweep_saved nowMs cs data st :
  driftSweep nowMs cs data st = (data, st)
  \/ snd (driftSweep nowMs cs data st) = Some (fst (driftSweep nowMs cs data st)).
Proof.
  unfold driftSweep. generalize (data, st).
  induction cs as [| p cs IH]; intros acc; [now left |].
  cbn [fold_left].
  destruct (IH (sweepStep nowMs acc p)) as [E | E]; [| now right].
  rewrite E. destruct acc as [d s]. unfold sweepStep.
  destruct (models d !! id p) as [m |]; [| now left].
  destruct (driftSignalled nowMs m); [now right | now left].
Qed.

Lemma driftSweep_quiet nowMs cs data st :
  (forall p m, In p cs -> models data !! id p = Some m ->
               driftSignalled nowMs m = false) ->
  driftSweep nowMs cs data st = (data, st).
Proof.
  unfold driftSweep. induction cs as [| p cs IH]; intros H; [reflexivity |].
  cbn [fold_left].
  assert (E : sweepStep nowMs (data, st) p = (data, st)).
  { unfold sweepStep. destruct (models data !! id p) as [m |] eqn:Ep; [| reflexivity].
    rewrite (H p m (or_introl eq_refl) Ep). reflexivity. }
  rewrite E. apply IH. intros q mq Hq. apply H. now right.
Qed.

Lemma driftSweep_data_indep nowMs cs data st st' :
  fst (driftSweep nowMs cs data st) = fst (driftSweep nowMs cs data st').
Proof.
  unfold driftSweep. revert data st st'.
  induction cs as [| p cs IH]; intros data st st'; [reflexivity |].
  cbn [fold_left]. unfold sweepStep at 2 4.
  destruct (models data !! id p) as [m |]; [| apply IH].
  destruct (driftSignalled nowMs m); [reflexivity | apply IH].
Qed.

(** ** Selection and the persisted state *)

Section Orchestrator.
Variables Math_sqrt Math_exp Math_log : Q -> Q.
Variable sampleBeta : Q -> Q -> Rand -> Q * Rand.

Local Abbreviation select := (selectProtocol Math_sqrt Math_exp Math_log sampleBeta).

Lemma selectProtocol_storage_cases clk g st r :
  (sweepReached (out_phase (select clk g st r)) = false
   /\ out_storage (select clk g st r) = st)
  \/ (sweepReached (out_phase (select clk g st r)) = true
      /\ out_storage (select clk g st r)
         = snd (driftSweep (now clk) (getProtocolsByGoal g) (loadData st) st)).
Proof.
  unfold selectProtocol.
  destruct (0 <? length (List.filter (isUntried (loadData st)) _))%nat;
    [left; split; reflexivity |].
  destruct (0 <? length (List.filter (isUndertried (loadData st)) _))%nat;
    [left; split; reflexivity |].
  destruct (0 <? length (List.filter (isHourlyUndertried _ (loadData st)) _))%nat;
    [left; split; reflexivity |].
  destruct (isCloseCompetition _); right; split; reflexivity.
Qed.

Lemma selectProtocol_loaded clk g st st' r :
  loadData st' = loadData st ->
  out_phase (select clk g st' r) = out_phase (select clk g st r)
  /\ out_result (select clk g st' r) = out_result (select clk g st r)
  /\ out_rand (select clk g st' r) = out_rand (select clk g st r).
Proof.
  intros E. unfold selectProtocol. rewrite E.
  rewrite (driftSweep_data_indep (now clk) (getProtocolsByGoal g) (loadData st) st' st).
  destruct (0 <? length (List.filter (isUntried (loadData st)) _))%nat;
    [repeat split; reflexivity |].
  destruct (0 <? length (List.filter (isUndertried (loadData st)) _))%nat;
    [repeat split; reflexivity |].
  destruct (0 <? length (List.filter (isHourlyUndertried _ (loadData st)) _))%nat;
    [repeat split; reflexivity |].
  destruct (isCloseCompetition _); repeat split; reflexivity.
Qed.

(** The models a selection leaves in storage. *)
Lemma selectProtocol_models clk g st r k :
  models (loadData (out_storage (select clk g st r))) !! k
  = match models (loadData st) !! k with
    | Some m =>
        if sweepReached (out_phase (select clk g st r))
           && isCandidate (getProtocolsByGoal g) k
           && driftSignalled (now clk) m
        then Some (resetModel (now clk)) else Some m
    | None => None
    end.
Proof.
  destruct (selectProtocol_storage_cases clk g st r) as [[Hp Ho] | [Hp Ho]];
    rewrite Hp, Ho.
  - destruct (models (loadData st) !! k); reflexivity.
  - assert (Hload :
      loadData (snd (driftSweep (now clk) (getProtocolsByGoal g) (loadData st) st))
      = fst (driftSweep (now clk) (getProtocolsByGoal g) (loadData st) st)).
    { destruct (driftSweep_saved (now clk) (getProtocolsByGoal g) (loadData st) st)
        as [E | E]; rewrite E; reflexivity. }
    rewrite Hload, driftSweep_models. reflexivity.
Qed.

(** C3, as stated, fails: a selection that reaches the drift sweep with a
    drifting candidate overwrites that candidate's model in storage. *)
Lemma selection_resets_drifting_model :
  let o := selectProtocol approxSqrt exampleExp exampleLog exampleSampler
             morning focus (Some driftingRace) halves in
  out_storage o <> Some driftingRace
  /\ models (loadData (out_storage o)) !! "box-breathing"
     = Some (resetModel (now morning)).
Proof.
  split.
  - intros H.
    apply (f_equal (fun s => trials <$> models (loadData s) !! "box-breathing")) in H.
    vm_compute in H. discriminate.
  - vm_compute. reflexivity.
Qed.

(** C3, amended: a selection changes the persisted state only through the
    drift sweep.  When the call returns from one of the exploration
    branches, or no candidate signals drift, the storage is left as it
    was; otherwise exactly the models of the drifting candidates are
    replaced by the reset model, and history and streak are kept.  Phase,
    result and random source depend on the storage only through the data
    loaded from it. *)
Theorem selectProtocol_storage (clk : Clock) (g : Goal) (st : Storage) (r : Rand) :
  let o := select clk g st r in
  let data := loadData st in
  let candidates := getProtocolsByGoal g in
  ((sweepReached (out_phase o) = false
    \/ (forall p m, In p candidates -> models data !! id p = Some m ->
                    driftSignalled (now clk) m = false)) ->
   out_storage o = st)
  /\ (forall k,
        models (loadData (out_storage o)) !! k
        = match models data !! k with
          | Some m =>
              if sweepReached (out_phase o) && isCandidate candidates k
                 && driftSignalled (now clk) m
              then Some (resetModel (now clk)) else Some m
          | None => None
          end)
  /\ history (loadData (out_storage o)) = history data
  /\ streak (loadData (out_storage o)) = streak data
  /\ (forall st', loadData st' = loadData st ->
        out_phase (select clk g st' r) = out_phase o
        /\ out_result (select clk g st' r) = out_result o
        /\ out_rand (select clk g st' r) = out_rand o).
Proof.
  intros o data candidates.
  pose proof (driftSweep_saved (now clk) candidates data st) as Hsaved.
  pose proof (selectProtocol_models clk g st r) as Hmodels.
  pose proof (driftSweep_frame (now clk) candidates data st) as [Hh Hs].
  destruct (selectProtocol_storage_cases clk g st r) as [[Hp Ho] | [Hp Ho]];
    fold o in Hp, Ho; fold data candidates in Ho.
  - split; [| split; [| split; [| split]]].
    + intros _. exact Ho.
    + exact Hmodels.
    + rewrite Ho. reflexivity.
    + rewrite Ho. reflexivity.
    + intros st' E. apply selectProtocol_loaded. exact E.
  - assert (Hload : loadData (snd (driftSweep (now clk) candidates data st))
                    = fst (driftSweep (now clk) candidates data st)).
    { destruct Hsaved as [E | E]; rewrite E; reflexivity. }
    split; [| split; [| split; [| split]]].
    + intros [H | H]; [congruence |].
      rewrite Ho, (driftSweep_quiet _ _ _ _ H). reflexivity.
    + exact Hmodels.
    + rewrite Ho, Hload. exact Hh.
    + rewrite Ho, Hload. exact Hs.
    + intros st' E. apply selectProtocol_loaded. exact E.
Qed.

End Orchestrator.

Lemma selectProtocol_storage_witness :
  out_storage (selectProtocol approxSqrt exampleExp exampleLog exampleSampler
                 morning focus (Some closeRaceNewHour) halves)
  = Some closeRaceNewHour.
Proof.
  apply (selectProtocol_storage approxSqrt exampleExp exampleLog exampleSampler
           morning focus (Some closeRaceNewHour) halves).
  left. reflexivity.
Defined.

(** ** The stored shape parameters *)

Lemma softReset_ok (a b : Q) :
  1 <= a -> 1 <= b ->
  1 <= alpha (softResetBetaParams a b) /\ 1 <= beta (softResetBetaParams a b).
Proof.
  intros Ha Hb.
  destruct (softReset_kept_bounds a b Ha Hb) as [Hk _].
  unfold softResetBetaParams. cbn [alpha beta].
  set (kept := inject_Z (Qfloor ((a + b - 2) * (1 # 4)))) in *.
  assert (Hm : 0 <= a / (a + b) <= 1).
  { split; [apply Qle_shift_div_l | apply Qle_shift_div_r]; lra. }
  set (mean := a / (a + b)) in *.
  split; nra.
Qed.

Lemma posterior_ok_fresh : posterior_ok freshModel.
Proof.
  split; intros x H; injection H as <-; discriminate.
Qed.

Lemma posterior_ok_reset nowMs : posterior_ok (resetModel nowMs).
Proof.
  split; intros x H; injection H as <-; discriminate.
Qed.

Lemma storage_ok_empty : storage_ok None.
Proof.
  intros k m H. cbn in H. rewrite lookup_empty in H. discriminate.
Qed.

Lemma updateModel_other clk pid dlt d st k :
  k <> pid ->
  models (loadData (updateModel clk pid dlt d st)) !! k
  = models (loadData st) !! k.
Proof.
  intros Hne. unfold updateModel, saveData, loadData at 1. cbn [models].
  apply lookup_insert_ne. congruence.
Qed.

(** The parameters an update stores: the conjugate update of the stored
    ones (or of the uniform seed), soft-reset when drift is signalled. *)
Lemma updateModel_params clk pid dlt d st :
  let model :=
    match models (loadData st) !! pid with Some m => m | None => freshModel end in
  let upd :=
    updateBetaParams (orQ (alphaParam model) 1) (orQ (betaParam model) 1)
      (deltaToReward dlt) in
  exists m',
    models (loadData (updateModel clk pid dlt d st)) !! pid = Some m'
    /\ ((alphaParam m' = Some (alpha upd) /\ betaParam m' = Some (beta upd))
        \/ (alphaParam m' = Some (alpha (softResetBetaParams (alpha upd) (beta upd)))
            /\ betaParam m'
               = Some (beta (softResetBetaParams (alpha upd) (beta upd))))).
Proof.
  intros model upd.
  unfold updateModel, saveData, loadData at 1. cbn [models].
  rewrite lookup_insert_eq. eexists. split; [reflexivity |].
  cbn [alphaParam betaParam]. fold model. fold upd.
  destruct (shouldResetDueToDrift _ _ _); [right | left]; split; reflexivity.
Qed.

Lemma updateModel_ok clk pid dlt d st :
  storage_ok st -> storage_ok (updateModel clk pid dlt d st).
Proof.
  intros Hst k m Hk.
  destruct (decide (k = pid)) as [-> | Hne].
  - destruct (updateModel_params clk pid dlt d st) as [m' [Hm' Hpar]].
    rewrite Hm' in Hk. injection Hk as <-.
    set (model := match models (loadData st) !! pid with
                  | Some m => m | None => freshModel end) in *.
    assert (Hmodel : posterior_ok model).
    { unfold model. destruct (models (loadData st) !! pid) as [m0 |] eqn:E.
      - apply (Hst pid m0 E).
      - apply posterior_ok_fresh. }
    destruct Hmodel as [Ha Hb].
    pose proof (deltaToReward_range dlt) as Hr.
    assert (Ha1 : 1 <= orQ (alphaParam model) 1) by (apply orQ_ge; [lra | exact Ha]).
    assert (Hb1 : 1 <= orQ (betaParam model) 1) by (apply orQ_ge; [lra | exact Hb]).
    set (upd := updateBetaParams _ _ _) in Hpar.
    assert (Hu : 1 <= alpha upd /\ 1 <= beta upd).
    { unfold upd, updateBetaParams. cbn [alpha beta]. split; lra. }
    destruct Hpar as [[Ea Eb] | [Ea Eb]].
    + split; intros x Hx; [rewrite Ea in Hx | rewrite Eb in Hx];
        injection Hx as <-; apply Hu.
    + destruct (softReset_ok (alpha upd) (beta upd)) as [Hsa Hsb]; try apply Hu.
      split; intros x Hx; [rewrite Ea in Hx | rewrite Eb in Hx];
        injection Hx as <-; assumption.
  - rewrite updateModel_other in Hk by exact Hne. apply (Hst k m Hk).
Qed.

Lemma updateModel_lazy clk pid dlt d st :
  models (loadData st) !! pid = None ->
  exists m,
    models (loadData (updateModel clk pid dlt d st)) !! pid = Some m
    /\ alphaParam m = Some (1 + deltaToReward dlt)
    /\ betaParam m = Some (1 + (1 - deltaToReward dlt)).
Proof.
  intros Hnone.
  unfold updateModel, saveData, loadData at 1. cbn [models].
  rewrite lookup_insert_eq, Hnone. eexists. split; [reflexivity |].
  split; reflexivity.
Qed.

(** C4, as stated, fails: the posterior created by the first feedback on
    a protocol starts from alpha = 1, so a "worse" rating stores alpha = 1
    where the prior 1.5 would have left 1.5. *)
Lemma first_feedback_starts_from_uniform :
  let st := updateModel morning "box-breathing" (-1) 120 None in
  models (loadData st) !! "box-breathing" ≫= alphaParam = Some 1
  /\ models (loadData st) !! "box-breathing" ≫= betaParam = Some 2
  /\ alpha (updateBetaParams (15 # 10) 1 (deltaToReward (-1))) == 15 # 10
  /\ ~ 1 == 15 # 10.
Proof.
  vm_compute. repeat split; congruence.
Qed.

Section Invariant.
Variables Math_sqrt Math_exp Math_log : Q -> Q.
Variable sampleBeta : Q -> Q -> Rand -> Q * Rand.

Lemma selectProtocol_ok clk g st r :
  storage_ok st ->
  storage_ok (out_storage
                (selectProtocol Math_sqrt Math_exp Math_log sampleBeta clk g st r)).
Proof.
  intros Hst k m Hk.
  rewrite selectProtocol_models in Hk.
  destruct (models (loadData st) !! k) as [m0 |] eqn:E; [| discriminate].
  destruct (_ && _ && _) in Hk; injection Hk as <-.
  - apply posterior_ok_reset.
  - apply (Hst k m0 E).
Qed.

(** C4, amended: the posterior created lazily by the first feedback on a
    protocol is seeded with alpha = 1, beta = 1 and the one installed by
    the drift full reset with alpha = 1.5, beta = 1.0; after every
    operation that touches a posterior (lazy creation, feedback update,
    soft reset, drift full reset) the stored alpha and beta are at least
    1, provided they were before. *)
Theorem posterior_parameters_invariant :
  (alphaParam freshModel = Some 1 /\ betaParam freshModel = Some 1)
  /\ (forall t, alphaParam (resetModel t) = Some (15 # 10)
                /\ betaParam (resetModel t) = Some 1)
  /\ (forall clk pid dlt d st,
        models (loadData st) !! pid = None ->
        exists m,
          models (loadData (updateModel clk pid dlt d st)) !! pid = Some m
          /\ alphaParam m = Some (1 + deltaToReward dlt)
          /\ betaParam m = Some (1 + (1 - deltaToReward dlt)))
  /\ (forall clk pid dlt d st,
        storage_ok st -> storage_ok (updateModel clk pid dlt d st))
  /\ (forall clk g st r,
        storage_ok st ->
        storage_ok
          (out_storage
             (selectProtocol Math_sqrt Math_exp Math_log sampleBeta clk g st r))).
Proof.
  split; [split; reflexivity |].
  split; [intros t; split; reflexivity |].
  split; [exact updateModel_lazy |].
  split; [exact updateModel_ok | exact selectProtocol_ok].
Qed.

End Invariant.

Lemma posterior_parameters_invariant_witness :
  storage_ok (updateModel morning "box-breathing" 1 120 None)
  /\ storage_ok
       (out_storage
          (selectProtocol approxSqrt exampleExp exampleLog exampleSampler
             morning focus (Some driftingRace) halves)).
Proof.
  pose proof (posterior_parameters_invariant approxSqrt exampleExp exampleLog
                exampleSampler) as [_ [_ [_ [Hupd Hsel]]]].
  split.
  - apply Hupd. exact storage_ok_empty.
  - apply Hsel. intros k m H.
    destruct (decide (k = "box-breathing")) as [-> | H1];
      [vm_compute in H; injection H as <-; split; intros x Hx;
       injection Hx as <-; discriminate |].
    destruct (decide (k = "eye-break")) as [-> | H2];
      [vm_compute in H; injection H as <-; split; intros x Hx;
       injection Hx as <-; discriminate |].
    destruct (decide (k = "alternate-nostril")) as [-> | H3];
      [vm_compute in H; injection H as <-; split; intros x Hx;
       injection Hx as <-; discriminate |].
    cbn [loadData driftingRace models] in H.
    rewrite !lookup_insert_ne, lookup_empty in H by congruence. discriminate.
Defined.

(** ** The close-competition check *)




Section CloseCompetition.
Variables Math_sqrt Math_exp Math_log : Q -> Q.
Variable sampleBeta : Q -> Q -> Rand -> Q * Rand.

Local Abbreviation select := (selectProtocol Math_sqrt Math_exp Math_log sampleBeta).


End CloseCompetition.



(** ** The hourly-exploration branch *)

Section Hourly.
Variables Math_sqrt Math_exp Math_log : Q -> Q.
Variable sampleBeta : Q -> Q -> Rand -> Q * Rand.

(** With every candidate tried often enough, one candidate that was used
    fewer than twice at the current hour is enough for the call to return
    from the hourly-exploration branch, at the base duration and without
    reaching the sweep, the close-competition check or the sampling. *)
Lemma hourly_exploration_preempts clk g st r :
  List.filter (isUntried (loadData st)) (getProtocolsByGoal g) = [] ->
  List.filter (isUndertried (loadData st)) (getProtocolsByGoal g) = [] ->
  List.filter (isHourlyUndertried (hour clk) (loadData st)) (getProtocolsByGoal g)
  <> [] ->
  selectProtocol Math_sqrt Math_exp Math_log sampleBeta clk g st r
  = mkOutcome HourlyExploration
      ((fun p => (p, baseSeconds p))
         <$> pickRandom
               (List.filter (isHourlyUndertried (hour clk) (loadData st))
                  (getProtocolsByGoal g))
               (fst (random r)))
      st (snd (random r)).
Proof.
  intros H1 H2 H3. unfold selectProtocol. rewrite H1, H2.
  destruct (List.filter (isHourlyUndertried _ _) _) as [| x l]; [congruence |].
  reflexivity.
Qed.

End Hourly.

(** C2: where every candidate of the goal has at least ten trials and the
    two leaders are in close competition, but none was used at the current
    hour yet, no candidate is untried or undertried and the
    close-competition test would succeed; still the call returns from the
    hourly-exploration branch, with a randomly picked candidate at its
    base duration.  The same posteriors with hourly data reach the
    ensemble.  The hourly phase is active and decides the selection. *)
Theorem hourly_exploration_decides :
  let candidates := getProtocolsByGoal focus in
  let sel :=
    selectProtocol approxSqrt exampleExp exampleLog exampleSampler
      morning focus in
  (List.filter (isUntried closeRaceNewHour) candidates = []
   /\ List.filter (isUndertried closeRaceNewHour) candidates = []
   /\ isCloseCompetition (allProtocolStats closeRaceNewHour candidates) = true)
  /\ (out_phase (sel (Some closeRaceNewHour) halves) = HourlyExploration
      /\ (fst <$> out_result (sel (Some closeRaceNewHour) halves))
         = getProtocolById "eye-break"
      /\ (snd <$> out_result (sel (Some closeRaceNewHour) halves)) = Some 60%Z)
  /\ (out_phase (sel (Some closeRace) halves) = EnsembleVotingPhase
      /\ (fst <$> out_result (sel (Some closeRace) halves))
         = getProtocolById "box-breathing"
      /\ (snd <$> out_result (sel (Some closeRace) halves)) = Some 100%Z).
Proof.
  vm_compute. repeat split; reflexivity.
Qed.

(** ** The vote table *)

Lemma addVote_count vc k wc k' :
  voteCount (addVote vc k wc) k'
  == if String.eqb k k' then voteCount vc k' + wc else voteCount vc k'.
Proof.
  induction vc as [| [k0 v] vc IH]; cbn [addVote voteCount].
  - destruct (String.eqb k k'); reflexivity.
  - destruct (String.eqb_spec k0 k) as [-> | Hne]; cbn [voteCount].
    + destruct (String.eqb_spec k k') as [-> | Hne'].
      * rewrite orQ_zero. reflexivity.
      * reflexivity.
    + destruct (String.eqb_spec k0 k') as [-> | Hne'].
      * destruct (String.eqb_spec k k'); [congruence | reflexivity].
      * exact IH.
Qed.

Lemma addVote_keys vc k wc k' :
  In k' (map fst (addVote vc k wc)) <-> k' = k \/ In k' (map fst vc).
Proof.
  induction vc as [| [k0 v] vc IH]; cbn [addVote map fst In].
  - split; [intros [H | []]; now left | intros [H | []]; now left].
  - destruct (String.eqb_spec k0 k) as [-> | Hne]; cbn [map fst In].
    + split; [tauto | intros [H | H]; [now left | exact H]].
    + rewrite IH. tauto.
Qed.

Lemma addVote_NoDup vc k wc :
  NoDup (map fst vc) -> NoDup (map fst (addVote vc k wc)).
Proof.
  induction vc as [| [k0 v] vc IH]; cbn [addVote map fst]; intros H.
  - repeat constructor. intros H0. inversion H0.
  - inversion H as [| ? ? Hnin Hnd]; subst.
    destruct (String.eqb_spec k0 k) as [-> | Hne]; cbn [map fst].
    + constructor; assumption.
    + constructor; [| now apply IH].
      rewrite list_elem_of_In, addVote_keys. rewrite list_elem_of_In in Hnin.
      intros [E | E]; [congruence | tauto].
Qed.

Lemma voteCount_entry vc k v :
  NoDup (map fst vc) -> In (k, v) vc -> voteCount vc k = v.
Proof.
  induction vc as [| [k0 v0] vc IH]; cbn [map fst voteCount]; intros Hnd Hin.
  - inversion Hin.
  - inversion Hnd as [| ? ? Hnin Hnd']; subst.
    destruct Hin as [E | Hin].
    + injection E as -> ->. rewrite String.eqb_refl. reflexivity.
    + destruct (String.eqb_spec k0 k) as [-> | Hne]; [| now apply IH].
      exfalso. apply Hnin, list_elem_of_In.
      change k with (fst (k, v)). now apply in_map.
Qed.

Lemma countVotes_fold w vs vc0 k :
  voteCount
    (fold_left
       (fun voteCounts vote =>
          addVote voteCounts (v_protocolId vote)
            (weightOf w (algorithm vote) * confidence vote)) vs vc0) k
  == voteCount vc0 k + weightedTotal w vs k.
Proof.
  revert vc0. induction vs as [| v vs IH]; intros vc0; cbn [fold_left weightedTotal].
  - ring.
  - rewrite IH, addVote_count.
    destruct (String.eqb (v_protocolId v) k); ring.
Qed.

Lemma countVotes_count w vs k :
  voteCount (countVotes w vs) k == weightedTotal w vs k.
Proof.
  unfold countVotes. rewrite countVotes_fold. cbn [voteCount]. ring.
Qed.

Lemma countVotes_keys w vs k :
  In k (map fst (countVotes w vs)) <-> In k (map v_protocolId vs).
Proof.
  unfold countVotes.
  assert (G : forall vc0,
             In k (map fst
                     (fold_left
                        (fun voteCounts vote =>
                           addVote voteCounts (v_protocolId vote)
                             (weightOf w (algorithm vote) * confidence vote))
                        vs vc0))
             <-> In k (map fst vc0) \/ In k (map v_protocolId vs)).
  { induction vs as [| v vs IH]; intros vc0; cbn [fold_left map In].
    - tauto.
    - rewrite IH, addVote_keys. intuition congruence. }
  rewrite G. cbn. tauto.
Qed.

Lemma countVotes_NoDup w vs : NoDup (map fst (countVotes w vs)).
Proof.
  unfold countVotes.
  assert (G : forall vc0,
             NoDup (map fst vc0) ->
             NoDup (map fst
                      (fold_left
                         (fun voteCounts vote =>
                            addVote voteCounts (v_protocolId vote)
                              (weightOf w (algorithm vote) * confidence vote))
                         vs vc0))).
  { induction vs as [| v vs IH]; intros vc0 H; cbn [fold_left]; [exact H |].
    apply IH. now apply addVote_NoDup. }
  apply G. constructor.
Qed.

(** The first entry of the sorted table carries the largest total, and a
    protocol somebody voted for. *)
Lemma countVotes_winner w vs kw tw rest :
  sortDesc snd (countVotes w vs) = (kw, tw) :: rest ->
  In kw (map v_protocolId vs)
  /\ forall v, In v vs ->
       weightedTotal w vs (v_protocolId v) <= weightedTotal w vs kw.
Proof.
  intros E.
  pose proof (sortDesc_head_in snd _ _ _ E) as Hin.
  pose proof (countVotes_NoDup w vs) as Hnd.
  split.
  - apply (proj1 (countVotes_keys w vs kw)).
    change kw with (fst (kw, tw)). now apply in_map.
  - intros v Hv.
    assert (Hk : In (v_protocolId v) (map fst (countVotes w vs))).
    { apply (proj2 (countVotes_keys w vs (v_protocolId v))). now apply in_map. }
    apply in_map_iff in Hk. destruct Hk as [[k t] [Hfst Hkt]]. cbn in Hfst. subst k.
    pose proof (sortDesc_head_max snd _ _ _ E _ Hkt) as Hle. cbn [snd] in Hle.
    rewrite <- (countVotes_count w vs (v_protocolId v)).
    rewrite <- (countVotes_count w vs kw).
    rewrite (voteCount_entry _ _ _ Hnd Hkt), (voteCount_entry _ _ _ Hnd Hin).
    exact Hle.
Qed.

Lemma countVotes_nonempty w v vs : countVotes w (v :: vs) <> [].
Proof.
  intros E.
  assert (H : In (v_protocolId v) (map fst (countVotes w (v :: vs)))).
  { apply (proj2 (countVotes_keys w (v :: vs) (v_protocolId v))). now left. }
  rewrite E in H. inversion H.
Qed.

(** ** The voters return a vote for one of the protocols *)

Lemma random_unit r :
  in_unit r ->
  (0 <= fst (random r) /\ fst (random r) < 1) /\ in_unit (snd (random r)).
Proof.
  intros H. split; [apply H | exact H].
Qed.

Lemma pickRandom_some {A} (l : list A) (u : Q) :
  l <> [] -> 0 <= u -> u < 1 -> exists x, pickRandom l u = Some x /\ In x l.
Proof.
  intros Hl H0 H1. unfold pickRandom, at_index.
  set (n := inject_Z (Z.of_nat (length l))).
  assert (Hn : 0 < n).
  { unfold n. change 0 with (inject_Z 0). rewrite <- Zlt_Qlt.
    destruct l; [congruence | cbn [length]; lia]. }
  assert (Hlo : (0 <= Qfloor (u * n))%Z).
  { change 0%Z with (Qfloor 0). apply Qfloor_resp_le. nra. }
  assert (Hhi : (Qfloor (u * n) < Z.of_nat (length l))%Z).
  { rewrite Zlt_Qlt. fold n.
    apply Qle_lt_trans with (u * n); [apply Qfloor_le | nra]. }
  destruct (Z.ltb_spec (Qfloor (u * n)) 0) as [Hneg | _]; [lia |].
  destruct (nth_error l (Z.to_nat (Qfloor (u * n)))) as [x |] eqn:E.
  - exists x. split; [reflexivity | now apply nth_error_In in E].
  - apply nth_error_None in E. lia.
Qed.

Lemma softmaxScan_bound probabilities rand c i :
  softmaxScan probabilities rand c i = 0%nat
  \/ (i <= softmaxScan probabilities rand c i < i + length probabilities)%nat.
Proof.
  revert c i. induction probabilities as [| p ps IH]; intros c i; cbn [softmaxScan].
  - now left.
  - destruct (Qle_bool rand (c + p)).
    + right. cbn [length]. lia.
    + destruct (IH (c + p) (S i)) as [E | E]; [now left |].
      right. cbn [length]. lia.
Qed.

Lemma find_id_some (ps : list Candidate) (k : string) :
  In k (map c_id ps) ->
  exists p, List.find (fun p => String.eqb (c_id p) k) ps = Some p.
Proof.
  intros H. apply in_map_iff in H. destruct H as [p [E Hp]].
  destruct (List.find _ ps) as [q |] eqn:F; [now exists q |].
  pose proof (List.find_none _ _ F p Hp) as Hn. cbn in Hn.
  rewrite E, String.eqb_refl in Hn. discriminate.
Qed.

Section Voters.
Variables Math_sqrt Math_exp Math_log : Q -> Q.
Variable sampleBeta : Q -> Q -> Rand -> Q * Rand.
Hypothesis sampleBeta_unit :
  forall a b r, in_unit r -> in_unit (snd (sampleBeta a b r)).

Lemma drawSamples_ids ps r :
  map ts_id (fst (drawSamples sampleBeta ps r)) = map c_id ps.
Proof.
  revert r. induction ps as [| p ps IH]; intros r; cbn [drawSamples]; [reflexivity |].
  destruct (sampleBeta (c_alpha p) (c_beta p) r) as [s r1].
  specialize (IH r1). destruct (drawSamples sampleBeta ps r1) as [ss r2].
  cbn [fst map ts_id] in *. now rewrite IH.
Qed.

Lemma drawSamples_unit ps r :
  in_unit r -> in_unit (snd (drawSamples sampleBeta ps r)).
Proof.
  revert r. induction ps as [| p ps IH]; intros r H; cbn [drawSamples]; [exact H |].
  pose proof (sampleBeta_unit (c_alpha p) (c_beta p) r H) as H1.
  destruct (sampleBeta (c_alpha p) (c_beta p) r) as [s r1]. cbn [snd] in H1.
  specialize (IH r1 H1). destruct (drawSamples sampleBeta ps r1) as [ss r2].
  exact IH.
Qed.

Lemma thompsonVote_some ps r :
  ps <> [] ->
  exists v, fst (thompsonVote Math_sqrt sampleBeta ps r) = Some v
            /\ algorithm v = thompson /\ In (v_protocolId v) (map c_id ps).
Proof.
  intros Hps. unfold thompsonVote.
  pose proof (drawSamples_ids ps r) as Hids.
  destruct (drawSamples sampleBeta ps r) as [samples r']. cbn [fst] in Hids.
  destruct (sortDesc ts_sample samples) as [| winner rest] eqn:E.
  - apply sortDesc_nil in E. subst samples. destruct ps; [congruence | discriminate].
  - eexists. split; [reflexivity |]. split; [reflexivity |]. cbn [v_protocolId].
    rewrite <- Hids. apply in_map. now apply (sortDesc_head_in ts_sample _ _ _ E).
Qed.

Lemma thompsonVote_unit ps r :
  in_unit r -> in_unit (snd (thompsonVote Math_sqrt sampleBeta ps r)).
Proof.
  intros H. unfold thompsonVote.
  pose proof (drawSamples_unit ps r H) as Hu.
  destruct (drawSamples sampleBeta ps r) as [samples r'].
  destruct (sortDesc ts_sample samples); exact Hu.
Qed.

Lemma ucbVote_some ps totalTrials :
  ps <> [] ->
  exists v, ucbVote Math_sqrt Math_log ps totalTrials = Some v
            /\ algorithm v = ucb /\ In (v_protocolId v) (map c_id ps).
Proof.
  intros Hps. unfold ucbVote.
  match goal with |- context [sortDesc u_score ?l] => set (scores := l) end.
  assert (Hids : map u_id scores = map c_id ps).
  { unfold scores. rewrite map_map. reflexivity. }
  destruct (sortDesc u_score scores) as [| winner rest] eqn:E.
  - apply sortDesc_nil in E. destruct ps; [congruence | discriminate].
  - eexists. split; [reflexivity |]. split; [reflexivity |]. cbn [v_protocolId].
    rewrite <- Hids. apply in_map. now apply (sortDesc_head_in u_score _ _ _ E).
Qed.

Lemma epsilonGreedyVote_some ps totalTrials r :
  ps <> [] -> in_unit r ->
  exists v, fst (epsilonGreedyVote Math_sqrt Math_exp ps totalTrials r) = Some v
            /\ algorithm v = epsilonGreedy /\ In (v_protocolId v) (map c_id ps).
Proof.
  intros Hps Hr. unfold epsilonGreedyVote. cbn [random].
  destruct (Qltb _ _).
  - destruct (pickRandom_some ps (draws r (S (pos r))) Hps) as [p [Ep Hp]];
      try apply Hr.
    cbn [draws pos]. rewrite Ep. eexists. split; [reflexivity |].
    split; [reflexivity |]. cbn [v_protocolId]. now apply in_map.
  - match goal with |- context [sortDesc m_mean ?l] => set (means := l) end.
    assert (Hids : map m_id means = map c_id ps).
    { unfold means. rewrite map_map. reflexivity. }
    destruct (sortDesc m_mean means) as [| winner rest] eqn:E.
    + apply sortDesc_nil in E. destruct ps; [congruence | discriminate].
    + eexists. split; [reflexivity |]. split; [reflexivity |]. cbn [v_protocolId].
      rewrite <- Hids. apply in_map. now apply (sortDesc_head_in m_mean _ _ _ E).
Qed.

Lemma epsilonGreedyVote_unit ps totalTrials r :
  in_unit r ->
  in_unit (snd (epsilonGreedyVote Math_sqrt Math_exp ps totalTrials r)).
Proof.
  intros H. unfold epsilonGreedyVote. cbn [random].
  destruct (Qltb _ _).
  - cbn [draws pos]. destruct (pickRandom ps _); exact H.
  - destruct (sortDesc m_mean _); exact H.
Qed.

Lemma softmaxVote_some ps totalTrials r :
  ps <> [] ->
  exists v, fst (softmaxVote Math_exp ps totalTrials r) = Some v
            /\ algorithm v = softmax /\ In (v_protocolId v) (map c_id ps).
Proof.
  intros Hps. unfold softmaxVote. cbn [random].
  match goal with
  | |- context [softmaxScan ?pr _ _ _] => set (probabilities := pr)
  end.
  set (i := softmaxScan probabilities (draws r (pos r)) 0 0).
  assert (Hlen : length probabilities = length ps).
  { unfold probabilities. rewrite !length_map. reflexivity. }
  assert (Hi : (i < length ps)%nat).
  { destruct (softmaxScan_bound probabilities (draws r (pos r)) 0 0) as [E | E];
      fold i in E; [| lia].
    rewrite E. destruct ps; [congruence | cbn [length]; lia]. }
  destruct (nth_error ps i) as [winner |] eqn:E1;
    [| apply nth_error_None in E1; lia].
  destruct (nth_error (map _ ps) i) as [winnerMean |] eqn:E2;
    [| apply nth_error_None in E2; rewrite length_map in E2; lia].
  destruct (nth_error probabilities i) as [prob |] eqn:E3;
    [| apply nth_error_None in E3; lia].
  eexists. split; [reflexivity |]. split; [reflexivity |]. cbn [v_protocolId].
  apply in_map. now apply nth_error_In in E1.
Qed.

(** C9: for a non-empty candidate list [ensembleVoting] returns a result
    built from the votes of the four strategies, in the order Thompson,
    UCB, epsilon-greedy, softmax; with the orchestrator's weights each
    vote counts its confidence times 0.35, 0.25, 0.25 and 0.15; the
    selected protocol received a vote and no voted protocol has a larger
    summed weighted confidence; the consensus score is the number of votes
    for the selected protocol divided by four, hence one of 0, 0.25, 0.5,
    0.75 and 1. *)
Theorem ensembleVoting_consensus (ps : list Candidate) (totalTrials : Z) (r : Rand) :
  ps <> [] -> in_unit r ->
  let r1 := snd (thompsonVote Math_sqrt sampleBeta ps r) in
  let r3 := snd (epsilonGreedyVote Math_sqrt Math_exp ps totalTrials r1) in
  exists res tv uv ev sv,
    fst (ensembleVoting Math_sqrt Math_exp Math_log sampleBeta ps totalTrials
           ensembleWeights r) = Some res
    /\ (fst (thompsonVote Math_sqrt sampleBeta ps r) = Some tv
        /\ ucbVote Math_sqrt Math_log ps totalTrials = Some uv
        /\ fst (epsilonGreedyVote Math_sqrt Math_exp ps totalTrials r1) = Some ev
        /\ fst (softmaxVote Math_exp ps totalTrials r3) = Some sv)
    /\ votes res = [tv; uv; ev; sv]
    /\ (let total k :=
          (if String.eqb (v_protocolId tv) k then (35 # 100) * confidence tv else 0)
          + (if String.eqb (v_protocolId uv) k then (25 # 100) * confidence uv else 0)
          + (if String.eqb (v_protocolId ev) k then (25 # 100) * confidence ev else 0)
          + (if String.eqb (v_protocolId sv) k then (15 # 100) * confidence sv else 0) in
        In (selectedProtocolId res) (map v_protocolId (votes res))
        /\ forall v, In v (votes res) ->
             total (v_protocolId v) <= total (selectedProtocolId res))
    /\ (exists p, In p ps /\ c_id p = selectedProtocolId res
                  /\ c_name p = selectedProtocolName res)
    /\ consensusScore res
       == inject_Z
            (Z.of_nat
               (length
                  (List.filter
                     (fun v => String.eqb (v_protocolId v) (selectedProtocolId res))
                     (votes res)))) / 4
    /\ (consensusScore res == 0 \/ consensusScore res == 1 # 4
        \/ consensusScore res == 1 # 2 \/ consensusScore res == 3 # 4
        \/ consensusScore res == 1).
Proof.
  intros Hps Hr r1 r3.
  assert (Hr1 : in_unit r1) by (apply thompsonVote_unit; exact Hr).
  destruct (thompsonVote_some ps r Hps) as [tv [Etv [Atv Itv]]].
  destruct (ucbVote_some ps totalTrials Hps) as [uv [Euv [Auv Iuv]]].
  destruct (epsilonGreedyVote_some ps totalTrials r1 Hps Hr1) as [ev [Eev [Aev Iev]]].
  destruct (softmaxVote_some ps totalTrials r3 Hps) as [sv [Esv [Asv Isv]]].
  unfold ensembleVoting. subst r1 r3.
  destruct (thompsonVote Math_sqrt sampleBeta ps r) as [v1 q1].
  cbn [fst snd] in *. subst v1.
  rewrite Euv.
  destruct (epsilonGreedyVote Math_sqrt Math_exp ps totalTrials q1) as [v3 q3].
  cbn [fst snd] in *. subst v3.
  destruct (softmaxVote Math_exp ps totalTrials q3) as [v4 q4].
  cbn [fst snd] in *. subst v4.
  set (vs := [tv; uv; ev; sv]).
  destruct (sortDesc snd (countVotes ensembleWeights vs)) as [| [kw tw] rest] eqn:E.
  { apply sortDesc_nil in E. now apply countVotes_nonempty in E. }
  destruct (countVotes_winner ensembleWeights vs kw tw rest E) as [Hkw Hmax].
  cbn [fst].
  assert (Hin : In kw (map c_id ps)).
  { cbn in Hkw. destruct Hkw as [<- | [<- | [<- | [<- | []]]]]; assumption. }
  destruct (find_id_some ps kw Hin) as [p Ep]. rewrite Ep.
  exists (mkResult kw (c_name p) vs
            (inject_Z (Z.of_nat
                         (length (List.filter
                                    (fun v => String.eqb (v_protocolId v) kw) vs)))
             / inject_Z (Z.of_nat (length vs)))),
    tv, uv, ev, sv.
  cbn [votes selectedProtocolId selectedProtocolName consensusScore fst].
  split; [reflexivity |].
  split; [repeat split; reflexivity |].
  split; [reflexivity |].
  assert (Htotal : forall k,
    (if String.eqb (v_protocolId tv) k then (35 # 100) * confidence tv else 0)
    + (if String.eqb (v_protocolId uv) k then (25 # 100) * confidence uv else 0)
    + (if String.eqb (v_protocolId ev) k then (25 # 100) * confidence ev else 0)
    + (if String.eqb (v_protocolId sv) k then (15 # 100) * confidence sv else 0)
    == weightedTotal ensembleWeights vs k).
  { intros k. unfold vs. cbn [weightedTotal]. rewrite Atv, Auv, Aev, Asv.
    cbn [weightOf ensembleWeights w_thompson w_ucb w_epsilonGreedy w_softmax].
    ring. }
  split.
  { split; [exact Hkw |]. intros v Hv. rewrite !Htotal. now apply Hmax. }
  split.
  { exists p. apply List.find_some in Ep. destruct Ep as [Hp Eid].
    apply String.eqb_eq in Eid. repeat split; assumption. }
  split; [reflexivity |].
  unfold vs. cbn [List.filter].
  destruct (String.eqb (v_protocolId tv) kw), (String.eqb (v_protocolId uv) kw),
    (String.eqb (v_protocolId ev) kw), (String.eqb (v_protocolId sv) kw);
    cbn [length];
    first [ now left
          | now (right; left)
          | now (right; right; left)
          | now (right; right; right; left)
          | now (right; right; right; right) ].
Qed.

End Voters.

Lemma exampleSampler_unit a b r :
  in_unit r -> in_unit (snd (exampleSampler a b r)).
Proof. intros H. exact H. Qed.

Lemma halves_unit : in_unit halves.
Proof. intros n. split; reflexivity || discriminate. Qed.

Lemma ensembleVoting_consensus_witness :
  exists res,
    fst (ensembleVoting approxSqrt exampleExp exampleLog exampleSampler
           (map (candidateOf closeRace) (getProtocolsByGoal focus)) 60
           ensembleWeights halves) = Some res
    /\ (consensusScore res == 0 \/ consensusScore res == 1 # 4
        \/ consensusScore res == 1 # 2 \/ consensusScore res == 3 # 4
        \/ consensusScore res == 1).
Proof.
  destruct (ensembleVoting_consensus approxSqrt exampleExp exampleLog
              exampleSampler exampleSampler_unit
              (map (candidateOf closeRace) (getProtocolsByGoal focus)) 60 halves)
    as [res [tv [uv [ev [sv [E [_ [_ [_ [_ [_ H]]]]]]]]]]].
  - discriminate.
  - exact halves_unit.
  - exists res. split; [exact E | exact H].
Defined.

(** * Further properties *)

(** ** Moments of the posterior *)

Lemma Qsquare_nonneg (x : Q) : 0 <= x * x.
Proof. destruct (Qlt_le_dec x 0); nra. Qed.

(** X1: for alpha, beta > 0 the posterior mean lies strictly between 0
    and 1, the variance equals mean * (1 - mean) / (alpha + beta + 1) and
    lies strictly between 0 and 1/4. *)
Theorem beta_moments_bounds (a b : Q) :
  0 < a -> 0 < b ->
  (0 < betaMean a b /\ betaMean a b < 1)
  /\ betaVariance a b == betaMean a b * (1 - betaMean a b) / (a + b + 1)
  /\ (0 < betaVariance a b /\ betaVariance a b < 1 # 4).
Proof.
  intros Ha Hb.
  assert (Hm : 0 < betaMean a b /\ betaMean a b < 1).
  { unfold betaMean. split; [apply Qlt_shift_div_l | apply Qlt_shift_div_r]; lra. }
  assert (Hv : betaVariance a b
               == betaMean a b * (1 - betaMean a b) / (a + b + 1)).
  { unfold betaVariance, betaMean. field. split; lra. }
  split; [exact Hm |]. split; [exact Hv |].
  rewrite Hv. set (m := betaMean a b) in *.
  assert (Hp : 0 < m * (1 - m)) by nra.
  pose proof (Qsquare_nonneg (m - (1 # 2))) as Hsq.
  assert (Hq : m * (1 - m) <= 1 # 4) by lra.
  split.
  - apply Qlt_shift_div_l; lra.
  - apply Qlt_shift_div_r; [lra |]. nra.
Qed.

Lemma beta_moments_bounds_witness : betaVariance 3 2 < 1 # 4.
Proof.
  apply (beta_moments_bounds 3 2); reflexivity.
Defined.

Section Interval.
Variable Math_sqrt : Q -> Q.
Hypothesis Math_sqrt_nonneg : forall x, 0 <= Math_sqrt x.

(** X2: for alpha, beta > 0 the credible interval is a sub-interval of
    [0, 1] that contains the posterior mean. *)
Theorem betaCredibleInterval_contains_mean (a b : Q) :
  0 < a -> 0 < b ->
  0 <= fst (betaCredibleInterval Math_sqrt a b)
  /\ fst (betaCredibleInterval Math_sqrt a b) <= betaMean a b
  /\ betaMean a b <= snd (betaCredibleInterval Math_sqrt a b)
  /\ snd (betaCredibleInterval Math_sqrt a b) <= 1.
Proof.
  intros Ha Hb. unfold betaCredibleInterval. cbn [fst snd].
  assert (Hm : 0 < betaMean a b /\ betaMean a b < 1).
  { unfold betaMean. split; [apply Qlt_shift_div_l | apply Qlt_shift_div_r]; lra. }
  pose proof (Math_sqrt_nonneg (betaVariance a b)) as Hs.
  repeat split.
  - apply Q.le_max_l.
  - apply Q.max_lub; lra.
  - apply Q.min_glb; lra.
  - apply Q.le_min_l.
Qed.

End Interval.

Lemma betaCredibleInterval_contains_mean_witness :
  betaMean 3 2 <= snd (betaCredibleInterval approxSqrt 3 2).
Proof.
  apply (betaCredibleInterval_contains_mean approxSqrt approxSqrt_nonneg 3 2);
    reflexivity.
Defined.

(** ** The drift window *)

Lemma Qsum_acc (l : list Q) (a : Q) : fold_left Qplus l a == a + Qsum l.
Proof.
  unfold Qsum. revert a. induction l as [| x l IH]; intros a; cbn [fold_left].
  - ring.
  - rewrite IH, (IH (0 + x)). ring.
Qed.

Lemma Qsum_cons (x : Q) (l : list Q) : Qsum (x :: l) == x + Qsum l.
Proof.
  unfold Qsum at 1. cbn [fold_left]. rewrite Qsum_acc. ring.
Qed.

Lemma Qsum_nonneg (l : list Q) : (forall x, In x l -> 0 <= x) -> 0 <= Qsum l.
Proof.
  induction l as [| x l IH]; intros H.
  - discriminate.
  - rewrite Qsum_cons.
    assert (0 <= x) by (apply H; now left).
    assert (0 <= Qsum l) by (apply IH; intros y Hy; apply H; now right).
    lra.
Qed.

(** The sum of squared deviations from any centre [m]. *)
Lemma Qsum_sqdev (l : list Q) (m : Q) :
  Qsum (map (fun v => (v - m) * (v - m)) l)
  == Qsum (map (fun v => v * v) l) - 2 * m * Qsum l
     + inject_Z (Z.of_nat (length l)) * m * m.
Proof.
  induction l as [| x l IH].
  - cbn. ring.
  - cbn [map length]. rewrite !Qsum_cons, IH.
    rewrite Nat2Z.inj_succ, <- Z.add_1_r, inject_Z_plus. ring.
Qed.

Lemma Qsum_squares_le (l : list Z) :
  (forall x, In x l -> (-1 <= x <= 1)%Z) ->
  Qsum (map (fun v => v * v) (map inject_Z l))
  <= inject_Z (Z.of_nat (length l)).
Proof.
  induction l as [| x l IH]; intros H.
  - discriminate.
  - cbn [map length]. rewrite Qsum_cons.
    rewrite Nat2Z.inj_succ, <- Z.add_1_r, inject_Z_plus.
    assert (Hx : (-1 <= x <= 1)%Z) by (apply H; now left).
    assert (Hq : inject_Z x * inject_Z x <= 1).
    { rewrite <- inject_Z_mult. change 1 with (inject_Z 1).
      rewrite <- Zle_Qle. nia. }
    assert (Hl : Qsum (map (fun v => v * v) (map inject_Z l))
                 <= inject_Z (Z.of_nat (length l))).
    { apply IH. intros y Hy. apply H. now right. }
    change (inject_Z 1) with 1. lra.
Qed.

Lemma Qsum_constant (l : list Z) (c : Z) :
  (forall x, In x l -> x = c) ->
  Qsum (map inject_Z l) == inject_Z (Z.of_nat (length l)) * inject_Z c.
Proof.
  induction l as [| x l IH]; intros H.
  - cbn. ring.
  - cbn [map length]. rewrite Qsum_cons, IH by (intros y Hy; apply H; now right).
    rewrite (H x (or_introl eq_refl)).
    rewrite Nat2Z.inj_succ, <- Z.add_1_r, inject_Z_plus. ring.
Qed.

Lemma Qsum_all_zero (l : list Q) : (forall x, In x l -> x == 0) -> Qsum l == 0.
Proof.
  induction l as [| x l IH]; intros H.
  - reflexivity.
  - rewrite Qsum_cons, (H x (or_introl eq_refl)), IH; [ring |].
    intros y Hy. apply H. now right.
Qed.

Lemma slice_last_suffix {A} (n : nat) (l : list A) :
  l = firstn (length l - n) l ++ slice_last n l.
Proof. unfold slice_last. symmetry. apply firstn_skipn. Qed.

Lemma slice_last_length {A} (n : nat) (l : list A) :
  length (slice_last n l) = Nat.min n (length l).
Proof. unfold slice_last. rewrite length_skipn. lia. Qed.

(** X3: the updated window holds the last five scores at most, is a
    suffix of the old window followed by the new score, and ends with the
    new score. *)
Theorem updateScoreWindow_window (w : list Z) (s : Z) :
  length (updateScoreWindow w s) = Nat.min 5 (S (length w))
  /\ (exists dropped, w ++ [s] = dropped ++ updateScoreWindow w s)
  /\ last (updateScoreWindow w s) = Some s.
Proof.
  unfold updateScoreWindow, DRIFT_WINDOW_SIZE.
  assert (Hlen : length (w ++ [s]) = S (length w))
    by (rewrite length_app; cbn; lia).
  destruct (Nat.ltb_spec 5 (length (w ++ [s]))) as [Hgt | Hle].
  - pose proof (slice_last_suffix 5 (w ++ [s])) as Hsuf.
    pose proof (slice_last_length 5 (w ++ [s])) as Hl.
    split; [lia |]. split; [eexists; exact Hsuf |].
    assert (Hne : slice_last 5 (w ++ [s]) <> []).
    { intros E. apply (f_equal length) in E. rewrite Hl in E.
      cbn [length] in E. lia. }
    pose proof (last_snoc s w) as Hlast. rewrite Hsuf in Hlast.
    rewrite last_app in Hlast.
    destruct (last (slice_last 5 (w ++ [s]))) as [x |] eqn:E; [exact Hlast |].
    apply last_None in E. contradiction.
  - split; [lia |]. split; [exists []; reflexivity | apply last_snoc].
Qed.

(** X4: the window variance is never negative, is at most 1 when every
    score is -1, 0 or 1, and is 0 for fewer than three scores and for a
    window of identical scores; in these two cases the drift gate stays
    closed whatever the clock and the last reset. *)
Theorem calculateRecentVariance_bounds (scores : list Z) :
  0 <= calculateRecentVariance scores
  /\ ((forall x, In x scores -> (-1 <= x <= 1)%Z) ->
      calculateRecentVariance scores <= 1)
  /\ ((length scores < 3)%nat \/ (forall x y, In x scores -> In y scores -> x = y) ->
      calculateRecentVariance scores == 0
      /\ forall nowMs last,
           shouldResetDueToDrift nowMs (calculateRecentVariance scores) last
           = false).
Proof.
  assert (Hgate : forall v, v == 0 ->
            forall nowMs last, shouldResetDueToDrift nowMs v last = false).
  { intros v Hv nowMs last. unfold shouldResetDueToDrift.
    replace (Qltb v DRIFT_VARIANCE_THRESHOLD) with true; [reflexivity |].
    symmetry. apply Qltb_lt. unfold DRIFT_VARIANCE_THRESHOLD. lra. }
  unfold calculateRecentVariance.
  destruct (Nat.ltb_spec (length scores) 3) as [Hshort | Hlong].
  { split; [lra |]. split; [intros _; lra |].
    intros _. split; [reflexivity | apply Hgate; reflexivity]. }
  set (n := inject_Z (Z.of_nat (length scores))).
  set (vals := map inject_Z scores).
  set (mean := Qsum vals / n).
  assert (Hn : 0 < n).
  { unfold n. change 0 with (inject_Z 0). rewrite <- Zlt_Qlt. lia. }
  assert (Hsq : 0 <= Qsum (map (fun v => (v - mean) * (v - mean)) vals)).
  { apply Qsum_nonneg. intros x Hx. apply in_map_iff in Hx.
    destruct Hx as [v [<- _]]. apply Qsquare_nonneg. }
  split; [apply Qle_shift_div_l; lra |].
  split.
  - intros Hrange. apply Qle_shift_div_r; [exact Hn |].
    rewrite Qsum_sqdev. unfold vals at 3. rewrite length_map. fold n.
    pose proof (Qsum_squares_le scores Hrange) as Hle. fold vals n in Hle.
    assert (Hmean : Qsum vals == n * mean) by (unfold mean; field; lra).
    rewrite Hmean.
    pose proof (Qsquare_nonneg mean) as Hmm.
    assert (0 <= n * (mean * mean)) by (apply Qmult_le_0_compat; lra).
    lra.
  - intros [Hshort | Hconst]; [lia |].
    assert (Hzero : Qsum (map (fun v => (v - mean) * (v - mean)) vals) == 0).
    { destruct scores as [| c rest]; [cbn in Hlong; lia |].
      assert (Hall : forall x, In x (c :: rest) -> x = c)
        by (intros x Hx; apply Hconst; [exact Hx | now left]).
      assert (Hmean : mean == inject_Z c).
      { unfold mean, vals. rewrite (Qsum_constant (c :: rest) c Hall).
        fold n. field. lra. }
      apply Qsum_all_zero. intros x Hx. apply in_map_iff in Hx.
      destruct Hx as [v [<- Hv]]. unfold vals in Hv. apply in_map_iff in Hv.
      destruct Hv as [z [<- Hz]]. rewrite (Hall z Hz), Hmean. ring. }
    assert (Hvar : Qsum (map (fun v => (v - mean) * (v - mean)) vals) / n == 0).
    { rewrite Hzero. field. lra. }
    split; [exact Hvar | apply Hgate; exact Hvar].
Qed.

Lemma calculateRecentVariance_bounds_witness :
  calculateRecentVariance [1; -1; 1; -1; 0]%Z <= 1.
Proof.
  apply (calculateRecentVariance_bounds [1; -1; 1; -1; 0]%Z).
  intros x Hx. cbn in Hx. lia.
Defined.

(** ** The recency analysis *)

Lemma In_firstn {A} (n : nat) (l : list A) (x : A) : In x (firstn n l) -> In x l.
Proof.
  intros H. rewrite <- (firstn_skipn n l). apply in_or_app. now left.
Qed.

Lemma In_skipn {A} (n : nat) (l : list A) (x : A) : In x (skipn n l) -> In x l.
Proof.
  intros H. rewrite <- (firstn_skipn n l). apply in_or_app. now right.
Qed.

Lemma deltaSum_bounds (l : list SessionRecord) (a : Q) :
  (forall s, In s l -> (-1 <= delta s <= 1)%Z) ->
  a - inject_Z (Z.of_nat (length l))
  <= fold_left (fun sum s => sum + inject_Z (delta s)) l a
  /\ fold_left (fun sum s => sum + inject_Z (delta s)) l a
     <= a + inject_Z (Z.of_nat (length l)).
Proof.
  revert a. induction l as [| s l IH]; intros a H; cbn [fold_left length].
  - change (inject_Z (Z.of_nat 0)) with 0. lra.
  - assert (Hs : (-1 <= delta s <= 1)%Z) by (apply H; now left).
    assert (Hq : - (1) <= inject_Z (delta s) /\ inject_Z (delta s) <= 1).
    { change (- (1)) with (inject_Z (-1)). change 1 with (inject_Z 1).
      rewrite <- !Zle_Qle. lia. }
    destruct (IH (a + inject_Z (delta s))) as [H1 H2];
      [intros y Hy; apply H; now right |].
    rewrite Nat2Z.inj_succ, <- Z.add_1_r, inject_Z_plus.
    change (inject_Z 1) with 1. lra.
Qed.

Lemma averageDelta_range (l : list SessionRecord) :
  l <> [] ->
  (forall s, In s l -> (-1 <= delta s <= 1)%Z) ->
  - (1) <= averageDelta l /\ averageDelta l <= 1.
Proof.
  intros Hne H. unfold averageDelta.
  destruct (deltaSum_bounds l 0 H) as [H1 H2].
  assert (Hn : 0 < inject_Z (Z.of_nat (length l))).
  { change 0 with (inject_Z 0). rewrite <- Zlt_Qlt.
    destruct l; [congruence | cbn [length]; lia]. }
  split; [apply Qle_shift_div_l | apply Qle_shift_div_r]; lra.
Qed.

(** X5: with fewer than 20 sessions of the protocol the analysis returns
    the "no recency" result with zero averages.  Otherwise it averages the
    last ten sessions and the ten before them, which together are the last
    twenty in order; the change is significant exactly when the two
    averages differ by more than 0.5, and both averages lie in [-1, 1]
    when every rating is -1, 0 or 1. *)
Theorem analyzeSessionHistory_windows (pid : string) (h : list SessionRecord) :
  let sessions := sessionsOf pid h in
  let recent := slice_last 10 sessions in
  let previous := slice_between 20 10 sessions in
  let r := analyzeSessionHistory pid h in
  ((length sessions < 20)%nat -> r = mkAnalysis false 0 0 false)
  /\ ((20 <= length sessions)%nat ->
      hasRecency r = true
      /\ (length recent = 10%nat /\ length previous = 10%nat
          /\ previous ++ recent = slice_last 20 sessions)
      /\ (recentAvg r = averageDelta recent
          /\ previousAvg r = averageDelta previous)
      /\ (significantChange r = true
          <-> 1 # 2 < Qabs (recentAvg r - previousAvg r))
      /\ ((forall s, In s sessions -> (-1 <= delta s <= 1)%Z) ->
          (- (1) <= recentAvg r /\ recentAvg r <= 1)
          /\ (- (1) <= previousAvg r /\ previousAvg r <= 1))).
Proof.
  intros sessions recent previous r.
  unfold r, analyzeSessionHistory. fold (sessionsOf pid h). fold sessions.
  destruct (Nat.ltb_spec (length sessions) 20) as [Hlt | Hge].
  - split; [reflexivity | lia].
  - split; [lia |]. intros _. fold recent previous.
    cbn [hasRecency recentAvg previousAvg significantChange].
    assert (Hrec : length recent = 10%nat).
    { unfold recent. rewrite slice_last_length. lia. }
    assert (Hprev : length previous = 10%nat).
    { unfold previous, slice_between. rewrite length_firstn, length_skipn. lia. }
    assert (Happ : previous ++ recent = slice_last 20 sessions).
    { unfold previous, recent, slice_between, slice_last.
      replace (length sessions - 10 - (length sessions - 20))%nat with 10%nat by lia.
      replace (length sessions - 10)%nat with (10 + (length sessions - 20))%nat by lia.
      rewrite <- skipn_skipn. apply firstn_skipn. }
    split; [reflexivity |]. split; [repeat split; assumption |].
    split; [split; reflexivity |]. split; [apply Qltb_lt |].
    intros Hrange. split.
    + apply averageDelta_range.
      * intros E. rewrite E in Hrec. discriminate.
      * intros s Hs. apply Hrange. now apply In_skipn in Hs.
    + apply averageDelta_range.
      * intros E. rewrite E in Hprev. discriminate.
      * intros s Hs. apply Hrange. unfold previous, slice_between in Hs.
        apply In_firstn, In_skipn in Hs. exact Hs.
Qed.

Lemma analyzeSessionHistory_windows_witness :
  analyzeSessionHistory "box-breathing"
    [mkSession 1 focus "box-breathing" 120 1;
     mkSession 2 focus "eye-break" 60 0]
  = mkAnalysis false 0 0 false.
Proof.
  apply (analyzeSessionHistory_windows "box-breathing"
           [mkSession 1 focus "box-breathing" 120 1;
            mkSession 2 focus "eye-break" 60 0]).
  cbn. lia.
Defined.

(** ** The feedback update *)

Lemma medStep_values (recent : list SessionRecord) :
  medStep recent = 10%Z \/ medStep recent = 15%Z \/ medStep recent = 20%Z.
Proof.
  unfold medStep.
  destruct (existsb _ recent); [now (right; right) |].
  destruct (_ && _); [now left | now (right; left)].
Qed.

(** The fields an update of [pid] writes whatever the ratings. *)
Lemma updateModel_touched clk pid dlt d st :
  exists m',
    models (loadData (updateModel clk pid dlt d st)) !! pid = Some m'
    /\ trials m'
       = (trials (match models (loadData st) !! pid with
                  | Some m => m
                  | None => freshModel
                  end) + 1)%Z
    /\ lastDelta m' = Some dlt
    /\ lastUsedISO m' = Some (now clk).
Proof.
  unfold updateModel, saveData, loadData at 1. cbn [models].
  rewrite lookup_insert_eq. eexists. split; [reflexivity |].
  repeat split; reflexivity.
Qed.

(** X6: a feedback update rewrites the model of the rated protocol only:
    every other model, the history and the streak are as before; the
    rated model counts one trial more (one trial for a protocol without a
    model) and records the rating and the time of use. *)
Theorem updateModel_frame (clk : Clock) (pid : string) (dlt d : Z) (st : Storage) :
  let st' := updateModel clk pid dlt d st in
  (forall k, k <> pid ->
     models (loadData st') !! k = models (loadData st) !! k)
  /\ history (loadData st') = history (loadData st)
  /\ streak (loadData st') = streak (loadData st)
  /\ exists m',
       models (loadData st') !! pid = Some m'
       /\ trials m'
          = match models (loadData st) !! pid with
            | Some m => (trials m + 1)%Z
            | None => 1%Z
            end
       /\ lastDelta m' = Some dlt
       /\ lastUsedISO m' = Some (now clk).
Proof.
  intros st'. split; [intros k Hk; now apply updateModel_other |].
  split; [reflexivity |]. split; [reflexivity |].
  destruct (updateModel_touched clk pid dlt d st) as [m' [Hm [Ht [Hd Hu]]]].
  exists m'. split; [exact Hm |]. split; [| split; assumption].
  rewrite Ht. destruct (models (loadData st) !! pid); reflexivity.
Qed.

Lemma updateModel_frame_witness :
  models (loadData (updateModel morning "box-breathing" 1 100 (Some closeRace)))
    !! "eye-break"
  = models closeRace !! "eye-break".
Proof.
  apply (updateModel_frame morning "box-breathing" 1 100 (Some closeRace)).
  discriminate.
Defined.

(** X7: a session of 45 to 180 seconds leaves a stored dose of 45 to 180
    seconds.  A "better" rating never raises the dose, a "worse" rating
    never lowers it, any other rating stores the session duration, and the
    dose moves by at most 20 seconds. *)
Theorem updateModel_dose_bounds (clk : Clock) (pid : string) (dlt d : Z)
    (st : Storage) :
  (45 <= d <= 180)%Z ->
  exists dose,
    storedDose pid (updateModel clk pid dlt d st) = Some dose
    /\ (45 <= dose <= 180)%Z
    /\ (dlt = 1%Z -> dose <= d)%Z
    /\ (dlt = (-1)%Z -> d <= dose)%Z
    /\ (dlt <> 1%Z -> dlt <> (-1)%Z -> dose = d)
    /\ (Z.abs (dose - d) <= 20)%Z.
Proof.
  intros Hd. rewrite updateModel_dose. eexists. split; [reflexivity |].
  cbv zeta.
  destruct (medStep_values (recentSessionsOf pid (history (loadData st))))
    as [E | [E | E]]; rewrite E;
    destruct (Z.eqb_spec dlt 1) as [-> | H1];
    try destruct (Z.eqb_spec dlt (-1)) as [-> | H2];
    repeat split; intros; try lia.
Qed.

Lemma updateModel_dose_bounds_witness :
  exists dose,
    storedDose "box-breathing"
      (updateModel morning "box-breathing" 1 50 None) = Some dose
    /\ (45 <= dose <= 180)%Z.
Proof.
  destruct (updateModel_dose_bounds morning "box-breathing" 1 50 None)
    as [dose [E [H _]]]; [lia |].
  exists dose. split; [exact E | exact H].
Defined.

(** X8: [adjustDuration] keeps a duration of 45 to 180 seconds in that
    range, moves it by at most 15 seconds, down for "better" and up for
    "worse", and returns it unchanged for any other rating. *)
Theorem adjustDuration_bounds (pid : string) (baseDuration lastDelta : Z) :
  (45 <= baseDuration <= 180)%Z ->
  (45 <= adjustDuration pid baseDuration lastDelta <= 180)%Z
  /\ (Z.abs (adjustDuration pid baseDuration lastDelta - baseDuration) <= 15)%Z
  /\ (lastDelta = 1%Z -> adjustDuration pid baseDuration lastDelta <= baseDuration)%Z
  /\ (lastDelta = (-1)%Z -> baseDuration <= adjustDuration pid baseDuration lastDelta)%Z
  /\ (lastDelta <> 1%Z -> lastDelta <> (-1)%Z ->
      adjustDuration pid baseDuration lastDelta = baseDuration).
Proof.
  intros H. unfold adjustDuration, MIN_DURATION, MAX_DURATION, MED_STEP.
  destruct (Z.eqb_spec lastDelta 1) as [-> | H1];
    try destruct (Z.eqb_spec lastDelta (-1)) as [-> | H2];
    repeat split; intros; try lia.
Qed.

Lemma adjustDuration_bounds_witness :
  (45 <= adjustDuration "box-breathing" 50 1 <= 180)%Z.
Proof.
  apply (adjustDuration_bounds "box-breathing" 50 1). lia.
Defined.

(** X9: while the cooldown of the last reset runs (a non-zero reset time
    less than 3,600,000 ms back), a feedback update is the plain conjugate
    update: alpha grows by the reward and beta by one minus the reward,
    the reset time is kept and the score window takes the new rating. *)
Theorem updateModel_within_cooldown (clk : Clock) (pid : string) (dlt d : Z)
    (st : Storage) (m : ProtocolModel) (t : Z) :
  models (loadData st) !! pid = Some m ->
  lastResetTimestamp m = Some t -> t <> 0%Z ->
  (now clk - t < 3600000)%Z ->
  exists m',
    models (loadData (updateModel clk pid dlt d st)) !! pid = Some m'
    /\ alphaParam m' = Some (orQ (alphaParam m) 1 + deltaToReward dlt)
    /\ betaParam m' = Some (orQ (betaParam m) 1 + (1 - deltaToReward dlt))
    /\ lastResetTimestamp m' = Some t
    /\ windowScores m'
       = Some (updateScoreWindow
                 (match windowScores m with Some w => w | None => [] end) dlt).
Proof.
  intros Hm Ht Hne Hcool.
  assert (Hgate : forall v, shouldResetDueToDrift (now clk) v (Some t) = false).
  { intros v. unfold shouldResetDueToDrift, DRIFT_COOLDOWN_MS.
    destruct (Qltb v DRIFT_VARIANCE_THRESHOLD); [reflexivity |].
    destruct (Z.eqb_spec t 0); [contradiction |].
    destruct (Z.ltb_spec (now clk - t) 3600000); [reflexivity | lia]. }
  unfold updateModel, saveData, loadData at 1. cbn [models].
  rewrite lookup_insert_eq, Hm, Ht, Hgate. eexists. split; [reflexivity |].
  repeat split; reflexivity.
Qed.

Lemma updateModel_within_cooldown_witness :
  exists m',
    models (loadData (updateModel (mkClock 1000 9) "box-breathing" 1 100
                        (Some driftingRace))) !! "box-breathing" = Some m'
    /\ alphaParam m' = Some (orQ (Some 20) 1 + deltaToReward 1).
Proof.
  destruct (updateModel_within_cooldown (mkClock 1000 9) "box-breathing" 1 100
              (Some driftingRace)
              (exampleModel 25 20 6 (1 # 2) (1 # 2) (Some 1%Z) usedAtNine) 1)
    as [m' [E [Ha _]]]; [reflexivity | reflexivity | discriminate | reflexivity |].
  exists m'. split; [exact E | exact Ha].
Defined.

(** X10: recording a rating does nothing while the session has no goal
    or no protocol; otherwise it appends exactly the rated session to the
    history, adds one trial to the rated protocol and leaves every other
    model and the streak as they were. *)
Theorem saveRating_records (clk : Clock) (ss : SessionState) (dlt : Z)
    (st : Storage) :
  (ss_goal ss = None \/ ss_protocol ss = None -> saveRating clk ss dlt st = st)
  /\ (forall g p,
        ss_goal ss = Some g -> ss_protocol ss = Some p ->
        let st' := saveRating clk ss dlt st in
        history (loadData st')
        = history (loadData st)
          ++ [mkSession (now clk) g (id p) (ss_duration ss) dlt]
        /\ streak (loadData st') = streak (loadData st)
        /\ (forall k, k <> id p ->
              models (loadData st') !! k = models (loadData st) !! k)
        /\ exists m',
             models (loadData st') !! id p = Some m'
             /\ trials m'
                = match models (loadData st) !! id p with
                  | Some m => (trials m + 1)%Z
                  | None => 1%Z
                  end).
Proof.
  split.
  - unfold saveRating. intros [E | E]; rewrite E; [reflexivity |].
    destruct (ss_goal ss); reflexivity.
  - intros g p Eg Ep st'. unfold st', saveRating. rewrite Eg, Ep.
    set (record := mkSession (now clk) g (id p) (ss_duration ss) dlt).
    split; [reflexivity |]. split; [reflexivity |].
    split; [intros k Hk; rewrite updateModel_other by exact Hk; reflexivity |].
    destruct (updateModel_touched clk (id p) dlt (ss_duration ss)
                (addSession record st)) as [m' [Hm [Ht _]]].
    exists m'. split; [exact Hm |]. rewrite Ht.
    unfold addSession, saveData, loadData at 1. cbn [models].
    destruct (models (loadData st) !! id p); reflexivity.
Qed.

Lemma saveRating_records_witness :
  saveRating morning (mkSessionState None (Some box_breathing) 120) 1
    (Some closeRace)
  = Some closeRace.
Proof.
  apply (saveRating_records morning
           (mkSessionState None (Some box_breathing) 120) 1 (Some closeRace)).
  left. reflexivity.
Defined.

(** ** The hourly sub-models *)

(** X11: an hourly update touches the sub-model of the given hour only
    and no other field of the model.  The sub-model (the uniform one when
    the hour is new) gains one trial, its alpha the reward and its beta
    one minus the reward, so alpha + beta = 2 + trials is kept; its
    average becomes the running average over the new trial count. *)
Theorem updateHourlyModel_hour (model : ProtocolModel) (hr : Z) (reward : Q) :
  let hms := match hourlyModels model with Some m => m | None => ∅ end in
  let old := match hms !! hr with Some x => x | None => initializeHourlyModel end in
  let model' := updateHourlyModel model hr reward in
  exists hms' hm',
    hourlyModels model' = Some hms'
    /\ hms' !! hr = Some hm'
    /\ (forall h, h <> hr -> hms' !! h = hms !! h)
    /\ (h_trials hm' = (h_trials old + 1)%Z
        /\ h_alpha hm' = h_alpha old + reward
        /\ h_beta hm' = h_beta old + (1 - reward)
        /\ h_avg hm'
           == (h_avg old * inject_Z (h_trials old) + reward)
              / inject_Z (h_trials old + 1))
    /\ (h_alpha old + h_beta old == 2 + inject_Z (h_trials old) ->
        h_alpha hm' + h_beta hm' == 2 + inject_Z (h_trials hm'))
    /\ (trials model' = trials model
        /\ avg model' = avg model
        /\ lastUsedISO model' = lastUsedISO model
        /\ lastDelta model' = lastDelta model
        /\ medDuration model' = medDuration model
        /\ hourlyPerformance model' = hourlyPerformance model
        /\ emaAvg model' = emaAvg model
        /\ alphaParam model' = alphaParam model
        /\ betaParam model' = betaParam model
        /\ recentVariance model' = recentVariance model
        /\ lastResetTimestamp model' = lastResetTimestamp model
        /\ windowScores model' = windowScores model).
Proof.
  intros hms old model'.
  unfold model', updateHourlyModel, set_hourlyModels.
  cbn [hourlyModels trials avg lastUsedISO lastDelta medDuration
       hourlyPerformance emaAvg alphaParam betaParam recentVariance
       lastResetTimestamp windowScores].
  fold hms. fold old.
  eexists. eexists. split; [reflexivity |].
  split; [apply lookup_insert_eq |].
  split; [intros h Hh; apply lookup_insert_ne; congruence |].
  cbn [h_trials h_alpha h_beta h_avg].
  split.
  { split; [reflexivity |]. split; [reflexivity |]. split; [reflexivity |].
    replace (h_trials old + 1 - 1)%Z with (h_trials old) by lia.
    reflexivity. }
  split; [| repeat split; reflexivity].
  intros H. rewrite inject_Z_plus. change (inject_Z 1) with 1. lra.
Qed.

Lemma updateHourlyModel_hour_witness :
  exists hms' hm',
    hourlyModels (updateHourlyModel freshModel 9 1) = Some hms'
    /\ hms' !! 9%Z = Some hm'
    /\ h_alpha hm' + h_beta hm' == 2 + inject_Z (h_trials hm').
Proof.
  destruct (updateHourlyModel_hour freshModel 9 1)
    as [hms' [hm' [E [Eh [_ [_ [Hinv _]]]]]]].
  exists hms', hm'. split; [exact E |]. split; [exact Eh |].
  apply Hinv. reflexivity.
Defined.

(** ** What a selection returns *)

Lemma pickRandom_In {A} (l : list A) (u : Q) (x : A) :
  pickRandom l u = Some x -> In x l.
Proof.
  unfold pickRandom, at_index. destruct (_ <? 0)%Z; [discriminate |].
  apply nth_error_In.
Qed.

Lemma candidates_support (g : Goal) (p : Protocol) :
  In p (getProtocolsByGoal g) <-> In p protocols /\ In g (supports p).
Proof.
  unfold getProtocolsByGoal. rewrite List.filter_In.
  split; intros [Hp Hs]; (split; [exact Hp |]).
  - apply List.existsb_exists in Hs. destruct Hs as [g' [Hg' E]].
    destruct g, g'; try discriminate; exact Hg'.
  - apply List.existsb_exists. exists g. split; [exact Hs |].
    destruct g; reflexivity.
Qed.

Section Results.
Variables Math_sqrt Math_exp Math_log : Q -> Q.
Variable sampleBeta : Q -> Q -> Rand -> Q * Rand.

Local Abbreviation select := (selectProtocol Math_sqrt Math_exp Math_log sampleBeta).

Lemma scoreStep_best data cs acc :
  (forall p, fst (fst acc) = Some p -> In p cs \/ head cs = Some p) ->
  forall cs' p,
    (forall q, In q cs' -> In q cs) ->
    fst (fst (fold_left (scoreStep Math_sqrt sampleBeta data) cs' acc)) = Some p ->
    In p cs \/ head cs = Some p.
Proof.
  intros Hacc cs'. revert acc Hacc.
  induction cs' as [| q cs' IH]; intros acc Hacc p Hsub; cbn [fold_left].
  - apply Hacc.
  - apply IH; [| intros x Hx; apply Hsub; now right].
    intros x. destruct acc as [[best score] r]. unfold scoreStep.
    assert (Hq : In q cs) by (apply Hsub; now left).
    cbn [fst] in Hacc.
    cbv beta zeta.
    destruct (negb _);
      [cbn [random] | destruct (sampleBeta _ _ r) as [sampledValue r1]];
      (destruct score as [b |];
       [match goal with |- context [Qltb b ?s] => destruct (Qltb b s) end |]);
      cbn [fst]; intros E;
      first [exact (Hacc _ E) | injection E as <-; now left].
Qed.

(** X12: whatever a selection returns is a catalog protocol that
    supports the requested goal.  From the three exploration branches it
    comes at its base duration, from the voting and sampling branches at
    the dose stored for it, or at its base duration when none is stored. *)
Theorem selectProtocol_result (clk : Clock) (g : Goal) (st : Storage) (r : Rand)
    (p : Protocol) (d : Z) :
  out_result (select clk g st r) = Some (p, d) ->
  (In p protocols /\ In g (supports p))
  /\ (sweepReached (out_phase (select clk g st r)) = false -> d = baseSeconds p)
  /\ (sweepReached (out_phase (select clk g st r)) = true ->
      d = orZ (models (loadData (out_storage (select clk g st r))) !! id p
               ≫= medDuration) (baseSeconds p)).
Proof.
  intros H.
  assert (G : In p (getProtocolsByGoal g)
              /\ (sweepReached (out_phase (select clk g st r)) = false ->
                  d = baseSeconds p)
              /\ (sweepReached (out_phase (select clk g st r)) = true ->
                  d = orZ (models (loadData (out_storage (select clk g st r)))
                             !! id p ≫= medDuration) (baseSeconds p))).
  { revert H. unfold selectProtocol.
    set (cs := getProtocolsByGoal g).
    destruct (0 <? length (List.filter (isUntried (loadData st)) cs))%nat.
    { cbn [random out_result out_phase sweepReached]. intros H.
      destruct (pickRandom _ _) as [x |] eqn:E; [| discriminate].
      injection H as <- <-. apply pickRandom_In, List.filter_In in E.
      split; [apply E |]. split; [reflexivity | discriminate]. }
    destruct (0 <? length (List.filter (isUndertried (loadData st)) cs))%nat.
    { cbn [random out_result out_phase sweepReached]. intros H.
      destruct (pickRandom _ _) as [x |] eqn:E; [| discriminate].
      injection H as <- <-. apply pickRandom_In, List.filter_In in E.
      split; [apply E |]. split; [reflexivity | discriminate]. }
    destruct (0 <? length (List.filter (isHourlyUndertried _ (loadData st)) cs))%nat.
    { cbn [random out_result out_phase sweepReached]. intros H.
      destruct (pickRandom _ _) as [x |] eqn:E; [| discriminate].
      injection H as <- <-. apply pickRandom_In, List.filter_In in E.
      split; [apply E |]. split; [reflexivity | discriminate]. }
    assert (Hload :
      loadData (snd (driftSweep (now clk) cs (loadData st) st))
      = fst (driftSweep (now clk) cs (loadData st) st)).
    { destruct (driftSweep_saved (now clk) cs (loadData st) st) as [E | E];
        rewrite E; reflexivity. }
    destruct (isCloseCompetition _);
      cbn [out_result out_phase out_storage sweepReached]; rewrite Hload.
    - intros H.
      destruct (fst (ensembleVoting _ _ _ _ _ _ _ _) ≫= _) as [x |] eqn:E;
        [| discriminate].
      injection H as <- <-.
      destruct (fst (ensembleVoting _ _ _ _ _ _ _ _)) as [res |];
        [| discriminate].
      cbn in E. apply List.find_some in E.
      split; [apply E |]. split; [discriminate | reflexivity].
    - intros H.
      destruct (fst (fst (fold_left _ cs _))) as [x |] eqn:E; [| discriminate].
      injection H as <- <-.
      split; [| split; [discriminate | reflexivity]].
      destruct (scoreStep_best (loadData (snd (driftSweep (now clk) cs (loadData st) st)))
                  cs (head cs, None, r)) with (cs' := cs) (p := x)
        as [Hin | Hhead].
      + cbn [fst]. intros q Hq. now right.
      + intros q Hq. exact Hq.
      + rewrite Hload. exact E.
      + exact Hin.
      + destruct cs; [discriminate |]. injection Hhead as <-. now left. }
  destruct G as [Hin Hd]. split; [now apply candidates_support | exact Hd].
Qed.

End Results.

Lemma selectProtocol_result_witness :
  In box_breathing protocols /\ In focus (supports box_breathing).
Proof.
  apply (selectProtocol_result approxSqrt exampleExp exampleLog exampleSampler
           morning focus (Some closeRace) halves box_breathing 100).
  vm_compute. reflexivity.
Defined.

(** ** Exploring untried protocols *)

Lemma filter_nonempty {A} (f : A -> bool) (l : list A) (x : A) :
  In x l -> f x = true -> (0 <? length (List.filter f l))%nat = true.
Proof.
  intros Hx Hf. apply Nat.ltb_lt.
  assert (H : In x (List.filter f l)) by (apply List.filter_In; now split).
  destruct (List.filter f l); [inversion H | cbn [length]; lia].
Qed.

Lemma pickRandom_index {A} (l : list A) (i : nat) (x : A) :
  nth_error l i = Some x ->
  pickRandom l (inject_Z (Z.of_nat i) / inject_Z (Z.of_nat (length l))) = Some x.
Proof.
  intros E.
  assert (Hi : (i < length l)%nat) by (apply nth_error_Some; congruence).
  unfold pickRandom, at_index.
  assert (Hn : ~ inject_Z (Z.of_nat (length l)) == 0).
  { change 0 with (inject_Z 0). rewrite inject_Z_injective. lia. }
  assert (Hfloor : Qfloor (inject_Z (Z.of_nat i) / inject_Z (Z.of_nat (length l))
                           * inject_Z (Z.of_nat (length l)))
                   = Z.of_nat i).
  { assert (Heq : inject_Z (Z.of_nat i) / inject_Z (Z.of_nat (length l))
                  * inject_Z (Z.of_nat (length l))
                  == inject_Z (Z.of_nat i)) by (field; exact Hn).
    rewrite Heq. apply Qfloor_Z. }
  rewrite Hfloor.
  destruct (Z.ltb_spec (Z.of_nat i) 0); [lia |].
  rewrite Nat2Z.id. exact E.
Qed.

Section Untried.
Variables Math_sqrt Math_exp Math_log : Q -> Q.
Variable sampleBeta : Q -> Q -> Rand -> Q * Rand.

Local Abbreviation select := (selectProtocol Math_sqrt Math_exp Math_log sampleBeta).

Lemma untried_branch clk g st r p :
  In p (getProtocolsByGoal g) -> isUntried (loadData st) p = true ->
  select clk g st r
  = mkOutcome ExploringUntried
      ((fun q => (q, baseSeconds q))
         <$> pickRandom (List.filter (isUntried (loadData st)) (getProtocolsByGoal g))
               (draws r (pos r)))
      st (mkRand (draws r) (S (pos r))).
Proof.
  intros Hp Hu. unfold selectProtocol.
  rewrite (filter_nonempty _ _ p Hp Hu). reflexivity.
Qed.

(** X13: as long as some candidate of the goal has no model or no trial,
    a selection explores: it leaves the storage alone and returns, at its
    base duration, a candidate that is itself untried; with a draw in
    [0, 1) it does return one, and every untried candidate is returned for
    some draw. *)
Theorem untried_candidates_explored (clk : Clock) (g : Goal) (st : Storage)
    (r : Rand) (p : Protocol) :
  In p (getProtocolsByGoal g) -> isUntried (loadData st) p = true ->
  out_phase (select clk g st r) = ExploringUntried
  /\ out_storage (select clk g st r) = st
  /\ (forall q d,
        out_result (select clk g st r) = Some (q, d) ->
        In q (getProtocolsByGoal g) /\ isUntried (loadData st) q = true
        /\ d = baseSeconds q)
  /\ (in_unit r -> exists q, out_result (select clk g st r) = Some (q, baseSeconds q))
  /\ (exists u, (0 <= u /\ u < 1)
                /\ out_result (select clk g st (mkRand (fun _ => u) 0))
                   = Some (p, baseSeconds p)).
Proof.
  intros Hp Hu.
  rewrite (untried_branch clk g st r p Hp Hu). cbn [out_phase out_storage out_result].
  set (l := List.filter (isUntried (loadData st)) (getProtocolsByGoal g)).
  assert (Hl : In p l) by (apply List.filter_In; now split).
  split; [reflexivity |]. split; [reflexivity |]. split; [| split].
  - intros q d H. destruct (pickRandom l _) as [x |] eqn:E; [| discriminate].
    injection H as <- <-. apply pickRandom_In, List.filter_In in E.
    destruct E as [E1 E2]. repeat split; assumption.
  - intros Hr. destruct (pickRandom_some l (draws r (pos r))) as [x [E _]];
      try apply Hr.
    + intros E. rewrite E in Hl. inversion Hl.
    + exists x. rewrite E. reflexivity.
  - apply In_nth_error in Hl. destruct Hl as [i Hi].
    assert (Hlt : (i < length l)%nat) by (apply nth_error_Some; congruence).
    exists (inject_Z (Z.of_nat i) / inject_Z (Z.of_nat (length l))).
    assert (Hn : 0 < inject_Z (Z.of_nat (length l))).
    { change 0 with (inject_Z 0). rewrite <- Zlt_Qlt. lia. }
    split.
    + split.
      * apply Qle_shift_div_l; [exact Hn |]. rewrite Qmult_0_l.
        change 0 with (inject_Z 0). rewrite <- Zle_Qle. lia.
      * apply Qlt_shift_div_r; [exact Hn |]. rewrite Qmult_1_l.
        rewrite <- Zlt_Qlt. lia.
    + rewrite (untried_branch clk g st _ p Hp Hu). cbn [out_result draws pos].
      fold l. rewrite (pickRandom_index l i p Hi). reflexivity.
Qed.

(** X14: when a selection reaches the drift sweep and a candidate's
    stored variance and reset time signal drift, the call leaves the reset
    model in storage for that candidate; the candidate is then untried, so
    the next selection for the goal, at any time and with any draws,
    explores and leaves the storage as it is. *)
Theorem drift_reset_then_explore (clk clk' : Clock) (g : Goal) (st : Storage)
    (r r' : Rand) (p : Protocol) (m : ProtocolModel) :
  In p (getProtocolsByGoal g) ->
  models (loadData st) !! id p = Some m ->
  driftSignalled (now clk) m = true ->
  sweepReached (out_phase (select clk g st r)) = true ->
  let st' := out_storage (select clk g st r) in
  models (loadData st') !! id p = Some (resetModel (now clk))
  /\ out_phase (select clk' g st' r') = ExploringUntried
  /\ out_storage (select clk' g st' r') = st'.
Proof.
  intros Hp Hm Hd Hreach st'.
  assert (Hreset : models (loadData st') !! id p = Some (resetModel (now clk))).
  { unfold st'. rewrite selectProtocol_models, Hm, Hreach, Hd.
    replace (isCandidate (getProtocolsByGoal g) (id p)) with true; [reflexivity |].
    symmetry. apply List.existsb_exists. exists p.
    split; [exact Hp | apply String.eqb_refl]. }
  split; [exact Hreset |].
  assert (Hu : isUntried (loadData st') p = true).
  { unfold isUntried. rewrite Hreset. reflexivity. }
  rewrite (untried_branch clk' g st' r' p Hp Hu). split; reflexivity.
Qed.

End Untried.

Lemma untried_candidates_explored_witness :
  out_phase (selectProtocol approxSqrt exampleExp exampleLog exampleSampler
               morning focus None halves)
  = ExploringUntried.
Proof.
  apply (untried_candidates_explored approxSqrt exampleExp exampleLog
           exampleSampler morning focus None halves box_breathing);
    [vm_compute; tauto | reflexivity].
Defined.

Lemma drift_reset_then_explore_witness :
  out_phase
    (selectProtocol approxSqrt exampleExp exampleLog exampleSampler
       morning focus
       (out_storage
          (selectProtocol approxSqrt exampleExp exampleLog exampleSampler
             morning focus (Some driftingRace) halves))
       halves)
  = ExploringUntried.
Proof.
  apply (drift_reset_then_explore approxSqrt exampleExp exampleLog
           exampleSampler morning morning focus (Some driftingRace) halves
           halves box_breathing
           (exampleModel 25 20 6 (1 # 2) (1 # 2) (Some 1%Z) usedAtNine));
    [vm_compute; tauto | reflexivity | reflexivity | reflexivity].
Defined.

(** ** A selection always returns *)

Section Totality.
Variables Math_sqrt Math_exp Math_log : Q -> Q.
Variable sampleBeta : Q -> Q -> Rand -> Q * Rand.
Hypothesis sampleBeta_unit :
  forall a b r, in_unit r -> in_unit (snd (sampleBeta a b r)).

(** The vote returns a protocol of the list, whatever the weights. *)
Lemma ensembleVoting_some ps totalTrials weights r :
  ps <> [] -> in_unit r ->
  exists res,
    fst (ensembleVoting Math_sqrt Math_exp Math_log sampleBeta ps totalTrials
           weights r) = Some res
    /\ In (selectedProtocolId res) (map c_id ps).
Proof.
  intros Hps Hr.
  pose proof (thompsonVote_unit Math_sqrt sampleBeta sampleBeta_unit ps r Hr) as Hr1.
  destruct (thompsonVote_some Math_sqrt sampleBeta ps r Hps) as [tv [Etv [_ Itv]]].
  destruct (ucbVote_some Math_sqrt Math_log ps totalTrials Hps) as [uv [Euv [_ Iuv]]].
  unfold ensembleVoting.
  destruct (thompsonVote Math_sqrt sampleBeta ps r) as [v1 q1].
  cbn [fst snd] in *. subst v1. rewrite Euv.
  destruct (epsilonGreedyVote_some Math_sqrt Math_exp ps totalTrials q1 Hps Hr1)
    as [ev [Eev [_ Iev]]].
  destruct (epsilonGreedyVote Math_sqrt Math_exp ps totalTrials q1) as [v3 q3].
  cbn [fst snd] in *. subst v3.
  destruct (softmaxVote_some Math_exp ps totalTrials q3 Hps) as [sv [Esv [_ Isv]]].
  destruct (softmaxVote Math_exp ps totalTrials q3) as [v4 q4].
  cbn [fst snd] in *. subst v4.
  destruct (sortDesc snd (countVotes weights [tv; uv; ev; sv]))
    as [| [kw tw] rest] eqn:E.
  { apply sortDesc_nil in E. now apply countVotes_nonempty in E. }
  destruct (countVotes_winner weights [tv; uv; ev; sv] kw tw rest E) as [Hkw _].
  assert (Hin : In kw (map c_id ps)).
  { cbn in Hkw. destruct Hkw as [<- | [<- | [<- | [<- | []]]]]; assumption. }
  cbn [fst]. destruct (find_id_some ps kw Hin) as [p Ep]. rewrite Ep.
  eexists. split; [reflexivity | exact Hin].
Qed.

Lemma scoreStep_some data cs acc :
  is_Some (fst (fst acc)) ->
  is_Some (fst (fst (fold_left (scoreStep Math_sqrt sampleBeta data) cs acc))).
Proof.
  revert acc. induction cs as [| q cs IH]; intros acc H; cbn [fold_left];
    [exact H |].
  apply IH. destruct acc as [[best score] r]. cbn [fst] in H.
  unfold scoreStep. cbv beta zeta.
  destruct (negb _);
    [cbn [random] | destruct (sampleBeta _ _ r) as [sampledValue r1]];
    (destruct score as [b |];
     [match goal with |- context [Qltb b ?s] => destruct (Qltb b s) end |]);
    cbn [fst]; first [exact H | eexists; reflexivity].
Qed.

(** X15: with draws in [0, 1) a selection returns a protocol and a
    duration for every goal, every stored state and every clock: none of
    its branches reads a property of [undefined]. *)
Theorem selectProtocol_returns (clk : Clock) (g : Goal) (st : Storage) (r : Rand) :
  in_unit r ->
  exists p d,
    out_result
      (selectProtocol Math_sqrt Math_exp Math_log sampleBeta clk g st r)
    = Some (p, d).
Proof.
  intros Hr. unfold selectProtocol.
  set (cs := getProtocolsByGoal g).
  assert (Hcs : cs <> []) by (unfold cs; destruct g; discriminate).
  assert (Hpick : forall l : list Protocol,
            (0 <? length l)%nat = true ->
            exists p d,
              (fun q => (q, baseSeconds q)) <$> pickRandom l (draws r (pos r))
              = Some (p, d)).
  { intros l Hl. apply Nat.ltb_lt in Hl.
    destruct (pickRandom_some l (draws r (pos r))) as [x [E _]]; try apply Hr.
    - intros E. rewrite E in Hl. cbn in Hl. lia.
    - exists x, (baseSeconds x). rewrite E. reflexivity. }
  destruct (0 <? length (List.filter (isUntried (loadData st)) cs))%nat eqn:E1;
    [apply Hpick; exact E1 |].
  destruct (0 <? length (List.filter (isUndertried (loadData st)) cs))%nat eqn:E2;
    [apply Hpick; exact E2 |].
  destruct (0 <? length (List.filter (isHourlyUndertried _ (loadData st)) cs))%nat
    eqn:E3; [apply Hpick; exact E3 |].
  set (data := fst (driftSweep (now clk) cs (loadData st) st)).
  destruct (isCloseCompetition _); cbn [out_result].
  - set (ps := map (candidateOf data) cs).
    assert (Hps : ps <> []) by (unfold ps; destruct cs; [congruence | discriminate]).
    destruct (ensembleVoting_some ps
                (fold_left (fun sum p => (sum + c_trials p)%Z) ps 0%Z)
                ensembleWeights r Hps Hr) as [res [Eres Hin]].
    rewrite Eres. cbn [mbind option_bind].
    assert (Hid : In (selectedProtocolId res) (map id cs)).
    { unfold ps in Hin. rewrite map_map in Hin. exact Hin. }
    apply in_map_iff in Hid. destruct Hid as [p [Eid Hp]].
    destruct (List.find _ cs) as [q |] eqn:F.
    + eexists. eexists. reflexivity.
    + pose proof (List.find_none _ _ F p Hp) as Hn. cbn in Hn.
      rewrite Eid, String.eqb_refl in Hn. discriminate.
  - destruct (scoreStep_some data cs (head cs, None, r)) as [p Ep].
    + cbn [fst]. destruct cs; [congruence | eexists; reflexivity].
    + rewrite Ep. eexists. eexists. reflexivity.
Qed.

End Totality.

Lemma selectProtocol_returns_witness :
  exists p d,
    out_result
      (selectProtocol approxSqrt exampleExp exampleLog exampleSampler
         morning calm (Some driftingRace) halves)
    = Some (p, d).
Proof.
  apply (selectProtocol_returns approxSqrt exampleExp exampleLog exampleSampler
           exampleSampler_unit morning calm (Some driftingRace) halves).
  exact halves_unit.
Defined.

(** ** Metrics and weights of the ensemble *)

Lemma remove_dups_length (l : list string) :
  (length (remove_dups l) <= length l)%nat
  /\ (l <> [] -> 1 <= length (remove_dups l))%nat.
Proof.
  induction l as [| x l [IH1 IH2]]; cbn [remove_dups length].
  - split; [lia | congruence].
  - destruct (decide_rel elem_of x l) as [Hx | Hx]; cbn [length].
    + split; [lia |]. intros _. apply IH2. intros E. rewrite E in Hx. inversion Hx.
    + split; [lia | intros _; lia].
Qed.

Lemma confidenceSum_le (vs : list AlgorithmVote) (c a : Q) :
  (forall v, In v vs -> confidence v <= c) ->
  fold_left (fun sum v => sum + confidence v) vs a
  <= a + inject_Z (Z.of_nat (length vs)) * c.
Proof.
  revert a. induction vs as [| v vs IH]; intros a H; cbn [fold_left length].
  - change (inject_Z (Z.of_nat 0)) with 0. lra.
  - assert (Hv : confidence v <= c) by (apply H; now left).
    specialize (IH (a + confidence v) (fun w Hw => H w (or_intror Hw))).
    rewrite Nat2Z.inj_succ, <- Z.add_1_r, inject_Z_plus.
    change (inject_Z 1) with 1. lra.
Qed.

(** X16: the ensemble metrics are undefined for an empty list of votes.
    For a non-empty list the diversity lies in (0, 1], the most confident
    algorithm is that of a vote whose confidence no other vote exceeds,
    and the average confidence does not exceed that confidence. *)
Theorem getEnsembleMetrics_spec (vs : list AlgorithmVote) :
  (vs = [] -> getEnsembleMetrics vs = None)
  /\ (vs <> [] ->
      exists m top,
        getEnsembleMetrics vs = Some m
        /\ (0 < diversity m /\ diversity m <= 1)
        /\ In top vs
        /\ mostConfidentAlgorithm m = algorithm top
        /\ (forall v, In v vs -> confidence v <= confidence top)
        /\ averageConfidence m <= confidence top).
Proof.
  split; [intros ->; reflexivity |].
  intros Hne. unfold getEnsembleMetrics.
  destruct (sortDesc confidence vs) as [| top rest] eqn:E.
  { apply sortDesc_nil in E. contradiction. }
  pose proof (sortDesc_head_in confidence _ _ _ E) as Hin.
  pose proof (sortDesc_head_max confidence _ _ _ E) as Hmax.
  assert (Hn : 0 < inject_Z (Z.of_nat (length vs))).
  { change 0 with (inject_Z 0). rewrite <- Zlt_Qlt.
    destruct vs; [congruence | cbn [length]; lia]. }
  destruct (remove_dups_length (map v_protocolId vs)) as [Hle Hge].
  rewrite length_map in Hle.
  assert (Hge' : (1 <= length (remove_dups (map v_protocolId vs)))%nat).
  { apply Hge. destruct vs; [congruence | discriminate]. }
  eexists. exists top. split; [reflexivity |].
  cbn [diversity averageConfidence mostConfidentAlgorithm].
  split; [split |].
  - apply Qlt_shift_div_l; [exact Hn |]. rewrite Qmult_0_l.
    change 0 with (inject_Z 0). rewrite <- Zlt_Qlt. lia.
  - apply Qle_shift_div_r; [exact Hn |]. rewrite Qmult_1_l.
    rewrite <- Zle_Qle. lia.
  - split; [exact Hin |]. split; [reflexivity |]. split; [exact Hmax |].
    apply Qle_shift_div_r; [exact Hn |].
    pose proof (confidenceSum_le vs (confidence top) 0 Hmax) as Hs. lra.
Qed.

Lemma getEnsembleMetrics_spec_witness :
  exists m,
    getEnsembleMetrics
      [mkVote thompson "box-breathing" (1 # 2) (3 # 4);
       mkVote ucb "eye-break" (1 # 4) (1 # 2)] = Some m
    /\ diversity m <= 1.
Proof.
  destruct (getEnsembleMetrics_spec
              [mkVote thompson "box-breathing" (1 # 2) (3 # 4);
               mkVote ucb "eye-break" (1 # 4) (1 # 2)])
    as [_ H].
  destruct H as [m [top [E [[_ Hd] _]]]]; [discriminate |].
  exists m. split; [exact E | exact Hd].
Defined.

Section Weights.
Variable Math_exp : Q -> Q.
Hypothesis Math_exp_pos : forall x, 0 < Math_exp x.

(** X17: adapting the weights keeps 80% of each old weight and adds a
    positive share, and the shares add up to 20%: the sum of the new
    weights is 0.8 times the old sum plus 0.2, so weights that sum to 1
    still sum to 1. *)
Theorem adaptEnsembleWeights_sum (w : EnsembleWeights)
    (recentPerformance : EnsembleAlgorithm -> option (list Q)) :
  let w' := adaptEnsembleWeights Math_exp w recentPerformance in
  let total x := w_thompson x + w_ucb x + w_epsilonGreedy x + w_softmax x in
  total w' == (8 # 10) * total w + (2 # 10)
  /\ (total w == 1 -> total w' == 1)
  /\ (forall a, (8 # 10) * weightOf w a < weightOf w' a).
Proof.
  intros w' total. unfold w', adaptEnsembleWeights.
  set (e0 := Math_exp _). set (e1 := Math_exp _).
  set (e2 := Math_exp _). set (e3 := Math_exp _).
  assert (H0 : 0 < e0) by apply Math_exp_pos.
  assert (H1 : 0 < e1) by apply Math_exp_pos.
  assert (H2 : 0 < e2) by apply Math_exp_pos.
  assert (H3 : 0 < e3) by apply Math_exp_pos.
  assert (Hs : Qsum [e0; e1; e2; e3] == e0 + e1 + e2 + e3).
  { rewrite !Qsum_cons. unfold Qsum. cbn [fold_left]. ring. }
  set (s := Qsum [e0; e1; e2; e3]) in *. clearbody s.
  assert (Hpos : 0 < s) by lra.
  assert (Hsum : e0 / s + e1 / s + e2 / s + e3 / s == 1).
  { rewrite Hs. field. lra. }
  assert (Hq : forall e, 0 < e -> 0 < e / s).
  { intros e He. apply Qlt_shift_div_l; lra. }
  unfold total.
  cbn [w_thompson w_ucb w_epsilonGreedy w_softmax].
  assert (Htot :
    w_thompson w * (8 # 10) + e0 / s * (2 # 10)
    + (w_ucb w * (8 # 10) + e1 / s * (2 # 10))
    + (w_epsilonGreedy w * (8 # 10) + e2 / s * (2 # 10))
    + (w_softmax w * (8 # 10) + e3 / s * (2 # 10))
    == (8 # 10) * (w_thompson w + w_ucb w + w_epsilonGreedy w + w_softmax w)
       + (2 # 10)) by lra.
  split; [exact Htot |]. split.
  - intros Hone. rewrite Htot, Hone. reflexivity.
  - intros a. pose proof (Hq e0 H0). pose proof (Hq e1 H1).
    pose proof (Hq e2 H2). pose proof (Hq e3 H3).
    destruct a; cbn [weightOf w_thompson w_ucb w_epsilonGreedy w_softmax]; lra.
Qed.

End Weights.

Lemma exampleExp_pos (x : Q) : 0 < exampleExp x.
Proof.
  unfold exampleExp. pose proof (Qsquare_nonneg (x + 1)) as H.
  assert (E : 1 + x + x * x / 2 == ((x + 1) * (x + 1) + 1) / 2) by field.
  rewrite E. apply Qlt_shift_div_l; lra.
Qed.

Lemma adaptEnsembleWeights_sum_witness :
  let w' := adaptEnsembleWeights exampleExp ensembleWeights (fun _ => None) in
  w_thompson w' + w_ucb w' + w_epsilonGreedy w' + w_softmax w' == 1.
Proof.
  apply (adaptEnsembleWeights_sum exampleExp exampleExp_pos ensembleWeights
           (fun _ => None)).
  reflexivity.
Defined.

(** ** The exploration gate *)

Section Exploration.
Variable Math_sqrt : Q -> Q.
Variable Math_exp : Q -> Q.
Hypothesis Math_sqrt_nonneg : forall x, 0 <= Math_sqrt x.

(** X18: for alpha, beta > 0 the expected value of perfect information
    is never negative; it exceeds 0.5, the level at which exploring is
    recommended for its own sake, whenever the lower credible bound lies
    more than 0.05 above the current best mean. *)
Theorem calculateEVPI_nonneg (a b currentBestMean : Q) :
  0 < a -> 0 < b ->
  0 <= calculateEVPI Math_sqrt a b currentBestMean
  /\ (currentBestMean + (5 # 100) < fst (betaCredibleInterval Math_sqrt a b) ->
      1 # 2 < calculateEVPI Math_sqrt a b currentBestMean).
Proof.
  intros Ha Hb.
  pose proof (betaCredibleInterval_ordered Math_sqrt Math_sqrt_nonneg a b Ha Hb)
    as Hord.
  pose proof (Math_sqrt_nonneg (betaVariance a b)) as Hs.
  unfold calculateEVPI.
  destruct (betaCredibleInterval Math_sqrt a b) as [lo up]. cbn [fst snd] in *.
  destruct (Qltb up (currentBestMean - (5 # 100))) eqn:Eu.
  - apply Qltb_lt in Eu. split; [lra |]. intros H. exfalso. lra.
  - destruct (Qltb (currentBestMean + (5 # 100)) lo) eqn:El.
    + apply Qltb_lt in El. split; [lra |]. intros _. lra.
    + apply Qltb_ge in El. split; [| intros H; exfalso; lra].
      pose proof (Q.le_max_l 0 (betaMean a b - currentBestMean)) as Hmax. lra.
Qed.

(** X19: the recommendation is "nothing worth exploring" exactly when no
    protocol of the list passes the exploration test under a fresh budget.
    Otherwise it names a protocol of the list that passes the test, with
    that protocol's reason and metrics, within its per-protocol trial
    limit, and no passing protocol has a larger value of information. *)
Theorem getExplorationRecommendation_best (ps : list Candidate)
    (currentBestMean : Q) (totalTrialsSoFar : Z) :
  let budget := initializeExplorationBudget Math_exp totalTrialsSoFar in
  let decide p :=
    shouldExploreProtocol Math_sqrt (c_alpha p) (c_beta p) (c_trials p)
      currentBestMean budget in
  let evoi p := calculateEVPI Math_sqrt (c_alpha p) (c_beta p) currentBestMean in
  let rcm :=
    getExplorationRecommendation Math_sqrt Math_exp ps currentBestMean
      totalTrialsSoFar in
  ((forall p, In p ps -> d_shouldExplore (decide p) = false) ->
   rcm = mkRecommendation None None false NoProtocolsWorthExploring None)
  /\ (rec_shouldExplore rcm = true <->
      exists p, In p ps /\ d_shouldExplore (decide p) = true)
  /\ (rec_shouldExplore rcm = true ->
      exists p,
        In p ps /\ d_shouldExplore (decide p) = true
        /\ rec_protocolId rcm = Some (c_id p)
        /\ rec_protocolName rcm = Some (c_name p)
        /\ rec_justification rcm = d_reason (decide p)
        /\ rec_metrics rcm
           = Some (calculateInformationGain Math_sqrt (c_alpha p) (c_beta p)
                     (c_trials p) currentBestMean)
        /\ inject_Z (c_trials p) <= perProtocolLimit budget
        /\ (forall q, In q ps -> d_shouldExplore (decide q) = true ->
                      evoi q <= evoi p)).
Proof.
  intros budget decide evoi rcm.
  unfold rcm, getExplorationRecommendation. fold budget.
  set (score := fun p =>
         mkScored p (decide p)
           (calculateInformationGain Math_sqrt (c_alpha p) (c_beta p)
              (c_trials p) currentBestMean)
           (if d_shouldExplore (decide p)
            then expectedValueOfInformation
                   (calculateInformationGain Math_sqrt (c_alpha p) (c_beta p)
                      (c_trials p) currentBestMean)
            else - (1))).
  change (map _ ps) with (map score ps).
  set (scored := List.filter (fun sp => d_shouldExplore (sp_decision sp))
                   (map score ps)).
  assert (Hscored : forall sp, In sp scored <->
            exists p, In p ps /\ d_shouldExplore (decide p) = true /\ sp = score p).
  { intros sp. unfold scored. rewrite List.filter_In, in_map_iff. split.
    - intros [[p [<- Hp]] Hd]. exists p. repeat split; assumption.
    - intros [p [Hp [Hd ->]]]. split; [exists p; now split | exact Hd]. }
  destruct (sortDesc sp_explorationScore scored) as [| best rest] eqn:E.
  - apply sortDesc_nil in E.
    split; [reflexivity |]. cbn [rec_shouldExplore]. split.
    + split; [discriminate |]. intros [p [Hp Hd]].
      assert (Hin : In (score p) scored) by (apply Hscored; exists p; auto).
      rewrite E in Hin. inversion Hin.
    + discriminate.
  - pose proof (sortDesc_head_in sp_explorationScore _ _ _ E) as Hin.
    pose proof (sortDesc_head_max sp_explorationScore _ _ _ E) as Hmax.
    apply Hscored in Hin. destruct Hin as [p [Hp [Hd ->]]].
    cbn [rec_shouldExplore rec_protocolId rec_protocolName rec_justification
         rec_metrics].
    split; [| split].
    + intros Hnone. rewrite (Hnone p Hp) in Hd. discriminate.
    + split; [intros _; exists p; now split | reflexivity].
    + intros _. exists p. split; [exact Hp |]. split; [exact Hd |].
      cbn [score sp_candidate sp_decision sp_metrics].
      split; [reflexivity |]. split; [reflexivity |]. split; [reflexivity |].
      split; [reflexivity |]. split.
      * revert Hd. unfold decide, shouldExploreProtocol. cbv zeta.
        destruct (Qltb (totalBudget budget) _); [discriminate |].
        destruct (Qltb (perProtocolLimit budget) (inject_Z (c_trials p))) eqn:El;
          [discriminate |].
        intros _. now apply Qltb_ge in El.
      * intros q Hq Hdq.
        assert (Hinq : In (score q) scored) by (apply Hscored; exists q; auto).
        specialize (Hmax _ Hinq). unfold score in Hmax.
        cbn [sp_explorationScore] in Hmax. rewrite Hd, Hdq in Hmax. exact Hmax.
Qed.

End Exploration.

(** X20: the exploration efficiency is 0 for an empty history and
    otherwise the share of episodes whose information gain exceeds 0.1,
    a number between 0 and 1. *)
Theorem calculateExplorationEfficiency_range (hist : list ExplorationEpisode) :
  (hist = [] -> calculateExplorationEfficiency hist = 0)
  /\ (0 <= calculateExplorationEfficiency hist
      /\ calculateExplorationEfficiency hist <= 1)
  /\ (hist <> [] ->
      calculateExplorationEfficiency hist * inject_Z (Z.of_nat (length hist))
      == inject_Z
           (Z.of_nat
              (length
                 (List.filter (fun e => Qltb (1 # 10) (ep_informationGain e))
                    hist)))).
Proof.
  split; [intros ->; reflexivity |].
  unfold calculateExplorationEfficiency.
  destruct (Nat.eqb_spec (length hist) 0) as [E | E].
  - split; [lra |]. intros Hne. destruct hist; [congruence | discriminate].
  - assert (Hn : 0 < inject_Z (Z.of_nat (length hist))).
    { change 0 with (inject_Z 0). rewrite <- Zlt_Qlt. lia. }
    pose proof (List.filter_length_le
                  (fun e => Qltb (1 # 10) (ep_informationGain e)) hist) as Hle.
    split; [split |].
    + apply Qle_shift_div_l; [exact Hn |]. rewrite Qmult_0_l.
      change 0 with (inject_Z 0). rewrite <- Zle_Qle. lia.
    + apply Qle_shift_div_r; [exact Hn |]. rewrite Qmult_1_l.
      rewrite <- Zle_Qle. lia.
    + intros _. field. lra.
Qed.

Lemma calculateExplorationEfficiency_range_witness :
  calculateExplorationEfficiency [] = 0.
Proof.
  apply (calculateExplorationEfficiency_range []). reflexivity.
Defined.

Lemma calculateEVPI_nonneg_witness :
  0 <= calculateEVPI approxSqrt 2 20 (9 # 10).
Proof.
  apply (calculateEVPI_nonneg approxSqrt approxSqrt_nonneg 2 20 (9 # 10));
    reflexivity.
Defined.

Lemma getExplorationRecommendation_best_witness :
  exists p,
    In p [mkCand "a" "A" 2 1 1; mkCand "b" "B" 3 1 2]
    /\ rec_protocolId
         (getExplorationRecommendation approxSqrt exampleExp
            [mkCand "a" "A" 2 1 1; mkCand "b" "B" 3 1 2] (1 # 2) 3)
       = Some (c_id p).
Proof.
  destruct (getExplorationRecommendation_best approxSqrt exampleExp
              [mkCand "a" "A" 2 1 1; mkCand "b" "B" 3 1 2] (1 # 2) 3)
    as [_ [_ H]].
  destruct H as [p [Hp [_ [Hid _]]]]; [vm_compute; reflexivity |].
  exists p. split; [exact Hp | exact Hid].
Defined.

(** ** Transfer of priors *)

Lemma similarProtocolsOf_In knowledge pid protocolModels similarities e :
  In e (similarProtocolsOf knowledge pid protocolModels similarities) ->
  In e similarities
  /\ fst e <> pid
  /\ similarityThreshold (metaParameters knowledge) <= snd e
  /\ exists model, protocolModels !! fst e = Some model.
Proof.
  unfold similarProtocolsOf. intros H.
  apply In_firstn in H.
  apply (Permutation_in _ (Permutation_sym (sortDesc_perm snd _))) in H.
  apply List.filter_In in H. destruct H as [Hin Hf].
  apply andb_true_iff in Hf. destruct Hf as [Hf Hm].
  apply andb_true_iff in Hf. destruct Hf as [Hne Hth].
  split; [exact Hin |]. split.
  - intros E. rewrite E, String.eqb_refl in Hne. discriminate.
  - split; [now apply Qle_bool_iff |].
    destruct (protocolModels !! fst e) as [model |]; [now exists model | discriminate].
Qed.

Lemma transferStep_weights knowledge protocolModels l acc :
  0 < transferStrength (metaParameters knowledge) ->
  (forall e, In e l ->
     0 < snd e
     /\ exists model, protocolModels !! fst e = Some model
                      /\ 1 <= alpha model /\ 1 <= beta model) ->
  0 <= fst (fst acc) /\ fst (fst acc) <= snd (fst acc)
  /\ fst (fst acc) <= snd acc ->
  let out := fold_left (transferStep knowledge protocolModels) l acc in
  0 <= fst (fst out) /\ fst (fst out) <= snd (fst out)
  /\ fst (fst out) <= snd out.
Proof.
  intros Hs. revert acc. induction l as [| e l IH]; intros acc Hl Hacc;
    cbn [fold_left]; [exact Hacc |].
  apply IH; [intros x Hx; apply Hl; now right |].
  destruct (Hl e (or_introl eq_refl)) as [Hsim [model [Hm [Ha Hb]]]].
  destruct acc as [[tw wa] wb]. unfold transferStep. rewrite Hm.
  cbn [fst snd] in *.
  set (weight := snd e * transferStrength (metaParameters knowledge)).
  assert (Hw : 0 < weight) by (unfold weight; nra).
  repeat split; nra.
Qed.

(** X21: a transferred prior falls back to (1.5, 1.0) when the protocol
    has no row in the similarity matrix or no other protocol of its row
    is both similar enough and known.  With a positive threshold and a
    positive transfer strength, and every known posterior having alpha and
    beta of at least 1, the transferred prior has alpha >= 1.2 and
    beta >= 1. *)
Theorem getTransferPrior_bounds (knowledge : TransferKnowledge) (pid : string)
    (g : Goal) (protocolModels : gmap string BetaParams) :
  (similarityMatrix knowledge !! pid = None ->
   getTransferPrior knowledge pid g protocolModels = optimisticPrior)
  /\ (forall row,
        similarityMatrix knowledge !! pid = Some row ->
        (forall e, In e row ->
           fst e = pid
           \/ snd e < similarityThreshold (metaParameters knowledge)
           \/ protocolModels !! fst e = None) ->
        getTransferPrior knowledge pid g protocolModels = optimisticPrior)
  /\ (0 < similarityThreshold (metaParameters knowledge) ->
      0 < transferStrength (metaParameters knowledge) ->
      (forall k model, protocolModels !! k = Some model ->
                       1 <= alpha model /\ 1 <= beta model) ->
      12 # 10 <= alpha (getTransferPrior knowledge pid g protocolModels)
      /\ 1 <= beta (getTransferPrior knowledge pid g protocolModels)).
Proof.
  unfold getTransferPrior. split; [intros ->; reflexivity |]. split.
  - intros row -> Hrow.
    assert (E : similarProtocolsOf knowledge pid protocolModels row = []).
    { destruct (similarProtocolsOf knowledge pid protocolModels row)
        as [| e rest] eqn:E; [reflexivity |].
      assert (Hin : In e (similarProtocolsOf knowledge pid protocolModels row))
        by (rewrite E; now left).
      apply similarProtocolsOf_In in Hin.
      destruct Hin as [Hin [Hne [Hth [model Hm]]]].
      destruct (Hrow e Hin) as [H | [H | H]]; [contradiction | lra | congruence]. }
    rewrite E. reflexivity.
  - intros Hth Hs Hmodels.
    destruct (similarityMatrix knowledge !! pid) as [row |];
      [| cbn; split; [lra | lra]].
    destruct (length _ =? 0)%nat; [cbn; split; lra |].
    pose proof (transferStep_weights knowledge protocolModels
                  (similarProtocolsOf knowledge pid protocolModels row)
                  (0, 0, 0) Hs) as Hfold.
    destruct (fold_left _ _ (0, 0, 0)) as [[tw wa] wb].
    cbn [fst snd] in Hfold.
    destruct Hfold as [H0 [Ha Hb]].
    { intros e He. apply similarProtocolsOf_In in He.
      destruct He as [_ [_ [Hge [model Hm]]]].
      split; [lra |]. exists model. split; [exact Hm | now apply (Hmodels (fst e))]. }
    { lra. }
    destruct (Qeq_bool tw 0) eqn:Ez; [cbn; split; lra |].
    apply Qeq_bool_neq in Ez. assert (Hpos : 0 < tw) by lra.
    cbn [alpha beta].
    assert (Hqa : 1 <= wa / tw) by (apply Qle_shift_div_l; lra).
    assert (Hqb : 1 <= wb / tw) by (apply Qle_shift_div_l; lra).
    split; lra.
Qed.

Lemma getTransferPrior_bounds_witness :
  12 # 10
  <= alpha (getTransferPrior
              (mkKnowledge ∅ {[ "a" := [("b", 9 # 10)] ]}
                 (mkMeta (1 # 10) (6 # 10) (4 # 10)) [])
              "a" focus {[ "b" := mkBeta 4 2 ]}).
Proof.
  apply (getTransferPrior_bounds
           (mkKnowledge ∅ {[ "a" := [("b", 9 # 10)] ]}
              (mkMeta (1 # 10) (6 # 10) (4 # 10)) [])
           "a" focus {[ "b" := mkBeta 4 2 ]});
    [reflexivity | reflexivity |].
  intros k model H. apply lookup_singleton_Some in H. destruct H as [_ <-].
  split; discriminate.
Defined.

(** X22: the performance history is a bounded queue: a history of at
    most 100 records has at most 100 records after a new one is recorded,
    the new record is its last entry, and the oldest record is dropped
    exactly when the history was full; features, similarities and
    meta-parameters are untouched. *)
Theorem recordPerformance_bounded (knowledge : TransferKnowledge) (pid : string)
    (g : Goal) (initialPrior : BetaParams) (finalAlpha finalBeta : Q)
    (totalTrials : Z) :
  (length (performanceHistory knowledge) <= 100)%nat ->
  let record :=
    mkPerformance pid g initialPrior (betaMean finalAlpha finalBeta) totalTrials in
  let knowledge' :=
    recordPerformance knowledge pid g initialPrior finalAlpha finalBeta
      totalTrials in
  (length (performanceHistory knowledge') <= 100)%nat
  /\ last (performanceHistory knowledge') = Some record
  /\ ((length (performanceHistory knowledge) < 100)%nat ->
      performanceHistory knowledge' = performanceHistory knowledge ++ [record])
  /\ (length (performanceHistory knowledge) = 100%nat ->
      performanceHistory knowledge'
      = tail (performanceHistory knowledge) ++ [record])
  /\ (protocolFeatures knowledge' = protocolFeatures knowledge
      /\ similarityMatrix knowledge' = similarityMatrix knowledge
      /\ metaParameters knowledge' = metaParameters knowledge).
Proof.
  intros Hlen record knowledge'.
  unfold knowledge', recordPerformance.
  cbn [performanceHistory protocolFeatures similarityMatrix metaParameters].
  fold record.
  assert (Hl : length (performanceHistory knowledge ++ [record])
               = S (length (performanceHistory knowledge)))
    by (rewrite length_app; cbn; lia).
  destruct (Nat.ltb_spec 100 (length (performanceHistory knowledge ++ [record])))
    as [Hfull | Hroom].
  - assert (E : length (performanceHistory knowledge) = 100%nat) by lia.
    destruct (performanceHistory knowledge) as [| x rest] eqn:Eh;
      [discriminate |].
    cbn [app tail length] in *.
    split; [rewrite length_app; cbn; lia |].
    split; [apply last_snoc |]. split; [lia |].
    split; [reflexivity | repeat split; reflexivity].
  - split; [lia |]. split; [apply last_snoc |].
    split; [reflexivity |]. split; [lia | repeat split; reflexivity].
Qed.

Lemma recordPerformance_bounded_witness :
  last (performanceHistory
          (recordPerformance initializeTransferLearning "box-breathing" focus
             optimisticPrior 3 2 12))
  = Some (mkPerformance "box-breathing" focus optimisticPrior (betaMean 3 2) 12).
Proof.
  apply (recordPerformance_bounded initializeTransferLearning "box-breathing"
           focus optimisticPrior 3 2 12).
  cbn. lia.
Defined.

(** ** Hierarchical pooling *)

(** X23: for a non-negative trial count, a positive parent sample size
    and a non-negative pooled variance the shrinkage lies in (0, 2]; it is
    at least 1 without trials, at most 1 without pooled variance, and does
    not grow with the number of trials. *)
Theorem calculateShrinkage_range (trials ess variance : Q) :
  0 <= trials -> 0 < ess -> 0 <= variance ->
  (0 < calculateShrinkage trials ess variance
   /\ calculateShrinkage trials ess variance <= 2)
  /\ 1 <= calculateShrinkage 0 ess variance
  /\ calculateShrinkage trials ess 0 <= 1
  /\ (forall trials', trials <= trials' ->
        calculateShrinkage trials' ess variance
        <= calculateShrinkage trials ess variance).
Proof.
  intros Ht He Hv.
  assert (Hw : forall t, 0 <= t -> 1 - t / (t + ess) == ess / (t + ess)).
  { intros t Ht0. field. lra. }
  assert (Hpen : forall v, 0 <= v -> 0 <= Qmin 1 (v * 2) /\ Qmin 1 (v * 2) <= 1).
  { intros v Hv0. split; [apply Q.min_glb; lra | apply Q.le_min_l]. }
  assert (Hfrac : forall t, 0 <= t -> 0 < ess / (t + ess) /\ ess / (t + ess) <= 1).
  { intros t Ht0. split; [apply Qlt_shift_div_l | apply Qle_shift_div_r]; lra. }
  unfold calculateShrinkage.
  destruct (Hpen variance Hv) as [Hp0 Hp1].
  destruct (Hfrac trials Ht) as [Hf0 Hf1].
  split; [| split; [| split]].
  - rewrite (Hw trials Ht). split; nra.
  - assert (E : 1 - 0 / (0 + ess) == 1) by (field; lra).
    rewrite E. lra.
  - rewrite (Hw trials Ht).
    assert (E : Qmin 1 (0 * 2) == 0).
    { apply Q.min_r. lra. }
    rewrite E. lra.
  - intros trials' Hle.
    assert (Ht' : 0 <= trials') by lra.
    rewrite (Hw trials Ht), (Hw trials' Ht').
    destruct (Hfrac trials' Ht') as [Hg0 Hg1].
    assert (Hmono : ess / (trials' + ess) <= ess / (trials + ess)).
    { apply Qle_shift_div_l; [lra |].
      assert (E : ess / (trials' + ess) * (trials + ess)
                  == ess * ((trials + ess) / (trials' + ess))) by (field; lra).
      rewrite E.
      assert (Hr : (trials + ess) / (trials' + ess) <= 1)
        by (apply Qle_shift_div_r; lra).
      nra. }
    nra.
Qed.

Lemma calculateShrinkage_range_witness :
  calculateShrinkage 5 3 (1 # 10) <= 2.
Proof.
  apply (calculateShrinkage_range 5 3 (1 # 10)); reflexivity || discriminate.
Defined.

Lemma Qsum_unit_range (l : list Q) :
  (forall x, In x l -> 0 <= x /\ x <= 1) ->
  0 <= Qsum l /\ Qsum l <= inject_Z (Z.of_nat (length l)).
Proof.
  induction l as [| x l IH]; intros H.
  - cbn. split; discriminate.
  - rewrite Qsum_cons. cbn [length].
    rewrite Nat2Z.inj_succ, <- Z.add_1_r, inject_Z_plus.
    change (inject_Z 1) with 1.
    destruct (H x (or_introl eq_refl)) as [H0 H1].
    destruct IH as [I0 I1]; [intros y Hy; apply H; now right |].
    split; lra.
Qed.

(** X24: without observations the hyperprior is the weak prior with
    mu = 0.5 and kappa = 2.  A hyperprior fitted to observations has the
    mean of the observations as mu, a concentration kappa of at least 2
    and alpha0 + beta0 = kappa; its mu lies in [0, 1] and alpha0, beta0
    are not negative when the observations lie in [0, 1].  A single
    observation has variance 0: inside [0, 1] it yields no finite
    hyperprior, outside it yields kappa = 2 with one of alpha0, beta0
    negative. *)
Theorem initializeHyperPrior_fit (observations : list Q) :
  (observations = [] ->
   initializeHyperPrior observations
   = Some (mkHyper (1 # 2) 2 (15 # 10) (15 # 10) 3))
  /\ (forall h,
        observations <> [] -> initializeHyperPrior observations = Some h ->
        mu h = Qsum observations / inject_Z (Z.of_nat (length observations))
        /\ 2 <= kappa h
        /\ alpha0 h + beta0 h == kappa h
        /\ effectiveSampleSize h = inject_Z (Z.of_nat (length observations))
        /\ ((forall x, In x observations -> 0 <= x /\ x <= 1) ->
            (0 <= mu h /\ mu h <= 1) /\ 0 <= alpha0 h /\ 0 <= beta0 h))
  /\ (forall x, 0 <= x -> x <= 1 -> initializeHyperPrior [x] = None)
  /\ (forall x, x < 0 \/ 1 < x ->
        exists h,
          initializeHyperPrior [x] = Some h
          /\ mu h == x /\ kappa h = 2
          /\ alpha0 h == 2 * x /\ beta0 h == 2 * (1 - x)
          /\ (alpha0 h < 0 \/ beta0 h < 0)).
Proof.
  assert (Hvar1 : forall x : Q,
            Qeq_bool (squaredDeviations [x] (Qsum [x] / inject_Z (Z.of_nat 1))
                      / inject_Z (Z.of_nat 1)) 0 = true).
  { intros x. apply Qeq_bool_iff.
    unfold squaredDeviations, Qsum. cbn [fold_left].
    change (inject_Z (Z.of_nat 1)) with 1. field. }
  assert (Hmu1 : forall x : Q, Qsum [x] / inject_Z (Z.of_nat 1) == x).
  { intros x. unfold Qsum. cbn [fold_left].
    change (inject_Z (Z.of_nat 1)) with 1. field. }
  split; [intros ->; reflexivity |]. split; [| split].
  - intros h Hne. unfold initializeHyperPrior.
    destruct (Nat.eqb_spec (length observations) 0) as [E | E].
    { destruct observations; [congruence | discriminate]. }
    set (n := inject_Z (Z.of_nat (length observations))).
    set (m := Qsum observations / n).
    assert (Hn : 0 < n).
    { unfold n. change 0 with (inject_Z 0). rewrite <- Zlt_Qlt. lia. }
    assert (Hm : (forall x, In x observations -> 0 <= x /\ x <= 1) ->
                 0 <= m /\ m <= 1).
    { intros Hrange.
      destruct (Qsum_unit_range observations Hrange) as [S0 S1]. fold n in S1.
      unfold m. split; [apply Qle_shift_div_l | apply Qle_shift_div_r]; lra. }
    destruct (Qeq_bool _ 0).
    + destruct (Qltb (m * (1 - m)) 0) eqn:Eneg; [| discriminate].
      intros H. injection H as <-.
      cbn [mu kappa alpha0 beta0 effectiveSampleSize].
      split; [reflexivity |]. split; [lra |]. split; [ring |].
      split; [reflexivity |].
      intros Hrange. destruct (Hm Hrange) as [M0 M1].
      split; [split; assumption |]. split; lra.
    + intros H. injection H as <-.
      cbn [mu kappa alpha0 beta0 effectiveSampleSize].
      set (k := Qmax 2 _).
      assert (Hk : 2 <= k) by apply Q.le_max_l.
      split; [reflexivity |]. split; [exact Hk |]. split; [ring |].
      split; [reflexivity |].
      intros Hrange. destruct (Hm Hrange) as [M0 M1].
      split; [split; assumption |]. split; nra.
  - intros x H0 H1. unfold initializeHyperPrior. cbn [length Nat.eqb].
    rewrite Hvar1.
    replace (Qltb _ 0) with false; [reflexivity |].
    symmetry. apply Qltb_ge. rewrite (Hmu1 x). nra.
  - intros x Hx. unfold initializeHyperPrior. cbn [length Nat.eqb].
    rewrite Hvar1.
    replace (Qltb _ 0) with true.
    + eexists. split; [reflexivity |].
      cbn [mu kappa alpha0 beta0].
      split; [apply Hmu1 |]. split; [reflexivity |].
      split; [rewrite (Hmu1 x); ring |].
      split; [rewrite (Hmu1 x); ring |].
      rewrite (Hmu1 x). destruct Hx; [left | right]; lra.
    + symmetry. apply Qltb_lt. rewrite (Hmu1 x). destruct Hx; nra.
Qed.

Lemma initializeHyperPrior_fit_witness :
  exists h,
    initializeHyperPrior [2 # 10; 8 # 10] = Some h /\ 2 <= kappa h.
Proof.
  destruct (initializeHyperPrior [2 # 10; 8 # 10]) as [h |] eqn:E;
    [| vm_compute in E; discriminate].
  exists h. split; [reflexivity |].
  apply (proj1 (proj2 (initializeHyperPrior_fit [2 # 10; 8 # 10]))
           h ltac:(discriminate) E).
Defined.

(** ** The goal hierarchy *)

Lemma Goal_eqb_eq (a b : Goal) : Goal_eqb a b = true <-> a = b.
Proof. destruct a, b; split; intros H; try reflexivity; discriminate. Qed.

(** X25: one observation moves three levels at three speeds.  The pair
    of protocol and goal (started from the effective prior when new)
    gains one trial and the full reward; the prior of the goal gains 5%
    of the reward on alpha and 5% of its complement on beta and counts one
    protocol more; the global prior gains 2%.  The priors of the other
    goals and all other pairs are untouched. *)
Theorem updateHierarchicalModel_levels (hm : HierarchicalModel) (pid : string)
    (g : Goal) (reward : Q) :
  let hm' := updateHierarchicalModel hm pid g reward in
  let base :=
    match protocolGoalModels hm !! pairKey pid g with
    | Some m => m
    | None =>
        mkPair (alpha (getEffectivePrior hm pid g))
          (beta (getEffectivePrior hm pid g)) 0
    end in
  (exists m',
     protocolGoalModels hm' !! pairKey pid g = Some m'
     /\ pg_trials m' = (pg_trials base + 1)%Z
     /\ pg_alpha m' = pg_alpha base + reward
     /\ pg_beta m' = pg_beta base + (1 - reward))
  /\ (forall k, k <> pairKey pid g ->
        protocolGoalModels hm' !! k = protocolGoalModels hm !! k)
  /\ (gp_alpha (goalPriors hm' g) == gp_alpha (goalPriors hm g) + (5 # 100) * reward
      /\ gp_beta (goalPriors hm' g)
         == gp_beta (goalPriors hm g) + (5 # 100) * (1 - reward)
      /\ gp_protocolCount (goalPriors hm' g)
         = (gp_protocolCount (goalPriors hm g) + 1)%Z)
  /\ (forall g', g' <> g -> goalPriors hm' g' = goalPriors hm g')
  /\ (alpha (globalPrior hm') == alpha (globalPrior hm) + (2 # 100) * reward
      /\ beta (globalPrior hm')
         == beta (globalPrior hm) + (2 # 100) * (1 - reward)).
Proof.
  intros hm' base. unfold hm', updateHierarchicalModel.
  cbn [protocolGoalModels goalPriors globalPrior]. fold base.
  split; [| split; [| split; [| split]]].
  - eexists. split; [apply lookup_insert_eq |]. repeat split; reflexivity.
  - intros k Hk. apply lookup_insert_ne. congruence.
  - replace (Goal_eqb g g) with true by (destruct g; reflexivity).
    cbn [gp_alpha gp_beta gp_protocolCount updateBetaParams alpha beta].
    repeat split; ring.
  - intros g' Hne. destruct (Goal_eqb g' g) eqn:E; [| reflexivity].
    apply Goal_eqb_eq in E. contradiction.
  - cbn [updateBetaParams alpha beta]. split; ring.
Qed.

Lemma updateHierarchicalModel_levels_witness :
  goalPriors (updateHierarchicalModel initializeHierarchicalModel
                "box-breathing" focus 1) calm
  = goalPriors initializeHierarchicalModel calm.
Proof.
  apply (updateHierarchicalModel_levels initializeHierarchicalModel
           "box-breathing" focus 1).
  discriminate.
Defined.

(** X26: the effective prior of a pair with at least three trials is a
    mixture of the pair's posterior and the prior of its goal in which the
    goal weighs at most 30%, so each parameter lies between the two; with
    fewer trials it is the prior of the goal once that goal has counted a
    protocol, and the global prior before.  When the global prior, the
    goal prior and the pair all have parameters of at least 1, so has the
    effective prior. *)
Theorem getEffectivePrior_between (hm : HierarchicalModel) (pid : string)
    (g : Goal) :
  let goalPrior := goalPriors hm g in
  let e := getEffectivePrior hm pid g in
  (forall m,
     protocolGoalModels hm !! pairKey pid g = Some m -> (3 <= pg_trials m)%Z ->
     (Qmin (pg_alpha m) (gp_alpha goalPrior) <= alpha e
      /\ alpha e <= Qmax (pg_alpha m) (gp_alpha goalPrior))
     /\ (Qmin (pg_beta m) (gp_beta goalPrior) <= beta e
         /\ beta e <= Qmax (pg_beta m) (gp_beta goalPrior)))
  /\ ((forall m, protocolGoalModels hm !! pairKey pid g = Some m ->
                 (pg_trials m < 3)%Z) ->
      e = if (0 <? gp_protocolCount goalPrior)%Z
          then mkBeta (gp_alpha goalPrior) (gp_beta goalPrior)
          else globalPrior hm)
  /\ ((1 <= alpha (globalPrior hm) /\ 1 <= beta (globalPrior hm)) ->
      (1 <= gp_alpha goalPrior /\ 1 <= gp_beta goalPrior) ->
      (forall m, protocolGoalModels hm !! pairKey pid g = Some m ->
                 1 <= pg_alpha m /\ 1 <= pg_beta m) ->
      1 <= alpha e /\ 1 <= beta e).
Proof.
  intros goalPrior e.
  assert (Hmix : forall x y s, 0 <= s -> s <= 1 ->
            Qmin x y <= x * (1 - s) + y * s
            /\ x * (1 - s) + y * s <= Qmax x y).
  { intros x y s H0 H1.
    pose proof (Q.le_min_l x y). pose proof (Q.le_min_r x y).
    pose proof (Q.le_max_l x y). pose proof (Q.le_max_r x y).
    split; nra. }
  assert (Hshr : forall t, (3 <= t)%Z ->
            0 <= Qmin (3 # 10) (5 / inject_Z t)
            /\ Qmin (3 # 10) (5 / inject_Z t) <= 1).
  { intros t Ht.
    assert (Hq : 0 < inject_Z t).
    { change 0 with (inject_Z 0). rewrite <- Zlt_Qlt. lia. }
    split.
    - apply Q.min_glb; [lra |]. apply Qle_shift_div_l; lra.
    - apply Qle_trans with (3 # 10); [apply Q.le_min_l | lra]. }
  unfold e, getEffectivePrior. fold goalPrior.
  split; [| split].
  - intros m Hm Ht. rewrite Hm.
    destruct (Z.leb_spec 3 (pg_trials m)) as [_ | Hlt]; [| lia].
    cbn [alpha beta]. destruct (Hshr (pg_trials m) Ht) as [H0 H1].
    split; apply Hmix; assumption.
  - intros Hfew.
    destruct (protocolGoalModels hm !! pairKey pid g) as [m |]; [| reflexivity].
    specialize (Hfew m eq_refl).
    destruct (Z.leb_spec 3 (pg_trials m)) as [Hge | _]; [lia | reflexivity].
  - intros [Ga Gb] [Pa Pb] Hpair.
    assert (Hfall : 1 <= alpha (if (0 <? gp_protocolCount goalPrior)%Z
                                then mkBeta (gp_alpha goalPrior) (gp_beta goalPrior)
                                else globalPrior hm)
                    /\ 1 <= beta (if (0 <? gp_protocolCount goalPrior)%Z
                                  then mkBeta (gp_alpha goalPrior) (gp_beta goalPrior)
                                  else globalPrior hm)).
    { destruct (0 <? gp_protocolCount goalPrior)%Z; cbn [alpha beta]; split;
        assumption. }
    destruct (protocolGoalModels hm !! pairKey pid g) as [m |]; [| exact Hfall].
    destruct (Z.leb_spec 3 (pg_trials m)) as [Ht | _]; [| exact Hfall].
    destruct (Hpair m eq_refl) as [Ma Mb].
    destruct (Hshr (pg_trials m) Ht) as [H0 H1].
    cbn [alpha beta]. split; nra.
Qed.

Lemma getEffectivePrior_between_witness :
  getEffectivePrior initializeHierarchicalModel "box-breathing" focus
  = globalPrior initializeHierarchicalModel.
Proof.
  apply (getEffectivePrior_between initializeHierarchicalModel "box-breathing"
           focus).
  intros m H. exfalso. revert H.
  unfold initializeHierarchicalModel. cbn [protocolGoalModels].
  rewrite lookup_empty. discriminate.
Defined.

(** ** Pooling across protocols and goals *)

Lemma Qsum_range (l : list Q) (lo hi : Q) :
  (forall x, In x l -> lo <= x /\ x <= hi) ->
  inject_Z (Z.of_nat (length l)) * lo <= Qsum l
  /\ Qsum l <= inject_Z (Z.of_nat (length l)) * hi.
Proof.
  induction l as [| x l IH]; intros H.
  - cbn [length]. change (inject_Z (Z.of_nat 0)) with 0.
    unfold Qsum. cbn [fold_left]. split; lra.
  - rewrite Qsum_cons. cbn [length].
    rewrite Nat2Z.inj_succ, <- Z.add_1_r, inject_Z_plus.
    change (inject_Z 1) with 1.
    destruct (H x (or_introl eq_refl)) as [H0 H1].
    destruct IH as [I0 I1]; [intros y Hy; apply H; now right |].
    split; lra.
Qed.

Lemma Qmean_range (l : list Q) (lo hi : Q) :
  l <> [] ->
  (forall x, In x l -> lo <= x /\ x <= hi) ->
  lo <= Qsum l / inject_Z (Z.of_nat (length l))
  /\ Qsum l / inject_Z (Z.of_nat (length l)) <= hi.
Proof.
  intros Hne H. destruct (Qsum_range l lo hi H) as [H0 H1].
  assert (Hn : 0 < inject_Z (Z.of_nat (length l))).
  { change 0 with (inject_Z 0). rewrite <- Zlt_Qlt.
    destruct l; [congruence | cbn [length]; lia]. }
  split; [apply Qle_shift_div_l | apply Qle_shift_div_r]; lra.
Qed.

Lemma similarEstimates_In (hm : HierarchicalModel) (g : Goal)
    (similar : list string) (e : BetaParams) :
  In e (similarEstimates hm g similar) ->
  exists similarId m,
    In similarId similar
    /\ protocolGoalModels hm !! pairKey similarId g = Some m
    /\ (2 <= pg_trials m)%Z
    /\ e = mkBeta (pg_alpha m) (pg_beta m).
Proof.
  intros H. apply list_elem_of_In in H. unfold similarEstimates in H.
  apply list_elem_of_omap in H. destruct H as [sid [Hin Hsome]].
  destruct (protocolGoalModels hm !! pairKey sid g) as [m |] eqn:E;
    [| discriminate].
  destruct (Z.leb_spec 2 (pg_trials m)) as [Ht | _]; [| discriminate].
  injection Hsome as <-. exists sid, m.
  split; [now apply list_elem_of_In |]. repeat split; assumption.
Qed.

Lemma similarEstimates_complete (hm : HierarchicalModel) (g : Goal)
    (similar : list string) (similarId : string) (m : PairModel) :
  In similarId similar ->
  protocolGoalModels hm !! pairKey similarId g = Some m ->
  (2 <= pg_trials m)%Z ->
  In (mkBeta (pg_alpha m) (pg_beta m)) (similarEstimates hm g similar).
Proof.
  intros Hin Hm Ht. apply list_elem_of_In. unfold similarEstimates.
  apply list_elem_of_omap. exists similarId.
  split; [now apply list_elem_of_In |].
  rewrite Hm. destruct (Z.leb_spec 2 (pg_trials m)); [reflexivity | lia].
Qed.

(** X27: the prior for a new pair pools exactly the similar protocols
    that have at least two trials for the goal.  Without any it is the
    effective prior of the pair; otherwise each parameter is 70% of the
    average of their posteriors plus 30% of the prior of the goal, so
    every bound that holds for all stored pairs and for the prior of the
    goal holds for it. *)
Theorem transferLearningPrior_pooled (hm : HierarchicalModel) (pid : string)
    (g : Goal) (similar : list string) (lo hi : Q) :
  let estimates := similarEstimates hm g similar in
  let n := inject_Z (Z.of_nat (length estimates)) in
  (forall e, In e estimates <->
     exists similarId m,
       In similarId similar
       /\ protocolGoalModels hm !! pairKey similarId g = Some m
       /\ (2 <= pg_trials m)%Z
       /\ e = mkBeta (pg_alpha m) (pg_beta m))
  /\ (estimates = [] ->
      transferLearningPrior hm pid g similar = getEffectivePrior hm pid g)
  /\ (estimates <> [] ->
      alpha (transferLearningPrior hm pid g similar)
      = Qsum (map alpha estimates) / n * (7 # 10)
        + gp_alpha (goalPriors hm g) * (3 # 10)
      /\ beta (transferLearningPrior hm pid g similar)
         = Qsum (map beta estimates) / n * (7 # 10)
           + gp_beta (goalPriors hm g) * (3 # 10))
  /\ (estimates <> [] ->
      (forall k m, protocolGoalModels hm !! k = Some m ->
         (lo <= pg_alpha m /\ pg_alpha m <= hi)
         /\ (lo <= pg_beta m /\ pg_beta m <= hi)) ->
      (lo <= gp_alpha (goalPriors hm g) /\ gp_alpha (goalPriors hm g) <= hi) ->
      (lo <= gp_beta (goalPriors hm g) /\ gp_beta (goalPriors hm g) <= hi) ->
      (lo <= alpha (transferLearningPrior hm pid g similar)
       /\ alpha (transferLearningPrior hm pid g similar) <= hi)
      /\ (lo <= beta (transferLearningPrior hm pid g similar)
          /\ beta (transferLearningPrior hm pid g similar) <= hi)).
Proof.
  intros estimates n.
  assert (Hvalue : estimates <> [] ->
            transferLearningPrior hm pid g similar
            = mkBeta (Qsum (map alpha estimates) / n * (7 # 10)
                      + gp_alpha (goalPriors hm g) * (3 # 10))
                     (Qsum (map beta estimates) / n * (7 # 10)
                      + gp_beta (goalPriors hm g) * (3 # 10))).
  { intros Hne. unfold transferLearningPrior. fold estimates.
    destruct (Nat.ltb_spec 0 (length estimates)) as [_ | Hl];
      [reflexivity |].
    destruct estimates; [congruence | cbn [length] in Hl; lia]. }
  split; [| split; [| split]].
  - intros e. split; [apply similarEstimates_In |].
    intros [sid [m [Hin [Hm [Ht ->]]]]].
    now apply (similarEstimates_complete hm g similar sid m).
  - intros E. unfold transferLearningPrior. fold estimates. rewrite E.
    reflexivity.
  - intros Hne. rewrite (Hvalue Hne). split; reflexivity.
  - intros Hne Hpairs [Ga0 Ga1] [Gb0 Gb1]. rewrite (Hvalue Hne).
    cbn [alpha beta].
    assert (Hlen : forall f : BetaParams -> Q,
              length (map f estimates) = length estimates)
      by (intros f; apply length_map).
    assert (Hmap : forall f : BetaParams -> Q, map f estimates <> []).
    { intros f E. apply (f_equal length) in E. rewrite Hlen in E.
      destruct estimates; [congruence | discriminate]. }
    assert (Ha : forall x, In x (map alpha estimates) -> lo <= x /\ x <= hi).
    { intros x Hx. apply in_map_iff in Hx. destruct Hx as [e [<- He]].
      destruct (similarEstimates_In hm g similar e He)
        as [sid [m [_ [Hm [_ ->]]]]].
      apply (Hpairs _ _ Hm). }
    assert (Hb : forall x, In x (map beta estimates) -> lo <= x /\ x <= hi).
    { intros x Hx. apply in_map_iff in Hx. destruct Hx as [e [<- He]].
      destruct (similarEstimates_In hm g similar e He)
        as [sid [m [_ [Hm [_ ->]]]]].
      apply (Hpairs _ _ Hm). }
    pose proof (Qmean_range _ lo hi (Hmap alpha) Ha) as [A0 A1].
    pose proof (Qmean_range _ lo hi (Hmap beta) Hb) as [B0 B1].
    rewrite Hlen in A0, A1, B0, B1. fold n in A0, A1, B0, B1.
    split; split; lra.
Qed.

Lemma transferLearningPrior_pooled_witness :
  1 <= alpha (transferLearningPrior
                (updateHierarchicalModel
                   (updateHierarchicalModel initializeHierarchicalModel
                      "box-breathing" focus 1)
                   "box-breathing" focus 1)
                "cyclic-sighing" focus ["box-breathing"]).
Proof.
  apply (proj2 (proj2 (proj2
           (transferLearningPrior_pooled
              (updateHierarchicalModel
                 (updateHierarchicalModel initializeHierarchicalModel
                    "box-breathing" focus 1)
                 "box-breathing" focus 1)
              "cyclic-sighing" focus ["box-breathing"] 1 4)))).
  - vm_compute. discriminate.
  - intros k m Hm.
    destruct (decide (k = pairKey "box-breathing" focus)) as [-> | Hk].
    + vm_compute in Hm. injection Hm as <-. cbn.
      repeat split; discriminate.
    + unfold updateHierarchicalModel in Hm. cbn [protocolGoalModels] in Hm.
      rewrite lookup_insert_ne in Hm by congruence.
      unfold initializeHierarchicalModel in Hm. cbn [protocolGoalModels] in Hm.
      rewrite lookup_insert_ne in Hm by congruence.
      rewrite lookup_empty in Hm. discriminate.
  - vm_compute. split; discriminate.
  - vm_compute. split; discriminate.
Defined.

Lemma getEffectivePrior_positive (hm : HierarchicalModel) (pid : string)
    (g : Goal) :
  0 < alpha (globalPrior hm) -> 0 < beta (globalPrior hm) ->
  0 < gp_alpha (goalPriors hm g) -> 0 < gp_beta (goalPriors hm g) ->
  (forall m, protocolGoalModels hm !! pairKey pid g = Some m ->
             0 < pg_alpha m /\ 0 < pg_beta m) ->
  0 < alpha (getEffectivePrior hm pid g)
  /\ 0 < beta (getEffectivePrior hm pid g).
Proof.
  intros Ga Gb Pa Pb Hpair. unfold getEffectivePrior.
  set (goalPrior := goalPriors hm g) in *.
  assert (Hfall : 0 < alpha (if (0 <? gp_protocolCount goalPrior)%Z
                             then mkBeta (gp_alpha goalPrior) (gp_beta goalPrior)
                             else globalPrior hm)
                  /\ 0 < beta (if (0 <? gp_protocolCount goalPrior)%Z
                               then mkBeta (gp_alpha goalPrior) (gp_beta goalPrior)
                               else globalPrior hm)).
  { destruct (0 <? gp_protocolCount goalPrior)%Z; cbn [alpha beta]; split;
      assumption. }
  destruct (protocolGoalModels hm !! pairKey pid g) as [m |]; [| exact Hfall].
  destruct (Z.leb_spec 3 (pg_trials m)) as [Ht | _]; [| exact Hfall].
  destruct (Hpair m eq_refl) as [Ma Mb].
  assert (Hq : 0 < inject_Z (pg_trials m)).
  { change 0 with (inject_Z 0). rewrite <- Zlt_Qlt. lia. }
  assert (H0 : 0 <= Qmin (3 # 10) (5 / inject_Z (pg_trials m))).
  { apply Q.min_glb; [lra |]. apply Qle_shift_div_l; lra. }
  assert (H1 : Qmin (3 # 10) (5 / inject_Z (pg_trials m)) <= 3 # 10)
    by apply Q.le_min_l.
  cbn [alpha beta]. split; nra.
Qed.

Section Predictions.

Variable Math_sqrt : Q -> Q.
Hypothesis Math_sqrt_nonneg : forall x, 0 <= Math_sqrt x.

(** X28: a prediction is rated high exactly when the pair has at least
    five trials, medium with two to four and low otherwise; a high
    prediction reports the mean of the pair's own posterior, every other
    one the mean of its effective prior.  With positive parameters on all
    three levels the expected performance lies strictly between 0 and 1,
    and the uncertainty is never negative. *)
Theorem predictPerformance_confidence (hm : HierarchicalModel) (pid : string)
    (g : Goal) :
  let p := predictPerformance Math_sqrt hm pid g in
  let model := protocolGoalModels hm !! pairKey pid g in
  0 < alpha (globalPrior hm) -> 0 < beta (globalPrior hm) ->
  0 < gp_alpha (goalPriors hm g) -> 0 < gp_beta (goalPriors hm g) ->
  (forall m, model = Some m -> 0 < pg_alpha m /\ 0 < pg_beta m) ->
  (predictionConfidence p = HighConfidence
   <-> exists m, model = Some m /\ (5 <= pg_trials m)%Z)
  /\ (predictionConfidence p = MediumConfidence
      <-> exists m, model = Some m /\ (2 <= pg_trials m < 5)%Z)
  /\ (predictionConfidence p = LowConfidence
      <-> forall m, model = Some m -> (pg_trials m < 2)%Z)
  /\ (forall m, model = Some m -> (5 <= pg_trials m)%Z ->
      expectedPerformance p = betaMean (pg_alpha m) (pg_beta m))
  /\ ((forall m, model = Some m -> (pg_trials m < 5)%Z) ->
      expectedPerformance p
      = betaMean (alpha (getEffectivePrior hm pid g))
          (beta (getEffectivePrior hm pid g)))
  /\ (0 < expectedPerformance p /\ expectedPerformance p < 1)
  /\ 0 <= uncertainty p.
Proof.
  intros p model Ga Gb Pa Pb Hpair.
  pose proof (getEffectivePrior_positive hm pid g Ga Gb Pa Pb Hpair)
    as [Ea Eb].
  unfold p, predictPerformance. fold model. fold model in Hpair.
  destruct model as [m |].
  - destruct (Hpair m eq_refl) as [Ma Mb].
    destruct (Z.leb_spec 5 (pg_trials m)) as [H5 | H5].
    + cbn [predictionConfidence expectedPerformance uncertainty].
      split; [split; [intros _; exists m; split; [reflexivity | lia] |
                      reflexivity] |].
      split; [split; [discriminate |
                      intros [m' [E Ht]]; injection E as <-; lia] |].
      split; [split; [discriminate |
                      intros H; specialize (H m eq_refl); lia] |].
      split; [intros m' E _; injection E as <-; reflexivity |].
      split; [intros H; specialize (H m eq_refl); lia |].
      split; [apply betaMean_unit; assumption | apply Math_sqrt_nonneg].
    + cbn [predictionConfidence expectedPerformance uncertainty].
      destruct (Z.leb_spec 2 (pg_trials m)) as [H2 | H2].
      * split; [split; [discriminate |
                        intros [m' [E Ht]]; injection E as <-; lia] |].
        split; [split; [intros _; exists m; split; [reflexivity | lia] |
                        reflexivity] |].
        split; [split; [discriminate |
                        intros H; specialize (H m eq_refl); lia] |].
        split; [intros m' E Ht; injection E as <-; lia |].
        split; [reflexivity |].
        split; [apply betaMean_unit; assumption | apply Math_sqrt_nonneg].
      * split; [split; [discriminate |
                        intros [m' [E Ht]]; injection E as <-; lia] |].
        split; [split; [discriminate |
                        intros [m' [E Ht]]; injection E as <-; lia] |].
        split; [split; [intros _ m' E; injection E as <-; exact H2 |
                        reflexivity] |].
        split; [intros m' E Ht; injection E as <-; lia |].
        split; [reflexivity |].
        split; [apply betaMean_unit; assumption | apply Math_sqrt_nonneg].
  - cbn [predictionConfidence expectedPerformance uncertainty].
    split; [split; [discriminate | intros [m' [E _]]; discriminate] |].
    split; [split; [discriminate | intros [m' [E _]]; discriminate] |].
    split; [split; [intros _ m' E; discriminate | reflexivity] |].
    split; [intros m' E; discriminate |].
    split; [reflexivity |].
    split; [apply betaMean_unit; assumption | apply Math_sqrt_nonneg].
Qed.

End Predictions.

Lemma predictPerformance_confidence_witness :
  predictionConfidence (predictPerformance approxSqrt initializeHierarchicalModel
                "box-breathing" focus) = LowConfidence.
Proof.
  apply (predictPerformance_confidence approxSqrt approxSqrt_nonneg
           initializeHierarchicalModel "box-breathing" focus);
    try reflexivity.
  - intros m H. exfalso. revert H.
    unfold initializeHierarchicalModel. cbn [protocolGoalModels].
    rewrite lookup_empty. discriminate.
  - intros m H. exfalso. revert H.
    unfold initializeHierarchicalModel. cbn [protocolGoalModels].
    rewrite lookup_empty. discriminate.
Defined.

(** ** Updating a hyperprior *)

Lemma squaredDeviations_acc (l : list Q) (c a : Q) :
  0 <= a ->
  0 <= fold_left (fun sum val => sum + (val - c) * (val - c)) l a.
Proof.
  revert a. induction l as [| x l IH]; intros a Ha; cbn [fold_left].
  - exact Ha.
  - apply IH. pose proof (Qsquare_nonneg (x - c)). lra.
Qed.

Lemma squaredDeviations_nonneg (l : list Q) (c : Q) :
  0 <= squaredDeviations l c.
Proof. unfold squaredDeviations. apply squaredDeviations_acc. lra. Qed.

(** X29: updating with no observation returns the prior.  A prior with
    0 < mu < 1, a concentration above -1 and a positive sample size can
    always be updated: the blended variance is positive, the sample sizes
    add, kappa is at least 2, alpha0 + beta0 = kappa, and for observations
    in [0, 1] the new mu stays in [0, 1] with alpha0 and beta0 not
    negative. *)
Theorem updateHyperPrior_defined (prior : HyperPrior) (obs : list Q) :
  0 < mu prior -> mu prior < 1 -> -1 < kappa prior ->
  0 < effectiveSampleSize prior ->
  (obs = [] -> updateHyperPrior prior obs = Some prior)
  /\ exists h,
       updateHyperPrior prior obs = Some h
       /\ (obs <> [] ->
           effectiveSampleSize h
           = effectiveSampleSize prior + inject_Z (Z.of_nat (length obs))
           /\ 2 <= kappa h
           /\ alpha0 h + beta0 h == kappa h
           /\ ((forall x, In x obs -> 0 <= x /\ x <= 1) ->
               (0 <= mu h /\ mu h <= 1) /\ 0 <= alpha0 h /\ 0 <= beta0 h)).
Proof.
  intros Hm0 Hm1 Hk Hess.
  split; [intros ->; reflexivity |].
  unfold updateHyperPrior.
  destruct (Nat.eqb_spec (length obs) 0) as [E | E].
  { exists prior. split; [reflexivity |]. intros Hne.
    destruct obs; [congruence | discriminate]. }
  set (n := inject_Z (Z.of_nat (length obs))).
  set (total := effectiveSampleSize prior + n).
  set (newMean := Qsum obs / n).
  set (m := (mu prior * effectiveSampleSize prior + newMean * n) / total).
  set (newVariance := squaredDeviations obs newMean / n).
  set (oldVariance := mu prior * (1 - mu prior) / (kappa prior + 1)).
  set (variance :=
         (oldVariance * effectiveSampleSize prior + newVariance * n) / total).
  assert (Hn : 0 < n).
  { unfold n. change 0 with (inject_Z 0). rewrite <- Zlt_Qlt. lia. }
  assert (Ht : 0 < total) by (unfold total; lra).
  assert (Hold : 0 < oldVariance).
  { unfold oldVariance. apply Qlt_shift_div_l; [lra | nra]. }
  assert (Hnew : 0 <= newVariance).
  { unfold newVariance. apply Qle_shift_div_l; [exact Hn |].
    pose proof (squaredDeviations_nonneg obs newMean). lra. }
  assert (Hvar : 0 < variance).
  { unfold variance. apply Qlt_shift_div_l; [exact Ht |]. nra. }
  assert (B1 : Qeq_bool (kappa prior + 1) 0 = false).
  { apply not_true_is_false. intros H. apply Qeq_bool_iff in H. lra. }
  assert (B2 : Qeq_bool total 0 = false).
  { apply not_true_is_false. intros H. apply Qeq_bool_iff in H. lra. }
  assert (B3 : Qeq_bool variance 0 = false).
  { apply not_true_is_false. intros H. apply Qeq_bool_iff in H. lra. }
  rewrite B1, B2, B3. cbn [orb].
  eexists. split; [reflexivity |]. intros _.
  cbn [mu kappa alpha0 beta0 effectiveSampleSize].
  set (k := Qmax 2 _).
  assert (Hk2 : 2 <= k) by apply Q.le_max_l.
  split; [reflexivity |]. split; [exact Hk2 |]. split; [ring |].
  intros Hrange. destruct (Qsum_unit_range obs Hrange) as [S0 S1]. fold n in S1.
  assert (Hmean : 0 <= newMean /\ newMean <= 1).
  { unfold newMean. split; [apply Qle_shift_div_l | apply Qle_shift_div_r]; lra. }
  assert (Hmu : 0 <= m /\ m <= 1).
  { unfold m. split; [apply Qle_shift_div_l | apply Qle_shift_div_r];
      try exact Ht; unfold total; nra. }
  split; [exact Hmu |]. split; nra.
Qed.

Lemma updateHyperPrior_defined_witness :
  exists h,
    updateHyperPrior (mkHyper (1 # 2) 2 (15 # 10) (15 # 10) 3) [7 # 10]
    = Some h.
Proof.
  destruct (updateHyperPrior_defined (mkHyper (1 # 2) 2 (15 # 10) (15 # 10) 3)
              [7 # 10] eq_refl eq_refl eq_refl eq_refl) as [_ [h [E _]]].
  exists h. exact E.
Defined.
